(** * routesim2: path-vector and link-state routing nodes

    A shallow embedding of [distance_vector_node.py] and
    [link_state_node.py].  Python integers are [Z], Python floats are
    the binary64 numbers of [PrimFloat], dictionaries are
    insertion-ordered association lists, and a call that can raise
    returns a [result].  The two classes are the modules
    [Distance_Vector_Node] and [Link_State_Node]; what they take from
    the interpreter ([json.loads], [json.dumps], [int] and [float] of a
    string) is the class [Runtime]. *)

From Stdlib Require Import String Ascii ZArith Bool Floats Lia List.
From Stdlib Require Import DecimalString Wellfounded Relation_Operators.
Import ListNotations.

Local Open Scope Z_scope.
Set Warnings "-register-all".

(** ** Python values and exceptions *)

(** The objects [json.loads] builds, which are also the arguments the
    simulator passes to a node. *)
Inductive value : Type :=
| VNone
| VBool (b : bool)
| VInt (z : Z)
| VFloat (f : float)
| VStr (s : string)
| VList (xs : list value)
| VDict (items : list (string * value)).

Inductive exn : Type :=
| JSONDecodeError
| KeyError
| TypeError
| ValueError
| OverflowError.

Inductive result (A : Type) : Type :=
| Ok (a : A)
| Raise (e : exn).
Arguments Ok {A} a.
Arguments Raise {A} e.

Definition bind {A B : Type} (r : result A) (k : A -> result B) : result B :=
  match r with
  | Ok a => k a
  | Raise e => Raise e
  end.

Notation "x <- r ;; k" := (bind r (fun x => k))
  (at level 61, r at next level, right associativity).

(** What a handler does: it returns, having sent some messages, or an
    exception leaves it; either way the node is in some state. *)
Inductive outcome (S : Type) : Type :=
| Returned (st : S) (sent : list string)
| Raised (e : exn) (st : S).
Arguments Returned {S} st sent.
Arguments Raised {S} e st.

Definition state_of {S : Type} (o : outcome S) : S :=
  match o with
  | Returned st _ => st
  | Raised _ st => st
  end.

Definition sent_of {S : Type} (o : outcome S) : list string :=
  match o with
  | Returned _ sent => sent
  | Raised _ _ => []
  end.

Definition raises {S : Type} (o : outcome S) : bool :=
  match o with
  | Returned _ _ => false
  | Raised _ _ => true
  end.

(** The interpreter's side: decoding and encoding JSON text, and
    reading a number out of a string.  [None] stands for the exception
    the call raises. *)
Class Runtime : Type := {
  json_loads : string -> option value;
  json_dumps : value -> string;
  int_of_str : string -> option Z;
  float_of_str : string -> option float
}.

(** ** Builtins *)

Definition INF : float := infinity.

(** [int(f)] of a float: truncation toward zero. *)
Definition int_of_float (f : float) : result Z :=
  match Prim2SF f with
  | S754_zero _ => Ok 0
  | S754_infinity _ => Raise OverflowError
  | S754_nan => Raise ValueError
  | S754_finite s m e =>
      let a := if 0 <=? e then Z.shiftl (Zpos m) e else Z.shiftr (Zpos m) (- e) in
      Ok (if s then - a else a)
  end.

(** [float(z)] of an int: the nearest binary64 number, ties to even. *)
Definition float_of_int (z : Z) : result float :=
  match binary_normalize prec emax z 0 false with
  | S754_infinity _ => Raise OverflowError
  | sf => Ok (SF2Prim sf)
  end.

Definition py_int {R : Runtime} (v : value) : result Z :=
  match v with
  | VInt z => Ok z
  | VBool b => Ok (if b then 1 else 0)
  | VFloat f => int_of_float f
  | VStr s => match int_of_str s with Some z => Ok z | None => Raise ValueError end
  | VNone | VList _ | VDict _ => Raise TypeError
  end.

Definition py_float {R : Runtime} (v : value) : result float :=
  match v with
  | VFloat f => Ok f
  | VInt z => float_of_int z
  | VBool b => Ok (if b then 1 else 0)%float
  | VStr s => match float_of_str s with Some f => Ok f | None => Raise ValueError end
  | VNone | VList _ | VDict _ => Raise TypeError
  end.

(** [str(z)] of an int. *)
Definition py_str (z : Z) : string := NilZero.string_of_int (Z.to_int z).

(** [[int(x) for x in xs]]. *)
Fixpoint int_list {R : Runtime} (xs : list value) : result (list Z) :=
  match xs with
  | [] => Ok []
  | x :: xs' => z <- py_int x ;; zs <- int_list xs' ;; Ok (z :: zs)
  end.

(** Lookup in a decoded JSON object. *)
Fixpoint items_get (k : string) (items : list (string * value)) : option value :=
  match items with
  | [] => None
  | (k', v) :: rest => if String.eqb k k' then Some v else items_get k rest
  end.

(** [v[k]] for a string key. *)
Definition getitem (v : value) (k : string) : result value :=
  match v with
  | VDict items =>
      match items_get k items with
      | Some x => Ok x
      | None => Raise KeyError
      end
  | _ => Raise TypeError
  end.

(** [v == -1], the test for the delete sentinel: an int or a float
    equal to minus one; [True] and [False] are 1 and 0. *)
Definition is_minus_one (v : value) : bool :=
  match v with
  | VInt z => z =? -1
  | VFloat f => (f =? -1)%float
  | _ => false
  end.

(** [v == s] for a str [s]. *)
Definition eq_str (v : option value) (s : string) : bool :=
  match v with
  | Some (VStr s') => String.eqb s' s
  | _ => false
  end.

(** ** Dictionaries

    A [dict] keyed by ints, in insertion order: assignment to a key
    that is present keeps its place, a new key goes last. *)
Section Dict.
Context {V : Type}.

Definition dict : Type := list (Z * V).

Fixpoint dict_get (k : Z) (d : dict) : option V :=
  match d with
  | [] => None
  | (k', v) :: rest => if k =? k' then Some v else dict_get k rest
  end.

Definition dict_mem (k : Z) (d : dict) : bool :=
  match dict_get k d with
  | Some _ => true
  | None => false
  end.

Fixpoint dict_set (k : Z) (v : V) (d : dict) : dict :=
  match d with
  | [] => [(k, v)]
  | (k', v') :: rest =>
      if k =? k' then (k, v) :: rest else (k', v') :: dict_set k v rest
  end.

(** [d.pop(k, None)], the popped value dropped. *)
Fixpoint dict_pop (k : Z) (d : dict) : dict :=
  match d with
  | [] => []
  | (k', v') :: rest =>
      if k =? k' then dict_pop k rest else (k', v') :: dict_pop k rest
  end.

Definition dict_keys (d : dict) : list Z := map fst d.

(** [{**a, **b}]. *)
Definition dict_merge (a b : dict) : dict :=
  fold_left (fun acc kv => dict_set (fst kv) (snd kv) acc) b a.

(** [a == b], given [==] on the values. *)
Definition dict_eqb (veq : V -> V -> bool) (a b : dict) : bool :=
  (length a =? length b)%nat
  && forallb (fun kv => match dict_get (fst kv) b with
                        | Some v => veq (snd kv) v
                        | None => false
                        end) a.

End Dict.
Arguments dict V : clear implicits.

(** A [set] of ints, listed in the order its members first came in.
    CPython lists a set in the order of its hash table; the loops below
    that run over a set treat each member on its own, so the order only
    decides the places of new keys in a dictionary. *)
Definition set_add (k : Z) (s : list Z) : list Z :=
  if existsb (Z.eqb k) s then s else s ++ [k].

Definition set_update (s : list Z) (ks : list Z) : list Z :=
  fold_left (fun acc k => set_add k acc) ks s.

Definition default {A : Type} (o : option A) (d : A) : A :=
  match o with
  | Some a => a
  | None => d
  end.

(** ** distance_vector_node.py *)
Module Distance_Vector_Node.

(** A selected route, [{"cost": ..., "next": ..., "path": [...]}]. *)
Record route : Type := mk_route {
  cost : float;
  next : Z;
  path : list Z
}.

(** An advertised route, [{"cost": ..., "path": [...]}]. *)
Record advert : Type := mk_advert {
  adv_cost : float;
  adv_path : list Z
}.

Record node : Type := mk_node {
  id : Z;
  neighbor_lat : dict float;
  neighbor_routes : dict (dict advert);
  neighbor_last_update : dict Z;
  routes : dict route
}.

Definition self_route (self : Z) : route := mk_route 0 self [self].

Definition __init__ (id : Z) : node :=
  mk_node id [] [] [] [(id, self_route id)].

(** [a < b] on the tuples [(cost, len(path), next)]: the first pair of
    components that are not [==] decides, by [<]; equal tuples are not
    less.  (The candidate's cost is the new object an addition made,
    never the object on the other side, so [==] is by value.) *)
Definition key_lt (a b : float * nat * Z) : bool :=
  let '(c1, l1, n1) := a in
  let '(c2, l2, n2) := b in
  if negb (c1 =? c2)%float then (c1 <? c2)%float
  else if negb (l1 =? l2)%nat then (l1 <? l2)%nat
  else n1 <? n2.

Definition route_key (r : route) : float * nat * Z :=
  (cost r, List.length (path r), next r).

(** The sentinel a destination with no direct link starts from. *)
Definition no_route : route := mk_route INF (-1) [].

(** One turn of the loop over the neighbours for destination [d]: the
    candidate through neighbour [n], whose link costs [w], against the
    best route so far. *)
Definition challenge (self d : Z) (nr : dict (dict advert))
    (best : route) (nw : Z * float) : route :=
  let '(n, w) := nw in
  match dict_get n nr with
  | None => best
  | Some [] => best
  | Some adv =>
      match dict_get d adv with
      | None => best
      | Some adv_entry =>
          if existsb (Z.eqb self) (adv_path adv_entry) then best
          else
            let cand_cost := (w + adv_cost adv_entry)%float in
            let cand_key := (cand_cost, (List.length (adv_path adv_entry) + 1)%nat, n) in
            if key_lt cand_key (route_key best)
            then mk_route cand_cost n (self :: adv_path adv_entry)
            else best
      end
  end.

(** The body of the loop over the candidate destinations. *)
Definition select (self : Z) (nl : dict float) (nr : dict (dict advert))
    (new_routes : dict route) (d : Z) : dict route :=
  if d =? self then new_routes
  else
    let best := default (dict_get d new_routes) no_route in
    let best := fold_left (challenge self d nr) nl best in
    if (cost best <? INF)%float then dict_set d best new_routes
    else new_routes.

(** The table before the loop: the self route, then every neighbour
    over its own link. *)
Definition direct_routes (self : Z) (nl : dict float) : dict route :=
  fold_left (fun acc nw => dict_set (fst nw) (mk_route (snd nw) (fst nw) [self; fst nw]) acc)
            nl [(self, self_route self)].

Definition candidates (new_routes : dict route) (nr : dict (dict advert)) : list Z :=
  fold_left (fun c nadv => set_update c (dict_keys (snd nadv))) nr
            (set_update [] (dict_keys new_routes)).

Definition new_table (self : Z) (nl : dict float) (nr : dict (dict advert)) : dict route :=
  let new_routes := direct_routes self nl in
  fold_left (select self nl nr) (candidates new_routes nr) new_routes.

(** [==] on route records and on tables, by value.  (CPython answers
    [True] at once for one and the same object; two costs that are the
    same object and not equal by value can only be NaN, and the only
    cost of a table that is an object an earlier table can hold is a
    link cost, every other being the new object an addition made.  So
    this is the comparison of line 189 whenever no link cost is NaN;
    with a NaN link cost the code can find two tables equal that are
    different here, and what is stated of [changed] carries the
    condition that there is none.) *)
Definition route_eqb (a b : route) : bool :=
  (cost a =? cost b)%float && (next a =? next b)
  && if list_eq_dec Z.eq_dec (path a) (path b) then true else false.

Definition table_eqb (a b : dict route) : bool := dict_eqb route_eqb a b.

Definition set_routes (st : node) (r : dict route) : node :=
  mk_node (id st) (neighbor_lat st) (neighbor_routes st) (neighbor_last_update st) r.

(** Returns the node with its new table, and [changed]. *)
Definition _recompute_routes (st : node) : node * bool :=
  let new_routes := new_table (id st) (neighbor_lat st) (neighbor_routes st) in
  let changed := negb (table_eqb new_routes (routes st)) in
  (set_routes st new_routes, changed).

Section WithRuntime.
Context {R : Runtime}.

Definition route_payload (r : route) : value :=
  VDict [("cost"%string, VFloat (cost r)); ("path"%string, VList (map VInt (path r)))].

(** The text [_broadcast_routes] hands to [send_to_neighbors]. *)
Definition _broadcast_routes (st : node) : string :=
  json_dumps
    (VDict [("type"%string, VStr "DV_PATH");
            ("origin"%string, VInt (id st));
            ("routes"%string,
             VDict (map (fun dr => (py_str (fst dr), route_payload (snd dr))) (routes st)))]).

(** The tail both entry points share: recompute, and broadcast when
    the table changed. *)
Definition recompute_and_broadcast (st : node) : outcome node :=
  let (st', changed) := _recompute_routes st in
  Returned st' (if changed then [_broadcast_routes st'] else []).

Definition link_has_been_updated (neighbor latency : value) (st : node) : outcome node :=
  match py_int neighbor with
  | Raise e => Raised e st
  | Ok neighbor =>
      match py_float latency with
      | Raise e => Raised e st
      | Ok latency =>
          let st1 :=
            if (latency =? -1)%float
            then mk_node (id st) (dict_pop neighbor (neighbor_lat st))
                         (dict_pop neighbor (neighbor_routes st))
                         (dict_pop neighbor (neighbor_last_update st)) (routes st)
            else mk_node (id st) (dict_set neighbor latency (neighbor_lat st))
                         (neighbor_routes st) (neighbor_last_update st) (routes st) in
          recompute_and_broadcast st1
      end
  end.

(** One turn of the loop over [raw_routes.items()]. *)
Definition parse_entry (origin : Z) (parsed : dict advert)
    (item : string * value) : result (dict advert) :=
  let '(d_str, entry) := item in
  d <- py_int (VStr d_str) ;;
  c <- getitem entry "cost" ;;
  cost <- py_float c ;;
  p <- getitem entry "path" ;;
  match p with
  | VList xs =>
      path <- int_list xs ;;
      match path with
      | [] => Ok parsed
      | first :: _ =>
          if first =? origin then Ok (dict_set d (mk_advert cost path) parsed)
          else Ok parsed
      end
  | _ => Ok parsed
  end.

Fixpoint parse_routes (origin : Z) (raw_routes : list (string * value))
    (parsed : dict advert) : result (dict advert) :=
  match raw_routes with
  | [] => Ok parsed
  | item :: rest =>
      parsed' <- parse_entry origin parsed item ;;
      parse_routes origin rest parsed'
  end.

(** What is stored for [origin] once its advertisement is parsed. *)
Definition stored_routes (current_time : Z) (st : node) (origin : Z)
    (parsed : dict advert) : dict advert :=
  let last_update_time := default (dict_get origin (neighbor_last_update st)) (-1) in
  let old_routes := default (dict_get origin (neighbor_routes st)) [] in
  if (current_time =? last_update_time)
     && (List.length parsed <? List.length old_routes)%nat
  then dict_merge old_routes parsed
  else parsed.

Definition accept (current_time : Z) (st : node) (origin : Z)
    (parsed : dict advert) : node :=
  mk_node (id st) (neighbor_lat st)
          (dict_set origin (stored_routes current_time st origin parsed) (neighbor_routes st))
          (dict_set origin current_time (neighbor_last_update st))
          (routes st).

(** [current_time] is what [self.get_time()] answers during the call. *)
Definition process_incoming_routing_message (m : string) (current_time : Z)
    (st : node) : outcome node :=
  match json_loads m with
  | None => Raised JSONDecodeError st
  | Some (VDict msg) =>
      if negb (eq_str (items_get "type" msg) "DV_PATH") then Returned st []
      else
        match (o <- getitem (VDict msg) "origin" ;; py_int o) with
        | Raise e => Raised e st
        | Ok origin =>
            if negb (dict_mem origin (neighbor_lat st)) then Returned st []
            else
              match default (items_get "routes" msg) (VDict []) with
              | VDict raw_routes =>
                  match parse_routes origin raw_routes [] with
                  | Raise e => Raised e st
                  | Ok parsed =>
                      recompute_and_broadcast (accept current_time st origin parsed)
                  end
              | _ => Returned st []
              end
        end
  | Some _ => Returned st []
  end.

Definition get_next_hop (destination : value) (st : node) : result Z :=
  destination <- py_int destination ;;
  if destination =? id st then Ok (id st)
  else
    match dict_get destination (routes st) with
    | None => Ok (-1)
    | Some r => Ok (next r)
    end.

End WithRuntime.

(** The states a node can be in: built by [__init__], then changed by
    the two entry points, whatever they are called with. *)
Inductive reachable {R : Runtime} : node -> Prop :=
| reach_init (i : Z) : reachable (__init__ i)
| reach_link (st : node) (neighbor latency : value) :
    reachable st -> reachable (state_of (link_has_been_updated neighbor latency st))
| reach_message (st : node) (m : string) (current_time : Z) :
    reachable st -> reachable (state_of (process_incoming_routing_message m current_time st)).

End Distance_Vector_Node.

(** ** link_state_node.py *)
Module Link_State_Node.

(** An entry of the link-state database,
    [{"seq": ..., "neighbors": {...}}]. *)
Record lsa : Type := mk_lsa {
  lsa_seq : Z;
  lsa_neighbors : dict Z
}.

Record node : Type := mk_node {
  id : Z;
  neighbor_lat : dict Z;
  lsdb : dict lsa;
  seq : Z;
  routing_table : dict Z;
  dist : dict Z
}.

Definition __init__ (id : Z) : node :=
  mk_node id [] [(id, mk_lsa 0 [])] 0 [] [].

(** [add_edge(u, v, w)] inside [_build_merged_adjacency]. *)
Definition setdefault (u : Z) (adj : dict (dict Z)) : dict (dict Z) :=
  if dict_mem u adj then adj else dict_set u [] adj.

Definition add_edge (u v w : Z) (adj : dict (dict Z)) : dict (dict Z) :=
  let adj := setdefault u adj in
  let adj := setdefault v adj in
  let adj := dict_set u (dict_set v w (default (dict_get u adj) [])) adj in
  dict_set v (dict_set u w (default (dict_get v adj) [])) adj.

(** The entries of the database hold ints only, so the [int(...)]
    calls and the [isinstance] test of the source always pass. *)
Definition add_record (adj : dict (dict Z)) (orec : Z * lsa) : dict (dict Z) :=
  let u := fst orec in
  fold_left (fun adj vw => if 0 <=? snd vw then add_edge u (fst vw) (snd vw) adj else adj)
            (lsa_neighbors (snd orec)) adj.

Definition _build_merged_adjacency (st : node) : dict (dict Z) :=
  fold_left add_record (lsdb st) [].

(** [heapq] on a list of [(distance, node)] tuples.  The list is a
    binary heap in the source; all the loop sees of it is that
    [heappop] takes out the least tuple. *)
Definition tuple_ltb (a b : Z * Z) : bool :=
  (fst a <? fst b) || ((fst a =? fst b) && (snd a <? snd b)).

Definition tuple_eqb (a b : Z * Z) : bool :=
  (fst a =? fst b) && (snd a =? snd b).

Fixpoint heap_min (x : Z * Z) (pq : list (Z * Z)) : Z * Z :=
  match pq with
  | [] => x
  | y :: rest => heap_min (if tuple_ltb y x then y else x) rest
  end.

Fixpoint remove_one (x : Z * Z) (pq : list (Z * Z)) : list (Z * Z) :=
  match pq with
  | [] => []
  | y :: rest => if tuple_eqb x y then rest else y :: remove_one x rest
  end.

Definition heappush (pq : list (Z * Z)) (x : Z * Z) : list (Z * Z) := x :: pq.

Definition heappop (pq : list (Z * Z)) : option ((Z * Z) * list (Z * Z)) :=
  match pq with
  | [] => None
  | x :: rest => let m := heap_min x rest in Some (m, remove_one m pq)
  end.

(** The search state: [dist], [first_hop] and [pq]. *)
Definition search_state : Type := dict Z * dict Z * list (Z * Z).

(** [nd < dist.get(v, INF)]. *)
Definition improves (nd : Z) (cur : option Z) : bool :=
  match cur with
  | None => true
  | Some c => nd <? c
  end.

(** One turn of the loop over the edges of [u], popped at distance [d]. *)
Definition relax (src u d : Z) (s : search_state) (vw : Z * Z) : search_state :=
  let '(dist, first_hop, pq) := s in
  let '(v, w) := vw in
  let nd := d + w in
  if improves nd (dict_get v dist)
  then (dict_set v nd dist,
        dict_set v (if u =? src then v else default (dict_get u first_hop) (-1)) first_hop,
        heappush pq (nd, v))
  else s.

(** [d != dist.get(u, INF)]. *)
Definition outdated (d : Z) (cur : option Z) : bool :=
  match cur with
  | None => true
  | Some c => negb (d =? c)
  end.

(** One turn of [while pq]; [None] when the queue is empty. *)
Definition step (adj : dict (dict Z)) (src : Z) (s : search_state) : option search_state :=
  let '(dist, first_hop, pq) := s in
  match heappop pq with
  | None => None
  | Some ((d, u), pq') =>
      if outdated d (dict_get u dist) then Some (dist, first_hop, pq')
      else Some (fold_left (relax src u d) (default (dict_get u adj) []) (dist, first_hop, pq'))
  end.

(** The [while] loop, run for at most [fuel] turns. *)
Fixpoint search (fuel : nat) (adj : dict (dict Z)) (src : Z) (s : search_state)
    : option (dict Z * dict Z) :=
  match fuel with
  | O => None
  | S fuel' =>
      match step adj src s with
      | None => Some (fst (fst s), snd (fst s))
      | Some s' => search fuel' adj src s'
      end
  end.

Definition set_tables (st : node) (d rt : dict Z) : node :=
  mk_node (id st) (neighbor_lat st) (lsdb st) (seq st) rt d.

(** [None]: the loop was still running when the fuel ran out. *)
Definition _recompute_routes (fuel : nat) (st : node) : option node :=
  let adj := _build_merged_adjacency st in
  let src := id st in
  if negb (dict_mem src adj) then Some (set_tables st [] [])
  else
    match search fuel adj src ([(src, 0)], [], [(0, src)]) with
    | Some (dist, first_hop) => Some (set_tables st dist first_hop)
    | None => None
    end.

Section WithRuntime.
Context {R : Runtime}.

Definition lsa_payload (st : node) (seq : Z) : value :=
  VDict [("type"%string, VStr "LSA");
         ("origin"%string, VInt (id st));
         ("seq"%string, VInt seq);
         ("neighbors"%string,
          VDict (map (fun nl => (py_str (fst nl), VInt (snd nl))) (neighbor_lat st)))].

Definition _originate_and_flood_lsa (fuel : nat) (st : node) : option (outcome node) :=
  let seq' := seq st + 1 in
  let st1 := mk_node (id st) (neighbor_lat st)
                     (dict_set (id st) (mk_lsa seq' (neighbor_lat st)) (lsdb st))
                     seq' (routing_table st) (dist st) in
  match _recompute_routes fuel st1 with
  | Some st2 => Some (Returned st2 [json_dumps (lsa_payload st seq')])
  | None => None
  end.

Definition set_neighbor_lat (st : node) (nl : dict Z) : node :=
  mk_node (id st) nl (lsdb st) (seq st) (routing_table st) (dist st).

Definition link_has_been_updated (fuel : nat) (neighbor latency : value) (st : node)
    : option (outcome node) :=
  match py_int neighbor with
  | Raise _ => Some (Returned st [])
  | Ok neighbor =>
      if is_minus_one latency
      then _originate_and_flood_lsa fuel
             (set_neighbor_lat st (dict_pop neighbor (neighbor_lat st)))
      else
        match py_int latency with
        | Raise e => Some (Raised e st)
        | Ok latency =>
            _originate_and_flood_lsa fuel
              (set_neighbor_lat st (dict_set neighbor latency (neighbor_lat st)))
        end
  end.

(** One turn of the loop over [raw_neighbors.items()]. *)
Definition parse_neighbor (incoming : dict Z) (kv : string * value) : dict Z :=
  match (nk <- py_int (VStr (fst kv)) ;; nv <- py_int (snd kv) ;; Ok (nk, nv)) with
  | Raise _ => incoming
  | Ok (nk, nv) => if 0 <=? nv then dict_set nk nv incoming else incoming
  end.

Definition parse_neighbors (raw_neighbors : value) : dict Z :=
  match raw_neighbors with
  | VDict items => fold_left parse_neighbor items []
  | _ => []
  end.

(** The stored record holds an int under ["seq"], so
    [int(current.get("seq", -1))] is that int and does not raise. *)
Definition stale (incoming_seq : Z) (current : option lsa) : bool :=
  match current with
  | None => false
  | Some c => incoming_seq <=? lsa_seq c
  end.

Definition install (st : node) (origin incoming_seq : Z) (incoming_neighbors : dict Z) : node :=
  mk_node (id st) (neighbor_lat st)
          (dict_set origin (mk_lsa incoming_seq incoming_neighbors) (lsdb st))
          (seq st) (routing_table st) (dist st).

Definition process_incoming_routing_message (fuel : nat) (m : string) (st : node)
    : option (outcome node) :=
  match json_loads m with
  | None => Some (Returned st [])
  | Some (VDict msg) =>
      if negb (eq_str (items_get "type" msg) "LSA") then Some (Returned st [])
      else
        match (o <- getitem (VDict msg) "origin" ;; origin <- py_int o ;;
               s <- getitem (VDict msg) "seq" ;; incoming_seq <- py_int s ;;
               Ok (origin, incoming_seq)) with
        | Raise _ => Some (Returned st [])
        | Ok (origin, incoming_seq) =>
            if origin =? id st then Some (Returned st [])
            else
              let raw_neighbors := default (items_get "neighbors" msg) (VDict []) in
              let incoming_neighbors := parse_neighbors raw_neighbors in
              if stale incoming_seq (dict_get origin (lsdb st)) then Some (Returned st [])
              else
                match _recompute_routes fuel (install st origin incoming_seq incoming_neighbors) with
                | Some st' => Some (Returned st' [m])
                | None => None
                end
        end
  | Some _ => Some (Returned st [])
  end.

Definition get_next_hop (destination : value) (st : node) : Z :=
  match py_int destination with
  | Raise _ => -1
  | Ok destination =>
      if destination =? id st then id st
      else default (dict_get destination (routing_table st)) (-1)
  end.

End WithRuntime.

End Link_State_Node.

(** ** A runtime for the examples

    [sample_dumps] writes JSON text for values whose strings need no
    escape, a float in its full decimal expansion (where [json.dumps]
    writes the shortest one that reads back); [sample_loads] reads back
    the texts of [sample_values] and refuses every other text, as
    [json.loads] refuses text that is no JSON. *)
Module Sample.

Definition quote : string := String (ascii_of_nat 34) EmptyString.

(** The decimal digits of [fp / 2^k], for [0 <= fp < 2^k]: there are
    [k] of them at most. *)
Fixpoint fraction_digits (fuel : nat) (fp k : Z) : string :=
  match fuel with
  | O => EmptyString
  | S fuel' =>
      if fp =? 0 then EmptyString
      else
        let t := fp * 10 in
        String (ascii_of_nat (48 + Z.to_nat (Z.shiftr t k)))
               (fraction_digits fuel' (Z.land t (Z.ones k)) k)
  end.

(** A float in full: [m * 2^e] has a finite decimal expansion. *)
Definition float_text (f : float) : string :=
  match Prim2SF f with
  | S754_zero s => if s then "-0.0"%string else "0.0"%string
  | S754_infinity s => if s then "-Infinity"%string else "Infinity"%string
  | S754_nan => "NaN"%string
  | S754_finite s m e =>
      let sign := if s then "-"%string else EmptyString in
      let k := - e in
      let whole := if 0 <=? e then Z.shiftl (Zpos m) e else Z.shiftr (Zpos m) k in
      let digits :=
        if 0 <=? e then EmptyString
        else fraction_digits (Z.to_nat k) (Z.land (Zpos m) (Z.ones k)) k in
      (sign ++ py_str whole ++ "."
       ++ match digits with EmptyString => "0" | _ => digits end)%string
  end.

Definition comma_join (parts : list string) : string :=
  match parts with
  | [] => EmptyString
  | p :: rest => fold_left (fun acc s => (acc ++ ", " ++ s)%string) rest p
  end.

Fixpoint sample_dumps (v : value) : string :=
  match v with
  | VNone => "null"%string
  | VBool b => if b then "true"%string else "false"%string
  | VInt z => py_str z
  | VFloat f => float_text f
  | VStr s => (quote ++ s ++ quote)%string
  | VList xs =>
      ("[" ++ comma_join
                ((fix each (l : list value) : list string :=
                    match l with
                    | [] => []
                    | x :: l' => sample_dumps x :: each l'
                    end) xs) ++ "]")%string
  | VDict items =>
      ("{" ++ comma_join
                ((fix each (l : list (string * value)) : list string :=
                    match l with
                    | [] => []
                    | (k, x) :: l' =>
                        (quote ++ k ++ quote ++ ": " ++ sample_dumps x)%string :: each l'
                    end) items) ++ "}")%string
  end.

Definition dv_advert (origin : Z) (rs : list (Z * (float * list Z))) : value :=
  VDict [("type"%string, VStr "DV_PATH");
         ("origin"%string, VInt origin);
         ("routes"%string,
          VDict (map (fun e => (py_str (fst e),
                                VDict [("cost"%string, VFloat (fst (snd e)));
                                       ("path"%string, VList (map VInt (snd (snd e))))]))
                     rs))].

Definition ls_advert (origin seq : Z) (ns : list (Z * Z)) : value :=
  VDict [("type"%string, VStr "LSA");
         ("origin"%string, VInt origin);
         ("seq"%string, VInt seq);
         ("neighbors"%string, VDict (map (fun e => (py_str (fst e), VInt (snd e))) ns))].

(** An advertisement from node 2 whose route to 3 runs through node 1. *)
Definition advert_loop : value :=
  dv_advert 2 [(2, (0%float, [2])); (3, (4%float, [2; 1; 3])); (4, (7%float, [2; 4]))].

(** Node 2 tells of itself and of node 3, five away. *)
Definition advert_line : value :=
  dv_advert 2 [(2, (0%float, [2])); (3, (5%float, [2; 3]))].

(** The same sender with one entry only. *)
Definition advert_short : value :=
  dv_advert 2 [(2, (0%float, [2]))].

(** An advertisement whose second entry has no cost. *)
Definition advert_no_cost : value :=
  VDict [("type"%string, VStr "DV_PATH");
         ("origin"%string, VInt 2);
         ("routes"%string,
          VDict [("3"%string, VDict [("cost"%string, VFloat 5);
                                     ("path"%string, VList [VInt 2; VInt 3])]);
                 ("4"%string, VDict [("path"%string, VList [VInt 2; VInt 4])])])].

(** An advertisement whose entries for 4 and 5 have a path that is no
    list, or does not start at the sender. *)
Definition advert_bad_paths : value :=
  VDict [("type"%string, VStr "DV_PATH");
         ("origin"%string, VInt 2);
         ("routes"%string,
          VDict [("3"%string, VDict [("cost"%string, VFloat 5);
                                     ("path"%string, VList [VInt 2; VInt 3])]);
                 ("4"%string, VDict [("cost"%string, VFloat 1);
                                     ("path"%string, VStr "2-4")]);
                 ("5"%string, VDict [("cost"%string, VFloat 1);
                                     ("path"%string, VList [VInt 9; VInt 5])]);
                 ("6"%string, VDict [("cost"%string, VFloat 2);
                                     ("path"%string, VList [])])])].

(** A message with no ["origin"]. *)
Definition advert_no_origin : value :=
  VDict [("type"%string, VStr "DV_PATH"); ("routes"%string, VDict [])].

Definition lsa_2_seq5 : value := ls_advert 2 5 [(1, 5); (3, 5)].
Definition lsa_2_seq3 : value := ls_advert 2 3 [(1, 9)].
Definition lsa_3_seq1 : value := ls_advert 3 1 [(2, 5)].

Definition items_of (v : value) : list (string * value) :=
  match v with
  | VDict items => items
  | _ => []
  end.

Definition sample_values : list value :=
  [advert_loop; advert_line; advert_short; advert_no_cost; advert_bad_paths;
   advert_no_origin; lsa_2_seq5; lsa_2_seq3; lsa_3_seq1; VList []; VInt 7].

Definition sample_loads (m : string) : option value :=
  find (fun v => String.eqb (sample_dumps v) m) sample_values.

(** A string of decimal digits with an optional minus sign. *)
Definition sample_int_of_str (s : string) : option Z :=
  option_map Z.of_int (NilZero.int_of_string s).

Definition sample_float_of_str (s : string) : option float :=
  match sample_int_of_str s with
  | Some z => match float_of_int z with Ok f => Some f | Raise _ => None end
  | None => None
  end.

Definition sample_runtime : Runtime := {|
  json_loads := sample_loads;
  json_dumps := sample_dumps;
  int_of_str := sample_int_of_str;
  float_of_str := sample_float_of_str
|}.

#[local] Existing Instance sample_runtime.

(** Links of node 1 to nodes 2, 3 and 5, and what each of them
    advertises for node 4: the same total cost through 2 and 3 over
    paths of the same length, and the same cost over a longer path
    through 5. *)
Definition tie_links : dict float := [(3, 1%float); (2, 5%float); (5, 2%float)].

Definition tie_adverts : dict (dict Distance_Vector_Node.advert) :=
  [(3, [(4, Distance_Vector_Node.mk_advert 5 [3; 4])]);
   (2, [(4, Distance_Vector_Node.mk_advert 1 [2; 4])]);
   (5, [(4, Distance_Vector_Node.mk_advert 4 [5; 6; 4]);
        (7, Distance_Vector_Node.mk_advert infinity [5; 7])])].

(** Path-vector node 1 with a link of cost 5 to node 2. *)
Definition dv_linked : Distance_Vector_Node.node :=
  state_of (Distance_Vector_Node.link_has_been_updated (VInt 2) (VInt 5)
              (Distance_Vector_Node.__init__ 1)).

(** That node after node 2 advertised itself and node 3 at time 10. *)
Definition dv_after_line_advert : Distance_Vector_Node.node :=
  state_of (Distance_Vector_Node.process_incoming_routing_message
              (sample_dumps advert_line) 10 dv_linked).

(** The same node after node 2 advertised a route to 3 over the path
    2, 1, 3 and a route to 4 over 2, 4, at time 10. *)
Definition dv_after_loop_advert : Distance_Vector_Node.node :=
  state_of (Distance_Vector_Node.process_incoming_routing_message
              (sample_dumps advert_loop) 10 dv_linked).

(** The state a link-state handler leaves, [st] if the fuel ran out. *)
Definition ls_after (o : option (outcome Link_State_Node.node))
    (st : Link_State_Node.node) : Link_State_Node.node :=
  match o with
  | Some out => state_of out
  | None => st
  end.

(** Link-state node 1 with a link of cost 5 to node 2. *)
Definition ls_linked : Link_State_Node.node :=
  ls_after (Link_State_Node.link_has_been_updated 100 (VInt 2) (VInt 5)
              (Link_State_Node.__init__ 1))
           (Link_State_Node.__init__ 1).

(** That node after the advertisement of node 2 with sequence number 5. *)
Definition ls_after_seq5 : Link_State_Node.node :=
  ls_after (Link_State_Node.process_incoming_routing_message 100
              (sample_dumps lsa_2_seq5) ls_linked)
           ls_linked.

End Sample.

(** * Notions the statements use *)

Module DV := Distance_Vector_Node.
Module LS := Link_State_Node.

Ltac cmp_cases :=
  repeat match goal with
  | |- context [Pos.compare_cont Eq ?a ?b] =>
      change (Pos.compare_cont Eq a b) with (Pos.compare a b)
  | H : context [Pos.compare_cont Eq ?a ?b] |- _ =>
      change (Pos.compare_cont Eq a b) with (Pos.compare a b) in H
  end;
  repeat match goal with
  | H : context [Z.compare ?a ?b] |- _ => destruct (Z.compare_spec a b); simpl in H
  | H : context [Pos.compare ?a ?b] |- _ => destruct (Pos.compare_spec a b); simpl in H
  | |- context [Z.compare ?a ?b] => destruct (Z.compare_spec a b); simpl
  | |- context [Pos.compare ?a ?b] => destruct (Pos.compare_spec a b); simpl
  end.

Ltac dropped :=
  split; [reflexivity|]; split; [reflexivity|]; split;
  [ intros H; first [discriminate H | reflexivity]
  | intros v' Hv Hall;
    first [ discriminate Hv
          | reflexivity
          | injection Hv as <-; specialize (Hall _ eq_refl); congruence ] ].

(** The comparison behind [==] and [<] on floats; [None] when one side
    is NaN. *)
Definition fcmp (x y : float) : option comparison :=
  SFcompare (Prim2SF x) (Prim2SF y).

Module DV_Notions.
Import Distance_Vector_Node.

(** The candidate through neighbour [nw] for destination [d], when the
    neighbour advertises [d] over a path that does not hold [self]. *)
Definition challenger (self d : Z) (nr : dict (dict advert)) (nw : Z * float)
    : option route :=
  match dict_get (fst nw) nr with
  | None => None
  | Some adv =>
      match dict_get d adv with
      | None => None
      | Some e =>
          if existsb (Z.eqb self) (adv_path e) then None
          else Some (mk_route (snd nw + adv_cost e)%float (fst nw) (self :: adv_path e))
      end
  end.

(** The best route for [d] once every neighbour had its turn. *)
Definition best_route (self d : Z) (nl : dict float) (nr : dict (dict advert))
    (start : route) : route :=
  fold_left (challenge self d nr) nl start.

(** What the loop body leaves in the table for its own destination. *)
Definition selected (self d : Z) (nl : dict float) (nr : dict (dict advert))
    (before : option route) : option route :=
  let best := best_route self d nl nr (default before no_route) in
  if (cost best <? INF)%float then Some best else before.

(** No selected path passes through the node a second time. *)
Definition loop_free (self : Z) (t : dict route) : Prop :=
  forall d r, d <> self -> dict_get d t = Some r ->
              exists p, path r = self :: p /\ ~ In self p.

Section WithRuntime.
Context {R : Runtime}.

(** A handler leaves the node as it was or ends in a recomputation
    for the same identifier. *)
Definition recomputed (st st' : node) : Prop :=
  st' = st
  \/ exists st1, id st1 = id st
               /\ st' = set_routes st1 (new_table (id st1) (neighbor_lat st1) (neighbor_routes st1)).

(** A text that decodes to an advertisement of this protocol: an
    object of type [DV_PATH] with an integer origin and a route object
    every entry of which parses. *)
Definition well_formed (m : string) (origin : Z) (parsed : dict advert) : Prop :=
  exists msg raw,
    json_loads m = Some (VDict msg)
    /\ eq_str (items_get "type" msg) "DV_PATH" = true
    /\ (o <- getitem (VDict msg) "origin" ;; py_int o) = Ok origin
    /\ default (items_get "routes" msg) (VDict []) = VDict raw
    /\ parse_routes origin raw [] = Ok parsed.

(** The entries [parse_routes] passes over: the path is no list, or
    it is an empty list, or its first element is not the sender. *)
Definition path_dropped (origin : Z) (p : value) : bool :=
  match p with
  | VList xs =>
      match int_list xs with
      | Ok [] => true
      | Ok (first :: _) => negb (first =? origin)
      | Raise _ => false
      end
  | _ => true
  end.

End WithRuntime.

End DV_Notions.

Module LS_Notions.
Import Link_State_Node.

Definition edges_nonneg (adj : dict (dict Z)) : Prop :=
  forall u es v w, In (u, es) adj -> In (v, w) es -> 0 <= w.

Definition dist_nonneg (dist : dict Z) : Prop :=
  forall k x, In (k, x) dist -> 0 <= x.

(** The nodes some edge leads to. *)
Definition targets (adj : dict (dict Z)) : list Z :=
  flat_map (fun ues => dict_keys (snd ues)) adj.

Definition unseen (adj : dict (dict Z)) (dist : dict Z) : nat :=
  List.length (filter (fun v => negb (dict_mem v dist)) (nodup Z.eq_dec (targets adj))).

Fixpoint total (dist : dict Z) : nat :=
  match dist with
  | [] => 0
  | (_, x) :: rest => Z.to_nat x + total rest
  end.

Definition weight (s : search_state) : nat :=
  2 * total (fst (fst s)) + List.length (snd s).

(** [s'] is no further from the end than [s]. *)
Definition no_worse (adj : dict (dict Z)) (s' s : search_state) : Prop :=
  (unseen adj (fst (fst s')) < unseen adj (fst (fst s)))%nat
  \/ (unseen adj (fst (fst s')) = unseen adj (fst (fst s))
      /\ (weight s' <= weight s)%nat).

Section WithRuntime.
Context {R : Runtime}.

(** [m] decodes to an advertisement of this protocol from [origin]
    with sequence number [incoming_seq] and neighbour costs
    [incoming_neighbors]. *)
Definition advert_of (m : string) (origin incoming_seq : Z)
    (incoming_neighbors : dict Z) : Prop :=
  exists msg,
    json_loads m = Some (VDict msg)
    /\ eq_str (items_get "type" msg) "LSA" = true
    /\ (o <- getitem (VDict msg) "origin" ;; origin <- py_int o ;;
        s <- getitem (VDict msg) "seq" ;; incoming_seq <- py_int s ;;
        Ok (origin, incoming_seq)) = Ok (origin, incoming_seq)
    /\ incoming_neighbors
       = parse_neighbors (default (items_get "neighbors" msg) (VDict [])).

End WithRuntime.

End LS_Notions.

(** ** Notions of the further properties *)

(** *** Path-vector node *)

Module DV_Invariants.
Import Distance_Vector_Node DV_Notions.

(** The table is the one [_recompute_routes] builds from the link
    costs and the stored advertisements. *)
Definition up_to_date (st : node) : Prop :=
  routes st = new_table (id st) (neighbor_lat st) (neighbor_routes st).

(** Every stored advertisement is stored under a neighbour, with the
    time it came, and each path in it starts at that neighbour. *)
Definition adverts_checked (st : node) : Prop :=
  (forall n, dict_mem n (neighbor_routes st) = true ->
             dict_mem n (neighbor_lat st) = true)
  /\ (forall n, dict_mem n (neighbor_last_update st) = dict_mem n (neighbor_routes st))
  /\ (forall n adv d e, dict_get n (neighbor_routes st) = Some adv ->
                        dict_get d adv = Some e ->
                        exists rest, adv_path e = n :: rest).

(** No key twice, in any dictionary of the node. *)
Definition keys_unique (st : node) : Prop :=
  NoDup (dict_keys (neighbor_lat st))
  /\ NoDup (dict_keys (neighbor_routes st))
  /\ (forall n adv, In (n, adv) (neighbor_routes st) -> NoDup (dict_keys adv)).

(** What a node advertises: its table without the next hops. *)
Definition advertised (st : node) : dict advert :=
  map (fun dr => (fst dr, mk_advert (cost (snd dr)) (path (snd dr)))) (routes st).

(** The object [_broadcast_routes] serialises. *)
Definition broadcast_payload (st : node) : value :=
  VDict [("type"%string, VStr "DV_PATH");
         ("origin"%string, VInt (id st));
         ("routes"%string,
          VDict (map (fun dr => (py_str (fst dr), route_payload (snd dr))) (routes st)))].

(** The node after the [if] of [link_has_been_updated], before the
    recomputation: link [n] deleted, or set to [w]. *)
Definition link_deleted (n : Z) (st : node) : node :=
  mk_node (id st) (dict_pop n (neighbor_lat st)) (dict_pop n (neighbor_routes st))
          (dict_pop n (neighbor_last_update st)) (routes st).

Definition link_set (n : Z) (w : float) (st : node) : node :=
  mk_node (id st) (dict_set n w (neighbor_lat st)) (neighbor_routes st)
          (neighbor_last_update st) (routes st).

(** The three invariants together. *)
Definition sound (st : node) : Prop :=
  keys_unique st /\ adverts_checked st /\ up_to_date st.

End DV_Invariants.

(** A runtime that also reads back what node 2, linked to node 1 at
    cost 5, broadcasts. *)
Module Sample_Broadcast.
Import Distance_Vector_Node.

Definition sender : node :=
  state_of (@link_has_been_updated Sample.sample_runtime (VInt 1) (VInt 5) (__init__ 2)).

Definition broadcast_loads (m : string) : option value :=
  find (fun v => String.eqb (Sample.sample_dumps v) m)
       (DV_Invariants.broadcast_payload sender :: Sample.sample_values).

Definition broadcast_runtime : Runtime := {|
  json_loads := broadcast_loads;
  json_dumps := Sample.sample_dumps;
  int_of_str := Sample.sample_int_of_str;
  float_of_str := Sample.sample_float_of_str
|}.

End Sample_Broadcast.

(** *** Link-state node *)

Module LS_Graph.
Import Link_State_Node.

(** [adj[u][v]], if there is one. *)
Definition adj_get (adj : dict (dict Z)) (u v : Z) : option Z :=
  match dict_get u adj with
  | Some es => dict_get v es
  | None => None
  end.

(** [(v, w)] is among the items of [adj[u]], the edges the search
    follows from [u]. *)
Definition edge (adj : dict (dict Z)) (u v w : Z) : Prop :=
  exists es, dict_get u adj = Some es /\ In (v, w) es.

(** A walk from [src] along edges, with the sum of its weights. *)
Inductive walk (adj : dict (dict Z)) (src : Z) : Z -> Z -> Prop :=
| walk_here : walk adj src src 0
| walk_step (u v w l : Z) :
    walk adj src u l -> edge adj u v w -> walk adj src v (l + w).

(** A walk from [src] whose first edge leads to [h]. *)
Inductive walk_via (adj : dict (dict Z)) (src h : Z) : Z -> Z -> Prop :=
| via_first (w : Z) : edge adj src h w -> walk_via adj src h h w
| via_step (u v w l : Z) :
    walk_via adj src h u l -> edge adj u v w -> walk_via adj src h v (l + w).

(** Every edge out of [u], at distance [du], has been followed. *)
Definition relaxed (adj : dict (dict Z)) (dist : dict Z) (u du : Z) : Prop :=
  forall v w, edge adj u v w -> exists dv, dict_get v dist = Some dv /\ dv <= du + w.

(** What the loop keeps of [dist] and [first_hop]. *)
Definition tables_inv (adj : dict (dict Z)) (src : Z) (dist first_hop : dict Z) : Prop :=
  dict_get src dist = Some 0
  /\ (forall v x, dict_get v dist = Some x -> 0 <= x /\ walk adj src v x)
  /\ (forall v h, dict_get v first_hop = Some h ->
                  exists x, dict_get v dist = Some x /\ walk_via adj src h v x)
  /\ (forall v, v <> src -> dict_mem v dist = true -> dict_mem v first_hop = true)
  /\ dict_get src first_hop = None.

(** Between two turns of [while pq]: a node with a distance is in the
    queue at that distance, or all its edges have been followed. *)
Definition search_inv (adj : dict (dict Z)) (src : Z) (s : search_state) : Prop :=
  tables_inv adj src (fst (fst s)) (snd (fst s))
  /\ forall u du, dict_get u (fst (fst s)) = Some du ->
                  In (du, u) (snd s) \/ relaxed adj (fst (fst s)) u du.

(** Inside the loop over the edges of [u], popped at distance [d]:
    the edges [done] have been followed. *)
Definition relax_inv (adj : dict (dict Z)) (src u d : Z) (done : dict Z)
    (s : search_state) : Prop :=
  tables_inv adj src (fst (fst s)) (snd (fst s))
  /\ dict_get u (fst (fst s)) = Some d
  /\ (forall u' du, u' <> u -> dict_get u' (fst (fst s)) = Some du ->
                    In (du, u') (snd s) \/ relaxed adj (fst (fst s)) u' du)
  /\ (forall v w, In (v, w) done ->
                  exists dv, dict_get v (fst (fst s)) = Some dv /\ dv <= d + w).

(** The neighbour entries of a database, origin first, in the order
    [_build_merged_adjacency] goes through them. *)
Definition reports (db : dict lsa) : list (Z * Z * Z) :=
  flat_map (fun orec => map (fun vw => (fst orec, fst vw, snd vw))
                            (lsa_neighbors (snd orec))) db.

Definition add_report (adj : dict (dict Z)) (r : Z * Z * Z) : dict (dict Z) :=
  let '(u, v, w) := r in
  if 0 <=? w then add_edge u v w adj else adj.

(** What the loop over the database keeps of [adj], the entries
    [seen] behind it. *)
Definition adj_inv (seen : list (Z * Z * Z)) (adj : dict (dict Z)) : Prop :=
  (forall u es, dict_get u adj = Some es -> NoDup (dict_keys es))
  /\ (forall a b, adj_get adj a b = adj_get adj b a)
  /\ (forall u, dict_mem u adj = true -> exists v w, adj_get adj u v = Some w)
  /\ (forall a b w, adj_get adj a b = Some w ->
                    0 <= w /\ (In (a, b, w) seen \/ In (b, a, w) seen))
  /\ (forall a b w, In (a, b, w) seen -> 0 <= w -> exists w', adj_get adj a b = Some w').

End LS_Graph.

Module LS_States.
Import Link_State_Node.

(** The states a link-state node can be in: built by [__init__], then
    changed by the two entry points, whatever they are called with,
    each call running to its end. *)
Inductive reachable {R : Runtime} : node -> Prop :=
| ls_init (i : Z) : reachable (__init__ i)
| ls_link (st : node) (fuel : nat) (neighbor latency : value) (o : outcome node) :
    reachable st -> link_has_been_updated fuel neighbor latency st = Some o ->
    reachable (state_of o)
| ls_message (st : node) (fuel : nat) (m : string) (o : outcome node) :
    reachable st -> process_incoming_routing_message fuel m st = Some o ->
    reachable (state_of o).

(** The node's own record is its present sequence number and link
    costs, and its tables are what a recomputation gives. *)
Definition settled (st : node) : Prop :=
  dict_get (id st) (lsdb st) = Some (mk_lsa (seq st) (neighbor_lat st))
  /\ 0 <= seq st
  /\ NoDup (dict_keys (neighbor_lat st))
  /\ exists fuel, _recompute_routes fuel st = Some st.

(** The link costs a receiver keeps of an advertisement. *)
Definition kept_costs (nl : dict Z) : dict Z :=
  filter (fun kv => 0 <=? snd kv) nl.

End LS_States.

(** Link-state node 2 after four link events, linked to node 1 and to
    node 3 at cost 5. *)
Module Sample_Flood.
Import Link_State_Node.

Definition linked (n w : Z) (st : node) : node :=
  Sample.ls_after (@link_has_been_updated Sample.sample_runtime 100 (VInt n) (VInt w) st) st.

Definition ls_sender : node :=
  linked 3 5 (linked 3 (-1) (linked 3 8 (linked 1 5 (__init__ 2)))).

End Sample_Flood.

(** * Properties *)

(** ** The order of floats *)

Lemma SFcompare_sym_eq (x y : spec_float) :
  SFcompare x y = Some Eq -> SFcompare y x = Some Eq.
Proof.
  destruct x as [sx|sx| |sx mx ex], y as [sy|sy| |sy my ey]; simpl;
    try destruct sx; try destruct sy; simpl; try congruence;
    intros H; cmp_cases; subst; try congruence; try lia.
Qed.

Lemma SFcompare_trans (x y z : spec_float) (c1 c2 : comparison) :
  SFcompare x y = Some c1 -> SFcompare y z = Some c2 ->
  (c1 = Eq -> SFcompare x z = Some c2) /\
  (c2 = Eq -> SFcompare x z = Some c1) /\
  (c1 = Lt -> c2 = Lt -> SFcompare x z = Some Lt).
Proof.
  destruct x as [sx|sx| |sx mx ex], y as [sy|sy| |sy my ey], z as [sz|sz| |sz mz ez]; simpl;
    try destruct sx; try destruct sy; try destruct sz; simpl; try congruence;
    intros H1 H2; injection H1 as H1; injection H2 as H2; subst c1 c2;
    (repeat split; intros;
     cmp_cases; subst; try congruence; try lia).
Qed.

Lemma SFcompare_refl (x y : spec_float) (c : comparison) :
  SFcompare x y = Some c -> SFcompare x x = Some Eq.
Proof.
  destruct x as [sx|sx| |sx mx ex], y as [sy|sy| |sy my ey]; simpl;
    try destruct sx; try destruct sy; simpl; try congruence;
    intros _; rewrite Z.compare_refl;
    change (Pos.compare_cont Eq mx mx) with (Pos.compare mx mx);
    rewrite Pos.compare_refl; reflexivity.
Qed.

Lemma feqb_fcmp (x y : float) : (x =? y)%float = true <-> fcmp x y = Some Eq.
Proof.
  rewrite eqb_spec. unfold SFeqb, fcmp.
  destruct (SFcompare (Prim2SF x) (Prim2SF y)) as [[]|]; split; congruence.
Qed.

Lemma fltb_fcmp (x y : float) : (x <? y)%float = true <-> fcmp x y = Some Lt.
Proof.
  rewrite ltb_spec. unfold SFltb, fcmp.
  destruct (SFcompare (Prim2SF x) (Prim2SF y)) as [[]|]; split; congruence.
Qed.

Lemma fltb_not_feqb (x y : float) : (x <? y)%float = true -> (x =? y)%float = false.
Proof.
  intros H. apply fltb_fcmp in H.
  destruct (x =? y)%float eqn:E; [|reflexivity].
  apply feqb_fcmp in E. congruence.
Qed.

Lemma fltb_irrefl (x : float) : (x <? x)%float = false.
Proof.
  destruct (x <? x)%float eqn:E; [|reflexivity].
  apply fltb_fcmp in E. pose proof (SFcompare_refl _ _ _ E) as H.
  unfold fcmp in E. congruence.
Qed.

Lemma feqb_sym (x y : float) : (x =? y)%float = true -> (y =? x)%float = true.
Proof.
  rewrite !feqb_fcmp. apply SFcompare_sym_eq.
Qed.

Lemma feqb_trans (x y z : float) :
  (x =? y)%float = true -> (y =? z)%float = true -> (x =? z)%float = true.
Proof.
  rewrite !feqb_fcmp. intros H1 H2.
  destruct (SFcompare_trans _ _ _ _ _ H1 H2) as [H _]. exact (H eq_refl).
Qed.

Lemma fltb_trans (x y z : float) :
  (x <? y)%float = true -> (y <? z)%float = true -> (x <? z)%float = true.
Proof.
  rewrite !fltb_fcmp. intros H1 H2.
  destruct (SFcompare_trans _ _ _ _ _ H1 H2) as [_ [_ H]]. exact (H eq_refl eq_refl).
Qed.

Lemma feqb_fltb (x y z : float) :
  (x =? y)%float = true -> (y <? z)%float = true -> (x <? z)%float = true.
Proof.
  rewrite feqb_fcmp, !fltb_fcmp. intros H1 H2.
  destruct (SFcompare_trans _ _ _ _ _ H1 H2) as [H _]. exact (H eq_refl).
Qed.

Lemma fltb_feqb (x y z : float) :
  (x <? y)%float = true -> (y =? z)%float = true -> (x <? z)%float = true.
Proof.
  rewrite feqb_fcmp, !fltb_fcmp. intros H1 H2.
  destruct (SFcompare_trans _ _ _ _ _ H1 H2) as [_ [H _]]. exact (H eq_refl).
Qed.

Lemma feqb_refl_l (x y : float) : (x =? y)%float = true -> (x =? x)%float = true.
Proof.
  rewrite !feqb_fcmp. apply SFcompare_refl.
Qed.

Lemma fltb_refl_l (x y : float) : (x <? y)%float = true -> (x =? x)%float = true.
Proof.
  rewrite fltb_fcmp, feqb_fcmp. apply SFcompare_refl.
Qed.

(** ** Dictionaries *)
Section Dict_Facts.
Context {V : Type}.
Implicit Types (d : dict V) (k : Z) (v : V).

Lemma dict_get_set_eq d k v : dict_get k (dict_set k v d) = Some v.
Proof.
  induction d as [|[k' v'] d IH]; simpl.
  - rewrite Z.eqb_refl. reflexivity.
  - destruct (k =? k') eqn:E; simpl; rewrite ?Z.eqb_refl, ?E; auto.
Qed.

Lemma dict_get_set_neq d k k' v : k <> k' -> dict_get k (dict_set k' v d) = dict_get k d.
Proof.
  intros Hne. induction d as [|[k0 v0] d IH]; simpl.
  - destruct (k =? k') eqn:E; [apply Z.eqb_eq in E; contradiction|reflexivity].
  - destruct (k' =? k0) eqn:E; simpl.
    + apply Z.eqb_eq in E. subst k0.
      destruct (k =? k') eqn:E'; [apply Z.eqb_eq in E'; contradiction|reflexivity].
    + destruct (k =? k0); auto.
Qed.

Lemma dict_get_set d k k' v :
  dict_get k (dict_set k' v d) = if k =? k' then Some v else dict_get k d.
Proof.
  destruct (k =? k') eqn:E.
  - apply Z.eqb_eq in E. subst. apply dict_get_set_eq.
  - apply Z.eqb_neq in E. apply dict_get_set_neq. exact E.
Qed.

Lemma dict_get_In d k v : dict_get k d = Some v -> In (k, v) d.
Proof.
  induction d as [|[k' v'] d IH]; simpl; [discriminate|].
  destruct (k =? k') eqn:E.
  - apply Z.eqb_eq in E. intros [= ->]. left. congruence.
  - auto.
Qed.

Lemma dict_get_None d k : dict_get k d = None <-> ~ In k (dict_keys d).
Proof.
  induction d as [|[k' v'] d IH]; simpl.
  - tauto.
  - destruct (k =? k') eqn:E.
    + apply Z.eqb_eq in E. split; [discriminate|]. intros H. exfalso. apply H. left. auto.
    + apply Z.eqb_neq in E. rewrite IH. split; intros H; [intros [H'|H']|]; try tauto.
      congruence.
Qed.

Lemma dict_get_Some_key d k v : dict_get k d = Some v -> In k (dict_keys d).
Proof.
  intros H. apply dict_get_In in H. apply (in_map fst) in H. exact H.
Qed.

Lemma In_dict_get d k v : NoDup (dict_keys d) -> In (k, v) d -> dict_get k d = Some v.
Proof.
  induction d as [|[k' v'] d IH]; simpl; [tauto|].
  intros Hnd [H|H].
  - injection H as -> ->. rewrite Z.eqb_refl. reflexivity.
  - inversion Hnd as [|? ? Hnot Hnd']; subst.
    destruct (k =? k') eqn:E; [|auto].
    apply Z.eqb_eq in E. subst k'. exfalso. apply Hnot.
    apply (in_map fst) in H. exact H.
Qed.

Lemma dict_keys_set d k v :
  dict_keys (dict_set k v d)
  = if dict_mem k d then dict_keys d else dict_keys d ++ [k].
Proof.
  unfold dict_mem. induction d as [|[k' v'] d IH]; simpl; [reflexivity|].
  destruct (k =? k') eqn:E; simpl.
  - apply Z.eqb_eq in E. subst. reflexivity.
  - rewrite IH. destruct (dict_get k d); reflexivity.
Qed.

Lemma dict_set_NoDup d k v : NoDup (dict_keys d) -> NoDup (dict_keys (dict_set k v d)).
Proof.
  intros H. rewrite dict_keys_set. unfold dict_mem.
  destruct (dict_get k d) eqn:E; [exact H|].
  apply dict_get_None in E.
  apply NoDup_app; [exact H|repeat constructor; simpl; tauto|].
  intros x Hx [<-|[]]. contradiction.
Qed.

Lemma dict_get_pop_eq d k : dict_get k (dict_pop k d) = None.
Proof.
  induction d as [|[k' v'] d IH]; simpl; [reflexivity|].
  destruct (k =? k') eqn:E; simpl; rewrite ?E; auto.
Qed.

Lemma dict_eqb_refl (veq : V -> V -> bool) d :
  NoDup (dict_keys d) ->
  (forall k v, In (k, v) d -> veq v v = true) ->
  dict_eqb veq d d = true.
Proof.
  intros Hnd Hv. unfold dict_eqb. rewrite Nat.eqb_refl. simpl.
  apply forallb_forall. intros [k v] Hin. simpl.
  rewrite (In_dict_get _ _ _ Hnd Hin). eauto.
Qed.

End Dict_Facts.

(** ** Sets *)

Lemma set_add_In (k x : Z) (s : list Z) : In x (set_add k s) <-> In x s \/ x = k.
Proof.
  unfold set_add. destruct (existsb (Z.eqb k) s) eqn:E.
  - split; [tauto|]. intros [H | ->]; [exact H|].
    apply existsb_exists in E. destruct E as [y [Hy E]].
    apply Z.eqb_eq in E. subst. exact Hy.
  - rewrite in_app_iff. simpl. intuition congruence.
Qed.

Lemma set_add_NoDup (k : Z) (s : list Z) : NoDup s -> NoDup (set_add k s).
Proof.
  intros H. unfold set_add. destruct (existsb (Z.eqb k) s) eqn:E; [exact H|].
  apply NoDup_app; [exact H|repeat constructor; simpl; tauto|].
  intros x Hx [<-|[]].
  assert (existsb (Z.eqb k) s = true) as E'
    by (apply existsb_exists; exists k; split; [exact Hx|apply Z.eqb_refl]).
  congruence.
Qed.

Lemma set_update_In (ks s : list Z) (x : Z) :
  In x (set_update s ks) <-> In x s \/ In x ks.
Proof.
  unfold set_update. revert s. induction ks as [|k ks IH]; intros s; simpl.
  - tauto.
  - rewrite IH, set_add_In. intuition congruence.
Qed.

Lemma set_update_NoDup (ks s : list Z) : NoDup s -> NoDup (set_update s ks).
Proof.
  unfold set_update. revert s. induction ks as [|k ks IH]; intros s H; simpl.
  - exact H.
  - apply IH, set_add_NoDup, H.
Qed.

(** ** The path-vector node *)
Module DV_Facts.
Import Distance_Vector_Node DV_Notions.

Lemma challenge_spec (self d : Z) (nr : dict (dict advert)) (best : route) (nw : Z * float) :
  challenge self d nr best nw
  = match challenger self d nr nw with
    | Some c => if key_lt (route_key c) (route_key best) then c else best
    | None => best
    end.
Proof.
  unfold challenge, challenger. destruct nw as [n w]. simpl.
  destruct (dict_get n nr) as [[|a adv]|]; try reflexivity.
  destruct (dict_get d (a :: adv)) as [e|]; try reflexivity.
  destruct (existsb (Z.eqb self) (adv_path e)); try reflexivity.
  unfold route_key. simpl. rewrite Nat.add_1_r. reflexivity.
Qed.

(** *** The order on keys *)

#[local] Arguments key_lt : simpl never.
#[local] Arguments route_key : simpl never.

Lemma key_lt_spec (c1 c2 : float) (l1 l2 : nat) (n1 n2 : Z) :
  key_lt (c1, l1, n1) (c2, l2, n2) = true <->
  (c1 <? c2)%float = true
  \/ ((c1 =? c2)%float = true /\ (l1 < l2)%nat)
  \/ ((c1 =? c2)%float = true /\ l1 = l2 /\ n1 < n2).
Proof.
  unfold key_lt. destruct (c1 =? c2)%float eqn:E; simpl.
  - assert ((c1 <? c2)%float = false) as Hlt.
    { destruct (c1 <? c2)%float eqn:E'; [|reflexivity].
      apply fltb_not_feqb in E'. congruence. }
    rewrite Hlt. destruct (l1 =? l2)%nat eqn:El; simpl.
    + apply Nat.eqb_eq in El. subst. rewrite Z.ltb_lt.
      split; [intros H; right; right; auto|].
      intros [H|[[_ H]|[_ [_ H]]]]; [discriminate|lia|exact H].
    + apply Nat.eqb_neq in El. rewrite Nat.ltb_lt.
      split; [intros H; right; left; auto|].
      intros [H|[[_ H]|[_ [H _]]]]; [discriminate|exact H|contradiction].
  - split; [intros H; left; exact H|].
    intros [H|[[H _]|[H _]]]; [exact H|discriminate|discriminate].
Qed.

Lemma key_lt_irrefl (a : float * nat * Z) : key_lt a a = false.
Proof.
  destruct a as [[c l] n]. destruct (key_lt (c, l, n) (c, l, n)) eqn:E; [|reflexivity].
  apply key_lt_spec in E. destruct E as [H|[[_ H]|[_ [_ H]]]]; try lia.
  rewrite fltb_irrefl in H. discriminate.
Qed.

Lemma key_lt_trans (a b c : float * nat * Z) :
  key_lt a b = true -> key_lt b c = true -> key_lt a c = true.
Proof.
  destruct a as [[c1 l1] n1], b as [[c2 l2] n2], c as [[c3 l3] n3].
  rewrite !key_lt_spec.
  intros [H1|[[H1 L1]|[H1 [L1 N1]]]] [H2|[[H2 L2]|[H2 [L2 N2]]]];
    try (left; eauto using fltb_trans, fltb_feqb, feqb_fltb; fail);
    pose proof (feqb_trans _ _ _ H1 H2) as H3.
  - right; left; split; [exact H3|lia].
  - right; left; split; [exact H3|lia].
  - right; left; split; [exact H3|lia].
  - right; right; repeat split; [exact H3|lia|lia].
Qed.

(** A route that beats another has a cost that is [<] or [==] the
    other's, so it is not NaN. *)
Lemma key_lt_cost (a b : route) :
  key_lt (route_key a) (route_key b) = true ->
  (cost a <? cost b)%float = true \/ (cost a =? cost b)%float = true.
Proof.
  unfold route_key. rewrite key_lt_spec. tauto.
Qed.

(** *** The loop over the neighbours *)

Lemma best_route_choice (self d : Z) (nr : dict (dict advert)) (nl : dict float) (start : route) :
  best_route self d nl nr start = start
  \/ exists nw, In nw nl /\ challenger self d nr nw = Some (best_route self d nl nr start).
Proof.
  unfold best_route. revert start. induction nl as [|nw nl IH]; intros start; simpl.
  - left. reflexivity.
  - destruct (IH (challenge self d nr start nw)) as [H|[nw' [Hin H]]].
    + rewrite H. rewrite challenge_spec.
      destruct (challenger self d nr nw) as [c|] eqn:E; [|left; reflexivity].
      destruct (key_lt (route_key c) (route_key start)); [|left; reflexivity].
      right. exists nw. split; [left; reflexivity|exact E].
    + right. exists nw'. split; [right; exact Hin|exact H].
Qed.

Lemma best_route_le_start (self d : Z) (nr : dict (dict advert)) (nl : dict float) (start : route) :
  best_route self d nl nr start = start
  \/ key_lt (route_key (best_route self d nl nr start)) (route_key start) = true.
Proof.
  unfold best_route. revert start. induction nl as [|nw nl IH]; intros start; simpl.
  - left. reflexivity.
  - rewrite challenge_spec.
    destruct (challenger self d nr nw) as [c|] eqn:E; [|apply IH].
    destruct (key_lt (route_key c) (route_key start)) eqn:K; [|apply IH].
    destruct (IH c) as [H|H].
    + rewrite H. right. exact K.
    + right. exact (key_lt_trans _ _ _ H K).
Qed.

Lemma best_route_optimal (self d : Z) (nr : dict (dict advert)) (nl : dict float)
    (start : route) (nw : Z * float) (c : route) :
  In nw nl -> challenger self d nr nw = Some c ->
  key_lt (route_key c) (route_key (best_route self d nl nr start)) = false.
Proof.
  unfold best_route. revert start. induction nl as [|nw' nl IH]; intros start Hin Hc; simpl.
  - contradiction.
  - destruct Hin as [->|Hin]; [|apply IH; assumption].
    rewrite challenge_spec, Hc.
    destruct (key_lt (route_key c)
                (route_key (fold_left (challenge self d nr) nl
                   (if key_lt (route_key c) (route_key start) then c else start)))) eqn:K;
      [|reflexivity].
    exfalso.
    destruct (key_lt (route_key c) (route_key start)) eqn:K0.
    + destruct (best_route_le_start self d nr nl c) as [H|H]; unfold best_route in H.
      * rewrite H in K. rewrite key_lt_irrefl in K. discriminate.
      * pose proof (key_lt_trans _ _ _ K H) as K'. rewrite key_lt_irrefl in K'. discriminate.
    + destruct (best_route_le_start self d nr nl start) as [H|H]; unfold best_route in H.
      * rewrite H in K. congruence.
      * pose proof (key_lt_trans _ _ _ K H) as K'. congruence.
Qed.

(** *** The table *)

Lemma direct_routes_snoc (self : Z) (nl : dict float) (nw : Z * float) :
  direct_routes self (nl ++ [nw])
  = dict_set (fst nw) (mk_route (snd nw) (fst nw) [self; fst nw]) (direct_routes self nl).
Proof.
  unfold direct_routes. rewrite fold_left_app. reflexivity.
Qed.

Lemma direct_routes_get (self : Z) (nl : dict float) (d : Z) (r : route) :
  d <> self -> dict_get d (direct_routes self nl) = Some r ->
  exists w, In (d, w) nl /\ r = mk_route w d [self; d].
Proof.
  intros Hd. induction nl as [|[n w] nl IH] using rev_ind.
  - unfold direct_routes. simpl.
    destruct (d =? self) eqn:E; [apply Z.eqb_eq in E; contradiction|discriminate].
  - rewrite direct_routes_snoc, dict_get_set. simpl.
    destruct (d =? n) eqn:E.
    + apply Z.eqb_eq in E. subst n. intros [= <-]. exists w.
      split; [apply in_or_app; right; left; reflexivity|reflexivity].
    + intros H. destruct (IH H) as [w' [Hin Hr]]. exists w'.
      split; [apply in_or_app; left; exact Hin|exact Hr].
Qed.

Lemma direct_routes_keys (self : Z) (nl : dict float) :
  NoDup (dict_keys (direct_routes self nl)).
Proof.
  induction nl as [|nw nl IH] using rev_ind.
  - unfold direct_routes. simpl. repeat constructor. simpl. tauto.
  - rewrite direct_routes_snoc. apply dict_set_NoDup, IH.
Qed.

Lemma candidates_fold_In (nr : dict (dict advert)) (c0 : list Z) (x : Z) :
  In x (fold_left (fun c nadv => set_update c (dict_keys (snd nadv))) nr c0)
  <-> In x c0 \/ exists nadv, In nadv nr /\ In x (dict_keys (snd nadv)).
Proof.
  revert c0. induction nr as [|na nr IH]; intros c0; simpl.
  - split; [tauto|]. intros [H|[? [[] _]]]. exact H.
  - rewrite IH, set_update_In. split.
    + intros [[H|H]|[na' [H1 H2]]]; eauto.
    + intros [H|[na' [[<-|H1] H2]]]; eauto.
Qed.

Lemma candidates_NoDup (t : dict route) (nr : dict (dict advert)) : NoDup (candidates t nr).
Proof.
  unfold candidates.
  assert (forall c0, NoDup c0 ->
            NoDup (fold_left (fun c nadv => set_update c (dict_keys (snd nadv))) nr c0)) as H.
  { induction nr as [|na nr IH]; intros c0 H0; simpl; [exact H0|].
    apply IH, set_update_NoDup, H0. }
  apply H, set_update_NoDup. constructor.
Qed.

Lemma candidates_table (t : dict route) (nr : dict (dict advert)) (d : Z) :
  In d (dict_keys t) -> In d (candidates t nr).
Proof.
  intros H. unfold candidates. apply candidates_fold_In. left.
  apply set_update_In. right. exact H.
Qed.

Lemma candidates_advert (t : dict route) (nr : dict (dict advert)) (n d : Z)
    (adv : dict advert) (e : advert) :
  dict_get n nr = Some adv -> dict_get d adv = Some e -> In d (candidates t nr).
Proof.
  intros Hn Hd. unfold candidates. apply candidates_fold_In. right.
  exists (n, adv). split; [apply dict_get_In, Hn|].
  simpl. eapply dict_get_Some_key, Hd.
Qed.

Lemma select_other (self : Z) (nl : dict float) (nr : dict (dict advert))
    (t : dict route) (d d' : Z) :
  d <> d' -> dict_get d (select self nl nr t d') = dict_get d t.
Proof.
  intros Hne. unfold select. destruct (d' =? self); [reflexivity|].
  match goal with |- context [if ?b then _ else _] => destruct b end; [|reflexivity].
  apply dict_get_set_neq. exact Hne.
Qed.

Lemma select_same (self : Z) (nl : dict float) (nr : dict (dict advert))
    (t : dict route) (d : Z) :
  d <> self ->
  dict_get d (select self nl nr t d) = selected self d nl nr (dict_get d t).
Proof.
  intros Hne. unfold select, selected, best_route.
  destruct (d =? self) eqn:E; [apply Z.eqb_eq in E; contradiction|].
  match goal with |- context [if ?b then _ else _] => destruct b end; [|reflexivity].
  apply dict_get_set_eq.
Qed.

Lemma select_fold_other (self : Z) (nl : dict float) (nr : dict (dict advert))
    (cs : list Z) (t : dict route) (d : Z) :
  ~ In d cs -> dict_get d (fold_left (select self nl nr) cs t) = dict_get d t.
Proof.
  revert t. induction cs as [|c cs IH]; intros t Hnot; simpl; [reflexivity|].
  rewrite IH by (simpl in Hnot; tauto).
  apply select_other. simpl in Hnot. intros ->. tauto.
Qed.

Lemma select_fold_same (self : Z) (nl : dict float) (nr : dict (dict advert))
    (cs : list Z) (t : dict route) (d : Z) :
  d <> self -> NoDup cs -> In d cs ->
  dict_get d (fold_left (select self nl nr) cs t) = selected self d nl nr (dict_get d t).
Proof.
  intros Hne. revert t. induction cs as [|c cs IH]; intros t Hnd Hin; simpl; [contradiction|].
  inversion Hnd as [|? ? Hnot Hnd']; subst.
  destruct (Z.eq_dec c d) as [->|Hcd].
  - rewrite select_fold_other by exact Hnot. apply select_same, Hne.
  - destruct Hin as [Hin|Hin]; [contradiction|].
    rewrite IH by assumption. f_equal. apply select_other. congruence.
Qed.

Lemma best_route_none (self d : Z) (nr : dict (dict advert)) (nl : dict float) (start : route) :
  (forall nw, In nw nl -> challenger self d nr nw = None) ->
  best_route self d nl nr start = start.
Proof.
  intros H. destruct (best_route_choice self d nr nl start) as [E|[nw [Hin E]]]; [exact E|].
  rewrite (H nw Hin) in E. discriminate.
Qed.

Lemma no_route_infinite : (cost no_route <? INF)%float = false.
Proof. reflexivity. Qed.

(** The entry of the new table for a destination other than the node
    itself: the best route if its cost is below infinity, else what the
    direct links gave. *)
Lemma new_table_spec (self : Z) (nl : dict float) (nr : dict (dict advert)) (d : Z) :
  d <> self ->
  dict_get d (new_table self nl nr)
  = selected self d nl nr (dict_get d (direct_routes self nl)).
Proof.
  intros Hne. unfold new_table.
  destruct (in_dec Z.eq_dec d (candidates (direct_routes self nl) nr)) as [Hin|Hnot].
  - apply select_fold_same; [exact Hne|apply candidates_NoDup|exact Hin].
  - rewrite select_fold_other by exact Hnot.
    destruct (dict_get d (direct_routes self nl)) as [r|] eqn:E.
    + exfalso. apply Hnot, candidates_table. eapply dict_get_Some_key, E.
    + unfold selected. simpl. rewrite best_route_none; [reflexivity|].
      intros nw _. unfold challenger.
      destruct (dict_get (fst nw) nr) as [adv|] eqn:E1; [|reflexivity].
      destruct (dict_get d adv) as [e|] eqn:E2; [|reflexivity].
      exfalso. apply Hnot. eapply candidates_advert; eassumption.
Qed.

Lemma existsb_eqb_false (x : Z) (l : list Z) :
  existsb (Z.eqb x) l = false <-> ~ In x l.
Proof.
  split.
  - intros H Hin.
    assert (existsb (Z.eqb x) l = true) as H'
      by (apply existsb_exists; exists x; split; [exact Hin|apply Z.eqb_refl]).
    congruence.
  - intros H. destruct (existsb (Z.eqb x) l) eqn:E; [|reflexivity].
    apply existsb_exists in E. destruct E as [y [Hy E]].
    apply Z.eqb_eq in E. subst y. contradiction.
Qed.

Lemma challenger_inv (self d : Z) (nr : dict (dict advert)) (nw : Z * float) (c : route) :
  challenger self d nr nw = Some c ->
  exists adv e,
    dict_get (fst nw) nr = Some adv /\ dict_get d adv = Some e
    /\ ~ In self (adv_path e)
    /\ c = mk_route (snd nw + adv_cost e)%float (fst nw) (self :: adv_path e).
Proof.
  unfold challenger.
  destruct (dict_get (fst nw) nr) as [adv|] eqn:E1; [|discriminate].
  destruct (dict_get d adv) as [e|] eqn:E2; [|discriminate].
  destruct (existsb (Z.eqb self) (adv_path e)) eqn:E; [discriminate|].
  intros [= <-]. exists adv, e.
  split; [reflexivity|]. split; [exact E2|]. split; [|reflexivity].
  apply existsb_eqb_false, E.
Qed.

Lemma selected_cases (self d : Z) (nl : dict float) (nr : dict (dict advert))
    (before : option route) (r : route) :
  selected self d nl nr before = Some r ->
  before = Some r
  \/ (exists nw, In nw nl /\ challenger self d nr nw = Some r)
     /\ (cost r <? INF)%float = true.
Proof.
  unfold selected.
  destruct (cost (best_route self d nl nr (default before no_route)) <? INF)%float eqn:E;
    [|intros H; left; exact H].
  intros [= <-].
  destruct (best_route_choice self d nr nl (default before no_route)) as [H|H].
  - rewrite H in *. destruct before as [r0|]; [left; reflexivity|].
    change (default None no_route) with no_route in E.
    rewrite no_route_infinite in E. discriminate.
  - right. split; [exact H|exact E].
Qed.

Lemma new_table_loop_free (self : Z) (nl : dict float) (nr : dict (dict advert)) :
  loop_free self (new_table self nl nr).
Proof.
  intros d r Hd Hget. rewrite new_table_spec in Hget by exact Hd.
  apply selected_cases in Hget. destruct Hget as [H|[[nw [_ H]] _]].
  - destruct (direct_routes_get _ _ _ _ Hd H) as [w [_ ->]]. simpl.
    exists [d]. split; [reflexivity|]. simpl. intros [H'|[]]. congruence.
  - destruct (challenger_inv _ _ _ _ _ H) as [adv [e [_ [_ [Hnot ->]]]]]. simpl.
    exists (adv_path e). split; [reflexivity|exact Hnot].
Qed.

Lemma new_table_not_via (self : Z) (nl : dict float) (nr : dict (dict advert))
    (n d : Z) (adv : dict advert) (e : advert) (r : route) :
  d <> self -> d <> n ->
  dict_get n nr = Some adv -> dict_get d adv = Some e -> In self (adv_path e) ->
  dict_get d (new_table self nl nr) = Some r -> next r <> n.
Proof.
  intros Hd Hn Hadv He Hin Hget. rewrite new_table_spec in Hget by exact Hd.
  apply selected_cases in Hget. destruct Hget as [H|[[nw [_ H]] _]].
  - destruct (direct_routes_get _ _ _ _ Hd H) as [w [_ ->]]. simpl. exact Hn.
  - destruct (challenger_inv _ _ _ _ _ H) as [adv' [e' [H1 [H2 [Hnot ->]]]]]. simpl.
    intros Heq. rewrite Heq in H1. congruence.
Qed.

Section Reachable.
Context {R : Runtime}.

Lemma recompute_state (st : node) :
  state_of (recompute_and_broadcast st)
  = set_routes st (new_table (id st) (neighbor_lat st) (neighbor_routes st)).
Proof. reflexivity. Qed.

Lemma link_recomputed (neighbor latency : value) (st : node) :
  recomputed st (state_of (link_has_been_updated neighbor latency st)).
Proof.
  unfold link_has_been_updated.
  destruct (py_int neighbor) as [n|e]; [|left; reflexivity].
  destruct (py_float latency) as [l|e]; [|left; reflexivity].
  right. eexists. split; [|apply recompute_state].
  destruct (l =? -1)%float; reflexivity.
Qed.

Lemma message_recomputed (m : string) (current_time : Z) (st : node) :
  recomputed st (state_of (process_incoming_routing_message m current_time st)).
Proof.
  unfold process_incoming_routing_message.
  destruct (json_loads m) as [[| | | | | |msg]|]; try (left; reflexivity).
  destruct (negb (eq_str (items_get "type" msg) "DV_PATH")); [left; reflexivity|].
  destruct (o <- getitem (VDict msg) "origin" ;; py_int o) as [origin|e];
    [|left; reflexivity].
  destruct (negb (dict_mem origin (neighbor_lat st))); [left; reflexivity|].
  destruct (default (items_get "routes" msg) (VDict [])) as [| | | | | |raw];
    try (left; reflexivity).
  destruct (parse_routes origin raw []) as [parsed|e]; [|left; reflexivity].
  right. eexists. split; [|apply recompute_state]. reflexivity.
Qed.

Lemma reachable_loop_free (st : node) :
  reachable st -> loop_free (id st) (routes st).
Proof.
  assert (forall st st', loop_free (id st) (routes st) -> recomputed st st' ->
                         loop_free (id st') (routes st')) as Hstep.
  { intros s s' Hs [->|[s1 [Hid ->]]]; [exact Hs|]. simpl. apply new_table_loop_free. }
  induction 1 as [i|st nb lat _ IH|st m t _ IH].
  - intros d r Hd. simpl.
    destruct (d =? i) eqn:E; [apply Z.eqb_eq in E; contradiction|discriminate].
  - eapply Hstep; [exact IH|apply link_recomputed].
  - eapply Hstep; [exact IH|apply message_recomputed].
Qed.

End Reachable.

(** C1.  In every state a path-vector node can reach, the path of each
    selected route to another node starts with the node itself and does
    not hold it a second time; and when a neighbour advertises a
    destination over a path that holds the node, the recomputed route to
    that destination is not the one built from that entry, nor any other
    route through that neighbour. *)
Theorem C1_loop_freedom {R : Runtime} (st : node) :
  reachable st ->
  (forall d r, d <> id st -> dict_get d (routes st) = Some r ->
               exists p, path r = id st :: p /\ ~ In (id st) p)
  /\ (forall n d adv e r,
        d <> id st ->
        dict_get n (neighbor_routes st) = Some adv ->
        dict_get d adv = Some e ->
        In (id st) (adv_path e) ->
        dict_get d (routes (fst (_recompute_routes st))) = Some r ->
        path r <> id st :: adv_path e /\ (d <> n -> next r <> n)).
Proof.
  intros Hreach. split.
  - exact (reachable_loop_free st Hreach).
  - intros n d adv e r Hd Hadv He Hin Hget.
    change (dict_get d (new_table (id st) (neighbor_lat st) (neighbor_routes st)) = Some r)
      in Hget.
    split.
    + destruct (new_table_loop_free _ _ _ d r Hd Hget) as [p [Hp Hnot]].
      rewrite Hp. intros [= ->]. contradiction.
    + intros Hn.
      exact (new_table_not_via _ _ _ n d adv e r Hd Hn Hadv He Hin Hget).
Qed.

Lemma C1_loop_freedom_witness :
  @reachable Sample.sample_runtime Sample.dv_after_loop_advert
  /\ dict_get 4 (routes Sample.dv_after_loop_advert) = Some (mk_route 12 2 [1; 2; 4])
  /\ dict_get 3 (routes Sample.dv_after_loop_advert) = None
  /\ exists p, [1; 2; 4] = 1 :: p /\ ~ In 1 p.
Proof.
  assert (@reachable Sample.sample_runtime Sample.dv_after_loop_advert) as H.
  { exact (@reach_message Sample.sample_runtime Sample.dv_linked
             (Sample.sample_dumps Sample.advert_loop) 10
             (@reach_link Sample.sample_runtime (__init__ 1) (VInt 2) (VInt 5)
                (@reach_init Sample.sample_runtime 1))). }
  split; [exact H|]. split; [vm_compute; reflexivity|]. split; [vm_compute; reflexivity|].
  apply (proj1 (C1_loop_freedom Sample.dv_after_loop_advert H) 4 (mk_route 12 2 [1; 2; 4])).
  - vm_compute. discriminate.
  - vm_compute. reflexivity.
Defined.

(** *** Selection and commit *)

Lemma direct_routes_none (self : Z) (nl : dict float) (d : Z) :
  d <> self -> dict_get d nl = None -> dict_get d (direct_routes self nl) = None.
Proof.
  intros Hd Hnone. destruct (dict_get d (direct_routes self nl)) as [r|] eqn:E; [|reflexivity].
  destruct (direct_routes_get _ _ _ _ Hd E) as [w [Hin _]].
  apply dict_get_None in Hnone. exfalso. apply Hnone.
  apply (in_map fst) in Hin. exact Hin.
Qed.

(** C7.  Selection compares keys [(cost, len(path), next)] in
    lexicographic order with strict less-than: a lower cost wins, equal
    costs are decided by the shorter path, then by the smaller next hop.
    A neighbour's candidate replaces the best route exactly when its key
    is less, so the route a destination ends with is beaten by no
    candidate.  The table takes that route only when its cost is below
    infinity: a destination without a direct link is in the table with
    such a cost or not at all, and so is every destination when each
    link cost is below infinity. *)
Theorem C7_selection_order_and_commit (self : Z) (nl : dict float)
    (nr : dict (dict advert)) :
  (forall c1 l1 n1 c2 l2 n2,
      key_lt (c1, l1, n1) (c2, l2, n2) = true <->
      (c1 <? c2)%float = true
      \/ ((c1 =? c2)%float = true /\ (l1 < l2)%nat)
      \/ ((c1 =? c2)%float = true /\ l1 = l2 /\ n1 < n2))
  /\ (forall d best nw,
        challenge self d nr best nw
        = match challenger self d nr nw with
          | Some c => if key_lt (route_key c) (route_key best) then c else best
          | None => best
          end)
  /\ (forall d start nw c,
        In nw nl -> challenger self d nr nw = Some c ->
        key_lt (route_key c) (route_key (best_route self d nl nr start)) = false)
  /\ (forall d, d <> self ->
        dict_get d (new_table self nl nr)
        = let before := dict_get d (direct_routes self nl) in
          let best := best_route self d nl nr (default before no_route) in
          if (cost best <? INF)%float then Some best else before)
  /\ (forall d r, d <> self -> dict_get d nl = None ->
        dict_get d (new_table self nl nr) = Some r -> (cost r <? INF)%float = true)
  /\ ((forall n w, In (n, w) nl -> (w <? INF)%float = true) ->
      forall d r, d <> self ->
        dict_get d (new_table self nl nr) = Some r -> (cost r <? INF)%float = true).
Proof.
  split; [intros; apply key_lt_spec|].
  split; [intros; apply challenge_spec|].
  split; [intros d start nw c; apply best_route_optimal|].
  split; [intros d Hd; apply new_table_spec, Hd|].
  split.
  - intros d r Hd Hnone Hget. rewrite new_table_spec in Hget by exact Hd.
    rewrite (direct_routes_none _ _ _ Hd Hnone) in Hget.
    apply selected_cases in Hget. destruct Hget as [H|[_ H]]; [discriminate|exact H].
  - intros Hfin d r Hd Hget. rewrite new_table_spec in Hget by exact Hd.
    apply selected_cases in Hget. destruct Hget as [H|[_ H]]; [|exact H].
    destruct (direct_routes_get _ _ _ _ Hd H) as [w [Hin ->]]. simpl. eauto.
Qed.

Lemma C7_selection_order_and_commit_witness :
  dict_get 4 (new_table 1 Sample.tie_links Sample.tie_adverts)
  = Some (mk_route 6 2 [1; 2; 4])
  /\ key_lt (6%float, 3%nat, 2) (6%float, 3%nat, 3) = true
  /\ key_lt (6%float, 4%nat, 5) (6%float, 3%nat, 2) = false
  /\ dict_get 7 (new_table 1 Sample.tie_links Sample.tie_adverts) = None
  /\ (6 <? INF)%float = true.
Proof.
  pose proof (C7_selection_order_and_commit 1 Sample.tie_links Sample.tie_adverts)
    as [_ [_ [_ [Hspec [Hfin _]]]]].
  split; [rewrite Hspec by discriminate; vm_compute; reflexivity|].
  split; [vm_compute; reflexivity|]. split; [vm_compute; reflexivity|].
  split; [vm_compute; reflexivity|].
  apply (Hfin 4 (mk_route 6 2 [1; 2; 4])); [discriminate|reflexivity|].
  vm_compute. reflexivity.
Defined.

(** *** Recomputing twice *)

Lemma select_keys_NoDup (self : Z) (nl : dict float) (nr : dict (dict advert))
    (cs : list Z) (t : dict route) :
  NoDup (dict_keys t) -> NoDup (dict_keys (fold_left (select self nl nr) cs t)).
Proof.
  revert t. induction cs as [|c cs IH]; intros t H; simpl; [exact H|].
  apply IH. unfold select. destruct (c =? self); [exact H|].
  match goal with |- context [if ?b then _ else _] => destruct b end; [|exact H].
  apply dict_set_NoDup, H.
Qed.

Lemma new_table_keys (self : Z) (nl : dict float) (nr : dict (dict advert)) :
  NoDup (dict_keys (new_table self nl nr)).
Proof.
  unfold new_table. apply select_keys_NoDup, direct_routes_keys.
Qed.

Lemma direct_routes_cost (self : Z) (nl : dict float) (d : Z) (r : route) :
  dict_get d (direct_routes self nl) = Some r ->
  cost r = 0%float \/ exists n, In (n, cost r) nl.
Proof.
  induction nl as [|[n w] nl IH] using rev_ind.
  - unfold direct_routes. simpl. destruct (d =? self); [|discriminate].
    intros [= <-]. left. reflexivity.
  - rewrite direct_routes_snoc, dict_get_set. simpl.
    destruct (d =? n).
    + intros [= <-]. right. exists n. simpl. apply in_or_app. right. left. reflexivity.
    + intros H. destruct (IH H) as [H0|[n' Hin]]; [left; exact H0|].
      right. exists n'. apply in_or_app. left. exact Hin.
Qed.

Lemma select_fold_self (self : Z) (nl : dict float) (nr : dict (dict advert))
    (cs : list Z) (t : dict route) :
  dict_get self (fold_left (select self nl nr) cs t) = dict_get self t.
Proof.
  revert t. induction cs as [|c cs IH]; intros t; simpl; [reflexivity|].
  rewrite IH. destruct (Z.eq_dec self c) as [<-|Hne].
  - unfold select. rewrite Z.eqb_refl. reflexivity.
  - apply select_other. exact Hne.
Qed.

(** With no NaN among the link costs there is none in the table. *)
Lemma new_table_costs (self : Z) (nl : dict float) (nr : dict (dict advert)) (d : Z) (r : route) :
  (forall n w, In (n, w) nl -> (w =? w)%float = true) ->
  dict_get d (new_table self nl nr) = Some r -> (cost r =? cost r)%float = true.
Proof.
  intros Hnl Hget. destruct (Z.eq_dec d self) as [->|Hd].
  - unfold new_table in Hget. rewrite select_fold_self in Hget.
    destruct (direct_routes_cost _ _ _ _ Hget) as [->|[n Hin]]; [reflexivity|eauto].
  - rewrite new_table_spec in Hget by exact Hd.
    apply selected_cases in Hget. destruct Hget as [H|[_ H]].
    + destruct (direct_routes_cost _ _ _ _ H) as [->|[n Hin]]; [reflexivity|eauto].
    + eapply fltb_refl_l, H.
Qed.

Lemma table_eqb_refl (self : Z) (nl : dict float) (nr : dict (dict advert)) :
  (forall n w, In (n, w) nl -> (w =? w)%float = true) ->
  table_eqb (new_table self nl nr) (new_table self nl nr) = true.
Proof.
  intros Hnl. apply dict_eqb_refl; [apply new_table_keys|].
  intros k r Hin. apply In_dict_get in Hin; [|apply new_table_keys].
  unfold route_eqb. rewrite (new_table_costs _ _ _ _ _ Hnl Hin), Z.eqb_refl. simpl.
  destruct (list_eq_dec Z.eq_dec (path r) (path r)); [reflexivity|contradiction].
Qed.

(** Run from the state a first run left, [_recompute_routes] builds
    the same table and reports no change, so nothing is broadcast. *)
Lemma recompute_twice {R : Runtime} (st : node) :
  (forall n w, In (n, w) (neighbor_lat st) -> (w =? w)%float = true) ->
  _recompute_routes (fst (_recompute_routes st)) = (fst (_recompute_routes st), false)
  /\ recompute_and_broadcast (fst (_recompute_routes st))
     = Returned (fst (_recompute_routes st)) [].
Proof.
  intros Hnl. unfold recompute_and_broadcast, _recompute_routes. simpl.
  rewrite (table_eqb_refl _ _ _ Hnl). simpl. split; reflexivity.
Qed.

(** *** Incoming advertisements *)

Lemma dict_merge_get {V : Type} (a b : dict V) (k : Z) :
  NoDup (dict_keys b) ->
  dict_get k (dict_merge a b)
  = match dict_get k b with
    | Some v => Some v
    | None => dict_get k a
    end.
Proof.
  unfold dict_merge. revert a. induction b as [|[k0 v0] b IH]; intros a Hnd; simpl.
  - reflexivity.
  - inversion Hnd as [|? ? Hnot Hnd']; subst.
    rewrite IH by exact Hnd'. rewrite dict_get_set.
    destruct (k =? k0) eqn:E; [|reflexivity].
    apply Z.eqb_eq in E. subst k0.
    apply dict_get_None in Hnot. rewrite Hnot. reflexivity.
Qed.

Section Messages.
Context {R : Runtime}.

Lemma parse_entry_keys (origin : Z) (parsed parsed' : dict advert) (item : string * value) :
  parse_entry origin parsed item = Ok parsed' ->
  NoDup (dict_keys parsed) -> NoDup (dict_keys parsed').
Proof.
  unfold parse_entry. destruct item as [k e].
  destruct (py_int (VStr k)) as [d|]; simpl; [|discriminate].
  destruct (getitem e "cost") as [cv|]; simpl; [|discriminate].
  destruct (py_float cv) as [c|]; simpl; [|discriminate].
  destruct (getitem e "path") as [p|]; simpl; [|discriminate].
  destruct p as [| | | | |xs|]; try (intros [= <-] H; exact H).
  destruct (int_list xs) as [[|h l]|]; simpl.
  - intros [= <-] H. exact H.
  - destruct (h =? origin); intros [= <-] H; [apply dict_set_NoDup|]; exact H.
  - discriminate.
Qed.

Lemma parse_routes_keys (origin : Z) (raw : list (string * value)) (acc parsed : dict advert) :
  parse_routes origin raw acc = Ok parsed ->
  NoDup (dict_keys acc) -> NoDup (dict_keys parsed).
Proof.
  revert acc. induction raw as [|item raw IH]; intros acc; simpl.
  - intros [= <-]. auto.
  - destruct (parse_entry origin acc item) as [acc'|] eqn:E; simpl; [|discriminate].
    intros H Hnd. eapply IH; [exact H|]. eapply parse_entry_keys; eassumption.
Qed.

Lemma message_accepted (m : string) (current_time : Z) (st : node)
    (origin : Z) (parsed : dict advert) :
  well_formed m origin parsed ->
  dict_mem origin (neighbor_lat st) = true ->
  process_incoming_routing_message m current_time st
  = recompute_and_broadcast (accept current_time st origin parsed).
Proof.
  intros [msg [raw [H1 [H2 [H3 [H4 H5]]]]]] Hn.
  unfold process_incoming_routing_message.
  rewrite H1, H2, H3, Hn, H4, H5. reflexivity.
Qed.

(** C3.  When a well-formed advertisement from a neighbour is
    processed at time [t], the advertisement stored for that neighbour
    becomes the old one overlaid with the new one (a key of the new one
    takes its value) if [t] is the time of the last one and the new one
    has fewer entries; it becomes the new one in every other case; and
    [t] is recorded as the time of the last one. *)
Theorem C3_same_timestamp_merge (m : string) (t : Z) (st : node)
    (origin : Z) (parsed : dict advert) :
  well_formed m origin parsed ->
  dict_mem origin (neighbor_lat st) = true ->
  let st' := state_of (process_incoming_routing_message m t st) in
  let t_last := default (dict_get origin (neighbor_last_update st)) (-1) in
  let old := default (dict_get origin (neighbor_routes st)) [] in
  raises (process_incoming_routing_message m t st) = false
  /\ dict_get origin (neighbor_last_update st') = Some t
  /\ (t = t_last /\ (List.length parsed < List.length old)%nat ->
      exists stored,
        dict_get origin (neighbor_routes st') = Some stored
        /\ stored = dict_merge old parsed
        /\ forall d, dict_get d stored
                     = match dict_get d parsed with
                       | Some e => Some e
                       | None => dict_get d old
                       end)
  /\ (~ (t = t_last /\ (List.length parsed < List.length old)%nat) ->
      dict_get origin (neighbor_routes st') = Some parsed).
Proof.
  intros Hwf Hn st' t_last old.
  assert (NoDup (dict_keys parsed)) as Hnd.
  { destruct Hwf as [msg [raw [_ [_ [_ [_ H]]]]]].
    eapply parse_routes_keys; [exact H|constructor]. }
  subst st'. rewrite (message_accepted _ _ _ _ _ Hwf Hn).
  split; [reflexivity|]. split; [apply dict_get_set_eq|].
  rewrite recompute_state. simpl. rewrite dict_get_set_eq. unfold stored_routes.
  fold t_last. fold old. split.
  - intros [Ht Hlen]. apply Z.eqb_eq in Ht. apply Nat.ltb_lt in Hlen.
    rewrite Ht, Hlen. simpl. eexists. split; [reflexivity|]. split; [reflexivity|].
    intros d. apply dict_merge_get, Hnd.
  - intros Hnot.
    destruct (t =? t_last) eqn:Ht; simpl; [|reflexivity].
    destruct (List.length parsed <? List.length old)%nat eqn:Hlen; [|reflexivity].
    exfalso. apply Hnot. split; [apply Z.eqb_eq, Ht|apply Nat.ltb_lt, Hlen].
Qed.

End Messages.

Lemma sample_short_well_formed :
  @well_formed Sample.sample_runtime (Sample.sample_dumps Sample.advert_short) 2
    [(2, mk_advert 0 [2])].
Proof.
  exists (Sample.items_of Sample.advert_short),
         (Sample.items_of (default (items_get "routes" (Sample.items_of Sample.advert_short))
                                   VNone)).
  split; [vm_compute; reflexivity|]. split; [vm_compute; reflexivity|].
  split; [vm_compute; reflexivity|]. split; vm_compute; reflexivity.
Qed.

(** The short advertisement arrives at time 10, when the longer one
    was stored: the route to 3 is kept. *)
Lemma C3_same_timestamp_merge_witness :
  dict_get 2 (neighbor_routes
                (state_of (@process_incoming_routing_message Sample.sample_runtime
                             (Sample.sample_dumps Sample.advert_short) 10
                             Sample.dv_after_line_advert)))
  = Some [(2, mk_advert 0 [2]); (3, mk_advert 5 [2; 3])]
  /\ dict_get 2 (neighbor_routes
                   (state_of (@process_incoming_routing_message Sample.sample_runtime
                                (Sample.sample_dumps Sample.advert_short) 11
                                Sample.dv_after_line_advert)))
     = Some [(2, mk_advert 0 [2])].
Proof.
  split.
  - destruct (@C3_same_timestamp_merge Sample.sample_runtime _ 10 Sample.dv_after_line_advert
                _ _ sample_short_well_formed eq_refl) as [_ [_ [H _]]].
    destruct H as [stored [H1 [H2 _]]]; [split; [reflexivity|vm_compute; lia]|].
    rewrite H1, H2. vm_compute. reflexivity.
  - destruct (@C3_same_timestamp_merge Sample.sample_runtime _ 11 Sample.dv_after_line_advert
                _ _ sample_short_well_formed eq_refl) as [_ [_ [_ H]]].
    apply H. intros [H1 _]. vm_compute in H1. discriminate.
Defined.

(** *** Malformed input *)

Section Malformed.
Context {R : Runtime}.

(** What the handler does with a text that is no well-formed
    advertisement: nothing in the node changes and nothing is sent.  It
    returns silently when the text decodes to something that is no
    object or to an object of another type; it raises when the text
    does not decode, when the origin is missing or is no integer, and,
    the origin being a neighbour, when an entry of the route object does
    not parse. *)
Lemma malformed_leaves_state (m : string) (t : Z) (st : node) :
  (forall origin parsed, ~ well_formed m origin parsed) ->
  state_of (process_incoming_routing_message m t st) = st
  /\ sent_of (process_incoming_routing_message m t st) = []
  /\ (json_loads m = None ->
      process_incoming_routing_message m t st = Raised JSONDecodeError st)
  /\ (forall v, json_loads m = Some v ->
                (forall msg, v = VDict msg ->
                             eq_str (items_get "type" msg) "DV_PATH" = false) ->
                process_incoming_routing_message m t st = Returned st [])
  /\ (forall msg e,
        json_loads m = Some (VDict msg) ->
        eq_str (items_get "type" msg) "DV_PATH" = true ->
        (o <- getitem (VDict msg) "origin" ;; py_int o) = Raise e ->
        process_incoming_routing_message m t st = Raised e st)
  /\ (forall msg origin raw e,
        json_loads m = Some (VDict msg) ->
        eq_str (items_get "type" msg) "DV_PATH" = true ->
        (o <- getitem (VDict msg) "origin" ;; py_int o) = Ok origin ->
        dict_mem origin (neighbor_lat st) = true ->
        default (items_get "routes" msg) (VDict []) = VDict raw ->
        parse_routes origin raw [] = Raise e ->
        process_incoming_routing_message m t st = Raised e st).
Proof.
  intros Hnot.
  assert (state_of (process_incoming_routing_message m t st) = st
          /\ sent_of (process_incoming_routing_message m t st) = []
          /\ (json_loads m = None ->
              process_incoming_routing_message m t st = Raised JSONDecodeError st)
          /\ (forall v, json_loads m = Some v ->
                (forall msg, v = VDict msg ->
                             eq_str (items_get "type" msg) "DV_PATH" = false) ->
                process_incoming_routing_message m t st = Returned st [])) as H.
  { unfold process_incoming_routing_message.
    destruct (json_loads m) as [v|] eqn:E1; [|dropped].
    destruct v as [| | | | | |msg]; try dropped.
    destruct (eq_str (items_get "type" msg) "DV_PATH") eqn:E2; cbn [negb]; [|dropped].
    destruct (o <- getitem (VDict msg) "origin" ;; py_int o) as [origin|e] eqn:E3;
      [|dropped].
    destruct (dict_mem origin (neighbor_lat st)); cbn [negb]; [|dropped].
    destruct (default (items_get "routes" msg) (VDict [])) as [| | | | | |raw] eqn:E4;
      try dropped.
    destruct (parse_routes origin raw []) as [parsed|e] eqn:E5; [|dropped].
    exfalso. apply (Hnot origin parsed). exists msg, raw. auto. }
  destruct H as [H1 [H2 [H3 H4]]].
  split; [exact H1|]. split; [exact H2|]. split; [exact H3|]. split; [exact H4|].
  split.
  - intros msg e E1 E2 E3. unfold process_incoming_routing_message.
    rewrite E1, E2, E3. reflexivity.
  - intros msg origin raw e E1 E2 E3 E4 E5 E6. unfold process_incoming_routing_message.
    rewrite E1, E2, E3, E4, E5, E6. reflexivity.
Qed.

Lemma parse_entry_dropped (origin : Z) (acc : dict advert) (k : string) (e : value)
    (d : Z) (cv : value) (c : float) (p : value) :
  py_int (VStr k) = Ok d -> getitem e "cost" = Ok cv -> py_float cv = Ok c ->
  getitem e "path" = Ok p -> path_dropped origin p = true ->
  parse_entry origin acc (k, e) = Ok acc.
Proof.
  intros H1 H2 H3 H4 H5. unfold parse_entry. rewrite H1. simpl. rewrite H2. simpl.
  rewrite H3. simpl. rewrite H4. simpl. unfold path_dropped in H5.
  destruct p as [| | | | |xs|]; try reflexivity.
  destruct (int_list xs) as [[|h l]|]; simpl; try reflexivity; [|discriminate].
  destruct (h =? origin); [discriminate|reflexivity].
Qed.

Lemma parse_routes_app (origin : Z) (l1 l2 : list (string * value)) (acc : dict advert) :
  parse_routes origin (l1 ++ l2) acc
  = (parsed <- parse_routes origin l1 acc ;; parse_routes origin l2 parsed).
Proof.
  revert acc. induction l1 as [|item l1 IH]; intros acc; simpl; [reflexivity|].
  destruct (parse_entry origin acc item); simpl; [apply IH|reflexivity].
Qed.

(** What the loop over the route object does with one entry.  An
    entry with an integer key and a numeric cost whose path is no list,
    or is a list of integers that is empty or does not start at the
    sender, is passed over: the entries before and after it are parsed
    as if it were not there, and the message is handled as the message
    without it.  An entry whose key is no integer, or which has no
    numeric cost, ends the parsing with its exception, and the handler
    raises it with the node as it was. *)
Lemma entry_passed_over_or_raises (origin : Z) (before after : list (string * value))
    (k : string) (e : value) :
  (forall d cv c p,
      py_int (VStr k) = Ok d -> getitem e "cost" = Ok cv -> py_float cv = Ok c ->
      getitem e "path" = Ok p -> path_dropped origin p = true ->
      (forall acc, parse_routes origin (before ++ (k, e) :: after) acc
                   = parse_routes origin (before ++ after) acc)
      /\ (forall m m' msg msg' t st,
            json_loads m = Some (VDict msg) ->
            json_loads m' = Some (VDict msg') ->
            items_get "type" msg = items_get "type" msg' ->
            items_get "origin" msg = items_get "origin" msg' ->
            (o <- getitem (VDict msg) "origin" ;; py_int o) = Ok origin ->
            items_get "routes" msg = Some (VDict (before ++ (k, e) :: after)) ->
            items_get "routes" msg' = Some (VDict (before ++ after)) ->
            process_incoming_routing_message m t st
            = process_incoming_routing_message m' t st))
  /\ (forall ex,
        (d <- py_int (VStr k) ;; c <- getitem e "cost" ;; py_float c) = Raise ex ->
        (forall acc parsed, parse_routes origin before acc = Ok parsed ->
                            parse_routes origin (before ++ (k, e) :: after) acc = Raise ex)
        /\ (forall m msg parsed t st,
              json_loads m = Some (VDict msg) ->
              eq_str (items_get "type" msg) "DV_PATH" = true ->
              (o <- getitem (VDict msg) "origin" ;; py_int o) = Ok origin ->
              dict_mem origin (neighbor_lat st) = true ->
              items_get "routes" msg = Some (VDict (before ++ (k, e) :: after)) ->
              parse_routes origin before [] = Ok parsed ->
              process_incoming_routing_message m t st = Raised ex st)).
Proof.
  split.
  - intros d cv c p H1 H2 H3 H4 H5.
    assert (forall acc, parse_routes origin (before ++ (k, e) :: after) acc
                        = parse_routes origin (before ++ after) acc) as Hparse.
    { intros acc. rewrite !parse_routes_app.
      destruct (parse_routes origin before acc) as [parsed|]; cbn [bind]; [|reflexivity].
      cbn [parse_routes].
      rewrite (parse_entry_dropped _ _ _ _ _ _ _ _ H1 H2 H3 H4 H5). reflexivity. }
    split; [exact Hparse|].
    intros m m' msg msg' t st Hm Hm' Hty Hor Horigin Hr Hr'.
    unfold process_incoming_routing_message. rewrite Hm, Hm', <- Hty.
    destruct (negb (eq_str (items_get "type" msg) "DV_PATH")); [reflexivity|].
    assert ((o <- getitem (VDict msg') "origin" ;; py_int o) = Ok origin) as Horigin'.
    { unfold getitem in *. rewrite <- Hor. exact Horigin. }
    rewrite Horigin, Horigin'.
    destruct (negb (dict_mem origin (neighbor_lat st))); [reflexivity|].
    rewrite Hr, Hr'. simpl. rewrite Hparse. reflexivity.
  - intros ex Hex.
    assert (forall acc parsed, parse_routes origin before acc = Ok parsed ->
              parse_routes origin (before ++ (k, e) :: after) acc = Raise ex) as Hparse.
    { intros acc parsed Hb. rewrite parse_routes_app, Hb. cbn [bind parse_routes].
      unfold parse_entry.
      destruct (py_int (VStr k)) as [d|]; cbn [bind] in *; [|congruence].
      destruct (getitem e "cost") as [cv|]; cbn [bind] in *; [|congruence].
      destruct (py_float cv) as [c|]; cbn [bind] in *; congruence. }
    split; [exact Hparse|].
    intros m msg parsed t st E1 E2 E3 E4 E5 E6. unfold process_incoming_routing_message.
    rewrite E1, E2, E3, E4, E5. cbn [negb default]. rewrite (Hparse _ _ E6). reflexivity.
Qed.

End Malformed.

(** C4.  A text that is no JSON, and an advertisement with no origin,
    given to node 1, which has node 2 as a neighbour: the handler
    raises, where it returns silently for a text that decodes to a
    list, and where the handler of the link-state node, which makes the
    same calls inside [try], returns silently for the first text. *)
Theorem C4_invalid_text_raises :
  @process_incoming_routing_message Sample.sample_runtime "oops" 10 Sample.dv_linked
  = Raised JSONDecodeError Sample.dv_linked
  /\ @process_incoming_routing_message Sample.sample_runtime
       (Sample.sample_dumps Sample.advert_no_origin) 10 Sample.dv_linked
     = Raised KeyError Sample.dv_linked
  /\ (forall origin parsed, ~ @well_formed Sample.sample_runtime "oops" origin parsed)
  /\ @process_incoming_routing_message Sample.sample_runtime "[]" 10 Sample.dv_linked
     = Returned Sample.dv_linked []
  /\ @Link_State_Node.process_incoming_routing_message Sample.sample_runtime 0 "oops"
       Sample.ls_linked
     = Some (Returned Sample.ls_linked []).
Proof.
  split; [vm_compute; reflexivity|]. split; [vm_compute; reflexivity|].
  split; [|split; vm_compute; reflexivity].
  intros origin parsed [msg [raw [H _]]]. vm_compute in H. discriminate.
Qed.

(** C5.  Node 2 is a neighbour of node 1 and its message has the right
    type; the entry for 3 is valid and the entry for 4 has no cost.
    The handler raises, and the entry for 3 is not stored.  An entry
    whose path starts at another node and holds [null] raises as well,
    the conversion of the path coming before the test of its first
    element.  Entries whose path is no list, is empty or starts at
    another node are passed over one by one, and the loop of the
    link-state node passes over every entry that does not convert. *)
Theorem C5_entry_without_cost_raises :
  @process_incoming_routing_message Sample.sample_runtime
    (Sample.sample_dumps Sample.advert_no_cost) 10 Sample.dv_linked
  = Raised KeyError Sample.dv_linked
  /\ dict_mem 2 (neighbor_lat Sample.dv_linked) = true
  /\ neighbor_routes Sample.dv_linked = []
  /\ @parse_routes Sample.sample_runtime 2
       [("3"%string, VDict [("cost"%string, VFloat 5);
                            ("path"%string, VList [VInt 2; VInt 3])]);
        ("5"%string, VDict [("cost"%string, VFloat 1);
                            ("path"%string, VList [VInt 9; VNone])])] []
     = Raise TypeError
  /\ @parse_routes Sample.sample_runtime 2
       [("3"%string, VDict [("cost"%string, VFloat 5);
                            ("path"%string, VList [VInt 2; VInt 3])]);
        ("4"%string, VDict [("cost"%string, VFloat 1); ("path"%string, VStr "2-4")]);
        ("5"%string, VDict [("cost"%string, VFloat 1);
                            ("path"%string, VList [VInt 9; VInt 5])])] []
     = Ok [(3, mk_advert 5 [2; 3])]
  /\ @Link_State_Node.parse_neighbors Sample.sample_runtime
       (VDict [("1"%string, VInt 5); ("x"%string, VInt 1);
               ("3"%string, VNone); ("4"%string, VInt 7)])
     = [(1, 5); (4, 7)].
Proof.
  repeat split; vm_compute; reflexivity.
Qed.

(** *** Examples *)

(** Three nodes in a line, both links of cost 5: node 1 reaches node 3
    at cost 10 over the path 1, 2, 3. *)
Example line_route_to_3 :
  dict_get 3 (routes Sample.dv_after_line_advert) = Some (mk_route 10 2 [1; 2; 3])
  /\ @get_next_hop Sample.sample_runtime (VInt 3) Sample.dv_after_line_advert = Ok 2.
Proof. split; vm_compute; reflexivity. Qed.

(** The link to node 2 is deleted: no route is left but the one to the
    node itself. *)
Example line_link_deleted :
  let st := state_of (@link_has_been_updated Sample.sample_runtime (VInt 2) (VInt (-1))
                        Sample.dv_after_line_advert) in
  routes st = [(1, self_route 1)]
  /\ @get_next_hop Sample.sample_runtime (VInt 2) st = Ok (-1)
  /\ @get_next_hop Sample.sample_runtime (VInt 1) st = Ok 1.
Proof. repeat split; vm_compute; reflexivity. Qed.

(** Of the four entries node 2 sends, the one for node 3 is stored. *)
Example bad_paths_stored :
  neighbor_routes
    (state_of (@process_incoming_routing_message Sample.sample_runtime
                 (Sample.sample_dumps Sample.advert_bad_paths) 10 Sample.dv_linked))
  = [(2, [(3, mk_advert 5 [2; 3])])].
Proof. vm_compute. reflexivity. Qed.

Example no_origin_raises :
  @process_incoming_routing_message Sample.sample_runtime
    (Sample.sample_dumps Sample.advert_no_origin) 10 Sample.dv_linked
  = Raised KeyError Sample.dv_linked.
Proof. vm_compute. reflexivity. Qed.

End DV_Facts.

(** ** The link-state node *)
Module LS_Facts.
Import Link_State_Node LS_Notions.

(** *** The search ends

    Every weight in the merged graph is a natural number, so a turn of
    the loop either reaches a node for the first time, or lowers the
    sum of the distances by as much as it adds to the queue, and it
    takes one tuple off the queue. *)

Lemma In_dict_set {V : Type} (d : dict V) (k k' : Z) (v v' : V) :
  In (k', v') (dict_set k v d) -> (k', v') = (k, v) \/ In (k', v') d.
Proof.
  induction d as [|[k0 v0] d IH]; simpl.
  - intros [H|[]]. left. congruence.
  - destruct (k =? k0); simpl.
    + intros [H|H]; [left; congruence|right; right; exact H].
    + intros [H|H]; [right; left; exact H|].
      destruct (IH H) as [H'|H']; [left; exact H'|right; right; exact H'].
Qed.

Lemma dict_mem_set {V : Type} (d : dict V) (k k' : Z) (v : V) :
  dict_mem k (dict_set k' v d) = (k =? k') || dict_mem k d.
Proof.
  unfold dict_mem. rewrite dict_get_set. destruct (k =? k'); reflexivity.
Qed.

Lemma total_set_present (dist : dict Z) (v c nd : Z) :
  dict_get v dist = Some c ->
  (total (dict_set v nd dist) + Z.to_nat c = total dist + Z.to_nat nd)%nat.
Proof.
  induction dist as [|[k x] dist IH]; simpl; [discriminate|].
  destruct (v =? k); simpl.
  - intros [= ->]. lia.
  - intros H. specialize (IH H). lia.
Qed.

Lemma total_set_absent (dist : dict Z) (v nd : Z) :
  dict_get v dist = None ->
  total (dict_set v nd dist) = (total dist + Z.to_nat nd)%nat.
Proof.
  induction dist as [|[k x] dist IH]; simpl; [lia|].
  destruct (v =? k); simpl; [discriminate|].
  intros H. rewrite (IH H). lia.
Qed.

Lemma filter_length_le {A : Type} (p q : A -> bool) (l : list A) :
  (forall x, q x = true -> p x = true) ->
  (List.length (filter q l) <= List.length (filter p l))%nat.
Proof.
  intros H. induction l as [|a l IH]; simpl; [lia|].
  destruct (q a) eqn:Eq.
  - rewrite (H a Eq). simpl. lia.
  - destruct (p a); simpl; lia.
Qed.

Lemma filter_length_lt {A : Type} (p q : A -> bool) (l : list A) (a : A) :
  (forall x, q x = true -> p x = true) ->
  In a l -> p a = true -> q a = false ->
  (List.length (filter q l) < List.length (filter p l))%nat.
Proof.
  intros H. induction l as [|b l IH]; simpl; [contradiction|].
  intros [->|Hin] Hp Hq.
  - rewrite Hp, Hq. simpl. pose proof (filter_length_le p q l H). lia.
  - specialize (IH Hin Hp Hq). destruct (q b) eqn:Eq.
    + rewrite (H b Eq). simpl. lia.
    + destruct (p b); simpl; lia.
Qed.

Lemma unseen_set_present (adj : dict (dict Z)) (dist : dict Z) (v nd : Z) :
  dict_mem v dist = true ->
  unseen adj (dict_set v nd dist) = unseen adj dist.
Proof.
  intros H. unfold unseen. f_equal. apply filter_ext. intros x.
  rewrite dict_mem_set. destruct (x =? v) eqn:E; [|reflexivity].
  apply Z.eqb_eq in E. subst x. rewrite H. reflexivity.
Qed.

Lemma unseen_set_absent (adj : dict (dict Z)) (dist : dict Z) (v nd : Z) :
  dict_mem v dist = false -> In v (targets adj) ->
  (unseen adj (dict_set v nd dist) < unseen adj dist)%nat.
Proof.
  intros H Hin. unfold unseen. apply filter_length_lt with (a := v).
  - intros x. rewrite dict_mem_set. destruct (x =? v); simpl; [discriminate|auto].
  - apply nodup_In. exact Hin.
  - rewrite H. reflexivity.
  - rewrite dict_mem_set, Z.eqb_refl. reflexivity.
Qed.

Lemma dist_nonneg_set (dist : dict Z) (v nd : Z) :
  dist_nonneg dist -> 0 <= nd -> dist_nonneg (dict_set v nd dist).
Proof.
  intros H Hnd k x Hin. apply In_dict_set in Hin.
  destruct Hin as [[= -> ->]|Hin]; [exact Hnd|exact (H k x Hin)].
Qed.

Lemma relax_no_worse (adj : dict (dict Z)) (src u d : Z) (s : search_state) (v w : Z) :
  dist_nonneg (fst (fst s)) -> 0 <= d -> 0 <= w -> In v (targets adj) ->
  dist_nonneg (fst (fst (relax src u d s (v, w))))
  /\ no_worse adj (relax src u d s (v, w)) s.
Proof.
  destruct s as [[dist fh] pq]. intros Hnn Hd Hw Hv. unfold relax, no_worse, weight.
  cbn [fst snd] in *.
  destruct (dict_get v dist) as [c|] eqn:E; cbn [improves].
  - destruct (d + w <? c) eqn:L; cbn [fst snd]; [|split; [exact Hnn|right; lia]].
    apply Z.ltb_lt in L. split; [apply dist_nonneg_set; [exact Hnn|lia]|].
    right. split.
    + apply unseen_set_present. unfold dict_mem. rewrite E. reflexivity.
    + pose proof (total_set_present dist v c (d + w) E). unfold heappush. simpl. lia.
  - cbn [fst snd]. split; [apply dist_nonneg_set; [exact Hnn|lia]|].
    left. apply unseen_set_absent; [|exact Hv]. unfold dict_mem. rewrite E. reflexivity.
Qed.

Lemma no_worse_trans (adj : dict (dict Z)) (a b c : search_state) :
  no_worse adj a b -> no_worse adj b c -> no_worse adj a c.
Proof.
  unfold no_worse. lia.
Qed.

Lemma relax_fold_no_worse (adj : dict (dict Z)) (src u d : Z) (es : dict Z) (s : search_state) :
  dist_nonneg (fst (fst s)) -> 0 <= d ->
  (forall v w, In (v, w) es -> 0 <= w /\ In v (targets adj)) ->
  dist_nonneg (fst (fst (fold_left (relax src u d) es s)))
  /\ no_worse adj (fold_left (relax src u d) es s) s.
Proof.
  revert s. induction es as [|[v w] es IH]; intros s Hnn Hd Hes; simpl.
  - split; [exact Hnn|]. right. split; [reflexivity|lia].
  - destruct (Hes v w (or_introl eq_refl)) as [Hw Hv].
    destruct (relax_no_worse adj src u d s v w Hnn Hd Hw Hv) as [Hnn' Hle].
    destruct (IH (relax src u d s (v, w)) Hnn' Hd) as [Hnn'' Hle'].
    { intros v' w' Hin. apply Hes. right. exact Hin. }
    split; [exact Hnn''|]. eapply no_worse_trans; eassumption.
Qed.

Lemma tuple_eqb_refl (x : Z * Z) : tuple_eqb x x = true.
Proof.
  unfold tuple_eqb. rewrite !Z.eqb_refl. reflexivity.
Qed.

Lemma heap_min_In (pq : list (Z * Z)) (x : Z * Z) : In (heap_min x pq) (x :: pq).
Proof.
  revert x. induction pq as [|y pq IH]; intros x; simpl.
  - left. reflexivity.
  - destruct (IH (if tuple_ltb y x then y else x)) as [H|H].
    + destruct (tuple_ltb y x); [right; left; exact H|left; exact H].
    + right. right. exact H.
Qed.

Lemma remove_one_length (pq : list (Z * Z)) (x : Z * Z) :
  In x pq -> (List.length (remove_one x pq) + 1 = List.length pq)%nat.
Proof.
  induction pq as [|y pq IH]; simpl; [contradiction|].
  intros Hin. destruct (tuple_eqb x y) eqn:E; [lia|].
  destruct Hin as [->|Hin]; [rewrite tuple_eqb_refl in E; discriminate|].
  simpl. specialize (IH Hin). lia.
Qed.

Lemma heappop_length (pq pq' : list (Z * Z)) (m : Z * Z) :
  heappop pq = Some (m, pq') -> (List.length pq' + 1 = List.length pq)%nat.
Proof.
  unfold heappop. destruct pq as [|x rest]; [discriminate|].
  intros [= <- <-]. exact (remove_one_length (x :: rest) _ (heap_min_In rest x)).
Qed.

Lemma step_decreases (adj : dict (dict Z)) (src : Z) (s s' : search_state) :
  edges_nonneg adj -> dist_nonneg (fst (fst s)) ->
  step adj src s = Some s' ->
  dist_nonneg (fst (fst s'))
  /\ ((unseen adj (fst (fst s')) < unseen adj (fst (fst s)))%nat
      \/ (unseen adj (fst (fst s')) = unseen adj (fst (fst s))
          /\ (weight s' < weight s)%nat)).
Proof.
  intros Hadj Hnn. destruct s as [[dist fh] pq]. unfold step.
  destruct (heappop pq) as [[[d u] pq']|] eqn:Hpop; [|discriminate].
  apply heappop_length in Hpop. cbn [fst snd] in *.
  destruct (dict_get u dist) as [c|] eqn:Hu; cbn [outdated].
  - destruct (d =? c) eqn:Hd; cbn [negb].
    + apply Z.eqb_eq in Hd. subst c. intros [= <-].
      assert (0 <= d) as Hd0 by (eapply Hnn, dict_get_In, Hu).
      destruct (relax_fold_no_worse adj src u d (default (dict_get u adj) []) (dist, fh, pq'))
        as [Hnn' Hle]; [exact Hnn|exact Hd0| |].
      { intros v w Hin. destruct (dict_get u adj) as [es|] eqn:Hes; [|contradiction].
        simpl in Hin. apply dict_get_In in Hes. split; [eapply Hadj; eassumption|].
        unfold targets. apply in_flat_map. exists (u, es). split; [exact Hes|].
        simpl. apply (in_map fst) in Hin. exact Hin. }
      split; [exact Hnn'|]. unfold no_worse, weight in *. cbn [fst snd] in *. lia.
    + intros [= <-]. split; [exact Hnn|]. right. unfold weight. cbn [fst snd]. lia.
  - intros [= <-]. split; [exact Hnn|]. right. unfold weight. cbn [fst snd]. lia.
Qed.

Lemma search_more_fuel (adj : dict (dict Z)) (src : Z) (fuel fuel' : nat)
    (s : search_state) (r : dict Z * dict Z) :
  (fuel <= fuel')%nat -> search fuel adj src s = Some r -> search fuel' adj src s = Some r.
Proof.
  revert fuel' s. induction fuel as [|fuel IH]; intros fuel' s Hle; simpl; [discriminate|].
  destruct fuel' as [|fuel']; [lia|]. simpl.
  destruct (step adj src s) as [s'|]; [|auto].
  apply IH. lia.
Qed.

Lemma search_terminates (adj : dict (dict Z)) (src : Z) (s : search_state) :
  edges_nonneg adj -> dist_nonneg (fst (fst s)) ->
  exists fuel r, search fuel adj src s = Some r.
Proof.
  intros Hadj.
  remember (unseen adj (fst (fst s))) as a eqn:Ha.
  revert s Ha. induction a as [a IHa] using lt_wf_ind. intros s.
  remember (weight s) as b eqn:Hb.
  revert s Hb. induction b as [b IHb] using lt_wf_ind. intros s Hb Ha Hnn.
  destruct (step adj src s) as [s'|] eqn:Hstep.
  - destruct (step_decreases adj src s s' Hadj Hnn Hstep) as [Hnn' [Hlt|[Heq Hlt]]].
    + destruct (IHa _ ltac:(subst a; exact Hlt) s' eq_refl Hnn') as [fuel [r Hr]].
      exists (S fuel), r. simpl. rewrite Hstep. exact Hr.
    + destruct (IHb _ ltac:(subst b; exact Hlt) s' eq_refl ltac:(congruence) Hnn')
        as [fuel [r Hr]].
      exists (S fuel), r. simpl. rewrite Hstep. exact Hr.
  - exists 1%nat, (fst (fst s), snd (fst s)). simpl. rewrite Hstep. reflexivity.
Qed.

(** *** The merged graph *)

Lemma edges_nonneg_set (adj : dict (dict Z)) (a b w : Z) :
  edges_nonneg adj -> 0 <= w ->
  edges_nonneg (dict_set a (dict_set b w (default (dict_get a adj) [])) adj).
Proof.
  intros Hadj Hw u es v x Hin Hes. apply In_dict_set in Hin.
  destruct Hin as [[= -> ->]|Hin]; [|exact (Hadj u es v x Hin Hes)].
  apply In_dict_set in Hes. destruct Hes as [[= -> ->]|Hes]; [exact Hw|].
  destruct (dict_get a adj) as [es|] eqn:E; [|contradiction].
  simpl in Hes. apply dict_get_In in E. exact (Hadj a es v x E Hes).
Qed.

Lemma edges_nonneg_setdefault (adj : dict (dict Z)) (u : Z) :
  edges_nonneg adj -> edges_nonneg (setdefault u adj).
Proof.
  intros Hadj. unfold setdefault. destruct (dict_mem u adj); [exact Hadj|].
  intros u' es v x Hin Hes. apply In_dict_set in Hin.
  destruct Hin as [[= -> ->]|Hin]; [contradiction|exact (Hadj u' es v x Hin Hes)].
Qed.

Lemma edges_nonneg_add_edge (adj : dict (dict Z)) (u v w : Z) :
  edges_nonneg adj -> 0 <= w -> edges_nonneg (add_edge u v w adj).
Proof.
  intros Hadj Hw. unfold add_edge.
  apply edges_nonneg_set; [|exact Hw]. apply edges_nonneg_set; [|exact Hw].
  apply edges_nonneg_setdefault, edges_nonneg_setdefault, Hadj.
Qed.

Lemma edges_nonneg_add_record (adj : dict (dict Z)) (orec : Z * lsa) :
  edges_nonneg adj -> edges_nonneg (add_record adj orec).
Proof.
  unfold add_record. generalize (lsa_neighbors (snd orec)) as ns.
  intros ns. revert adj. induction ns as [|[v w] ns IH]; intros adj Hadj; simpl; [exact Hadj|].
  apply IH. destruct (0 <=? w) eqn:E; [|exact Hadj].
  apply edges_nonneg_add_edge; [exact Hadj|]. apply Z.leb_le, E.
Qed.

Lemma edges_nonneg_build (st : node) : edges_nonneg (_build_merged_adjacency st).
Proof.
  unfold _build_merged_adjacency.
  assert (forall db adj, edges_nonneg adj -> edges_nonneg (fold_left add_record db adj)) as H.
  { induction db as [|r db IH]; intros adj Hadj; simpl; [exact Hadj|].
    apply IH, edges_nonneg_add_record, Hadj. }
  apply H. intros u es v w [].
Qed.

(** [_recompute_routes] returns, given fuel enough. *)
Lemma recompute_terminates (st : node) :
  exists fuel0, forall fuel, (fuel0 <= fuel)%nat ->
    exists st', _recompute_routes fuel st = Some st'.
Proof.
  unfold _recompute_routes.
  destruct (negb (dict_mem (id st) (_build_merged_adjacency st))).
  - exists 0%nat. intros fuel _. eexists. reflexivity.
  - destruct (search_terminates (_build_merged_adjacency st) (id st)
                ([(id st, 0)], [], [(0, id st)]) (edges_nonneg_build st))
      as [fuel0 [[d fh] Hr]].
    { intros k x [[= <- <-]|[]]. lia. }
    exists fuel0. intros fuel Hle.
    rewrite (search_more_fuel _ _ _ _ _ _ Hle Hr). eexists. reflexivity.
Qed.

Lemma recompute_keeps (fuel : nat) (st st' : node) :
  _recompute_routes fuel st = Some st' ->
  id st' = id st /\ neighbor_lat st' = neighbor_lat st
  /\ lsdb st' = lsdb st /\ seq st' = seq st.
Proof.
  unfold _recompute_routes.
  destruct (negb (dict_mem (id st) (_build_merged_adjacency st)));
    [intros [= <-]; repeat split|].
  destruct (search _ _ _ _) as [[d fh]|]; [|discriminate].
  intros [= <-]. repeat split.
Qed.

(** Run on the state a first run left, [_recompute_routes] leaves it
    as it is. *)
Lemma recompute_idempotent (fuel : nat) (st st' : node) :
  _recompute_routes fuel st = Some st' -> _recompute_routes fuel st' = Some st'.
Proof.
  unfold _recompute_routes, _build_merged_adjacency.
  destruct (negb (dict_mem (id st) (fold_left add_record (lsdb st) []))) eqn:E.
  - intros [= <-]. simpl. rewrite E. reflexivity.
  - destruct (search fuel (fold_left add_record (lsdb st) []) (id st)
                ([(id st, 0)], [], [(0, id st)])) as [[d fh]|] eqn:Hs; [|discriminate].
    intros [= <-]. simpl. rewrite E, Hs. reflexivity.
Qed.

(** *** Incoming advertisements *)
Section Messages.
Context {R : Runtime}.

Lemma advert_of_unique (m : string) (o1 s1 o2 s2 : Z) (n1 n2 : dict Z) :
  advert_of m o1 s1 n1 -> advert_of m o2 s2 n2 -> o1 = o2 /\ s1 = s2 /\ n1 = n2.
Proof.
  intros [msg1 [H1 [_ [H3 H4]]]] [msg2 [H1' [_ [H3' H4']]]].
  rewrite H1 in H1'. injection H1' as <-. rewrite H3 in H3'. injection H3' as <- <-.
  subst. auto.
Qed.

(** The handler drops the message and returns, or it installs the
    advertisement, floods the text and recomputes. *)
Lemma process_cases (fuel : nat) (m : string) (st : node) :
  (process_incoming_routing_message fuel m st = Some (Returned st [])
   /\ forall origin incoming_seq ns,
        advert_of m origin incoming_seq ns ->
        origin = id st \/ stale incoming_seq (dict_get origin (lsdb st)) = true)
  \/ (exists origin incoming_seq ns,
        advert_of m origin incoming_seq ns
        /\ origin <> id st
        /\ stale incoming_seq (dict_get origin (lsdb st)) = false
        /\ process_incoming_routing_message fuel m st
           = match _recompute_routes fuel (install st origin incoming_seq ns) with
             | Some st' => Some (Returned st' [m])
             | None => None
             end).
Proof.
  unfold process_incoming_routing_message.
  destruct (json_loads m) as [v|] eqn:E1.
  2:{ left. split; [reflexivity|]. intros o1 s1 ns1 [msg [H _]]. congruence. }
  destruct v as [| | | | | |msg];
    try (left; split; [reflexivity|]; intros o1 s1 ns1 [msg' [H _]]; congruence).
  destruct (eq_str (items_get "type" msg) "LSA") eqn:E2; cbn [negb].
  2:{ left. split; [reflexivity|]. intros o1 s1 ns1 [msg' [H [H' _]]].
      rewrite E1 in H. injection H as <-. congruence. }
  destruct (o <- getitem (VDict msg) "origin" ;; origin <- py_int o ;;
            s <- getitem (VDict msg) "seq" ;; incoming_seq <- py_int s ;;
            Ok (origin, incoming_seq)) as [[origin incoming_seq]|e] eqn:E3.
  2:{ left. split; [reflexivity|]. intros o1 s1 ns1 [msg' [H [_ [H' _]]]].
      rewrite E1 in H. injection H as <-. congruence. }
  assert (advert_of m origin incoming_seq
            (parse_neighbors (default (items_get "neighbors" msg) (VDict [])))) as Hadv.
  { exists msg. auto. }
  destruct (origin =? id st) eqn:E4.
  { left. split; [reflexivity|]. intros o1 s1 ns1 H.
    destruct (advert_of_unique _ _ _ _ _ _ _ Hadv H) as [<- _].
    left. apply Z.eqb_eq, E4. }
  destruct (stale incoming_seq (dict_get origin (lsdb st))) eqn:E5.
  { left. split; [reflexivity|]. intros o1 s1 ns1 H.
    destruct (advert_of_unique _ _ _ _ _ _ _ Hadv H) as [<- [<- _]].
    right. exact E5. }
  right. eexists origin, incoming_seq, _. split; [exact Hadv|].
  split; [apply Z.eqb_neq, E4|]. split; [exact E5|reflexivity].
Qed.

(** C9.  Whatever the text, the handler returns, given fuel enough
    for the search, and does not raise: it returns with the node as it
    was and nothing sent, or the text is an advertisement from another
    node that is not stale, which is installed, flooded and followed by
    a recomputation. *)
Theorem C9_handler_total (m : string) (st : node) :
  exists fuel0, forall fuel, (fuel0 <= fuel)%nat ->
    exists st' sent,
      process_incoming_routing_message fuel m st = Some (Returned st' sent)
      /\ ((st' = st /\ sent = [])
          \/ exists origin incoming_seq ns,
               advert_of m origin incoming_seq ns
               /\ origin <> id st
               /\ stale incoming_seq (dict_get origin (lsdb st)) = false
               /\ _recompute_routes fuel (install st origin incoming_seq ns) = Some st'
               /\ sent = [m]).
Proof.
  destruct (process_cases 0 m st) as [[H _]|[origin [incoming_seq [ns [Hadv [Ho [Hs _]]]]]]].
  - exists 0%nat. intros fuel _. exists st, [].
    destruct (process_cases fuel m st) as [[H' _]|[o [s [n [Hadv [Ho [Hs _]]]]]]].
    + split; [exact H'|left; auto].
    + exfalso. destruct (process_cases 0 m st) as [[_ H0]|[o' [s' [n' [Hadv' [Ho' [Hs' H']]]]]]].
      * destruct (H0 _ _ _ Hadv); congruence.
      * rewrite H' in H. destruct (_recompute_routes 0 _); discriminate.
  - destruct (recompute_terminates (install st origin incoming_seq ns)) as [fuel0 Hf].
    exists fuel0. intros fuel Hle. destruct (Hf fuel Hle) as [st' Hst'].
    exists st', [m].
    destruct (process_cases fuel m st) as [[_ H']|[o [s [n [Hadv' [_ [_ H']]]]]]].
    + destruct (H' _ _ _ Hadv); congruence.
    + destruct (advert_of_unique _ _ _ _ _ _ _ Hadv Hadv') as [<- [<- <-]].
      rewrite H', Hst'. split; [reflexivity|]. right.
      exists origin, incoming_seq, ns. auto.
Qed.

End Messages.

Section Acceptance.
Context {R : Runtime}.

(** C2.  An advertisement whose sequence number is less than or equal
    to the one stored for its origin leaves the node as it is and
    nothing is sent; and when the handler does anything else than that,
    the text was an advertisement that it installed, for an origin with
    no entry or with a stored sequence number strictly below the
    incoming one. *)
Theorem C2_monotonic_acceptance (fuel : nat) (m : string) (st : node) :
  (forall origin incoming_seq ns current,
      advert_of m origin incoming_seq ns ->
      dict_get origin (lsdb st) = Some current ->
      incoming_seq <= lsa_seq current ->
      process_incoming_routing_message fuel m st = Some (Returned st []))
  /\ (forall o,
        process_incoming_routing_message fuel m st = Some o ->
        o = Returned st []
        \/ exists origin incoming_seq ns,
             advert_of m origin incoming_seq ns
             /\ (dict_get origin (lsdb st) = None
                 \/ exists current, dict_get origin (lsdb st) = Some current
                                    /\ lsa_seq current < incoming_seq)
             /\ lsdb (state_of o) = dict_set origin (mk_lsa incoming_seq ns) (lsdb st)
             /\ sent_of o = [m]).
Proof.
  split.
  - intros origin incoming_seq ns current Hadv Hcur Hle.
    destruct (process_cases fuel m st) as [[H _]|[o [s1 [n [Hadv' [_ [Hs _]]]]]]]; [exact H|].
    destruct (advert_of_unique _ _ _ _ _ _ _ Hadv Hadv') as [<- [<- _]].
    rewrite Hcur in Hs. simpl in Hs. apply Z.leb_gt in Hs. lia.
  - intros o Ho.
    destruct (process_cases fuel m st) as [[H _]|[origin [s1 [n [Hadv [_ [Hs H]]]]]]].
    + left. congruence.
    + right. exists origin, s1, n. split; [exact Hadv|].
      rewrite H in Ho.
      destruct (_recompute_routes fuel (install st origin s1 n)) as [st'|] eqn:E;
        [|discriminate].
      injection Ho as <-. simpl.
      destruct (recompute_keeps _ _ _ E) as [_ [_ [Hdb _]]]. rewrite Hdb. simpl.
      split; [|split; reflexivity].
      destruct (dict_get origin (lsdb st)) as [current|]; [|left; reflexivity].
      right. exists current. split; [reflexivity|]. simpl in Hs.
      apply Z.leb_gt in Hs. exact Hs.
Qed.

End Acceptance.

Lemma sample_seq3_advert :
  @advert_of Sample.sample_runtime (Sample.sample_dumps Sample.lsa_2_seq3) 2 3 [(1, 9)].
Proof.
  exists (Sample.items_of Sample.lsa_2_seq3).
  split; [vm_compute; reflexivity|]. split; [vm_compute; reflexivity|].
  split; vm_compute; reflexivity.
Qed.

(** Sequence number 5 is stored for node 2; its advertisement with
    sequence number 3 is dropped. *)
Lemma C2_monotonic_acceptance_witness :
  dict_get 2 (lsdb Sample.ls_after_seq5) = Some (mk_lsa 5 [(1, 5); (3, 5)])
  /\ @process_incoming_routing_message Sample.sample_runtime 100
       (Sample.sample_dumps Sample.lsa_2_seq3) Sample.ls_after_seq5
     = Some (Returned Sample.ls_after_seq5 []).
Proof.
  split; [vm_compute; reflexivity|].
  apply (proj1 (@C2_monotonic_acceptance Sample.sample_runtime 100
                  (Sample.sample_dumps Sample.lsa_2_seq3) Sample.ls_after_seq5)
               2 3 [(1, 9)] (mk_lsa 5 [(1, 5); (3, 5)]) sample_seq3_advert).
  - vm_compute. reflexivity.
  - simpl. lia.
Defined.

(** *** Integer costs *)


Section Costs.
Context {R : Runtime}.


Lemma originate_spec (fuel : nat) (st st' : node) (sent : list string) :
  _originate_and_flood_lsa fuel st = Some (Returned st' sent) ->
  id st' = id st /\ neighbor_lat st' = neighbor_lat st /\ seq st' = seq st + 1
  /\ dict_get (id st) (lsdb st') = Some (mk_lsa (seq st + 1) (neighbor_lat st))
  /\ sent = [json_dumps (lsa_payload st' (seq st'))].
Proof.
  unfold _originate_and_flood_lsa.
  destruct (_recompute_routes fuel _) as [st2|] eqn:E; [|discriminate].
  intros [= <- <-]. destruct (recompute_keeps _ _ _ E) as [H1 [H2 [H3 H4]]].
  simpl in *. rewrite H3, H4. rewrite dict_get_set_eq.
  repeat split; try assumption. unfold lsa_payload. rewrite H1, H2. reflexivity.
Qed.

End Costs.

(** *** Examples *)

(** Node 1 learns of the link from 2 to 3 and reaches 3 through 2; the
    advertisement of node 3 itself changes no distance. *)
Example line_first_hops :
  routing_table Sample.ls_after_seq5 = [(2, 2); (3, 2)]
  /\ dist Sample.ls_after_seq5 = [(1, 0); (2, 5); (3, 10)]
  /\ exists st',
       @process_incoming_routing_message Sample.sample_runtime 100
         (Sample.sample_dumps Sample.lsa_3_seq1) Sample.ls_after_seq5
       = Some (Returned st' [Sample.sample_dumps Sample.lsa_3_seq1])
       /\ dist st' = [(1, 0); (2, 5); (3, 10)]
       /\ dict_get 3 (lsdb st') = Some (mk_lsa 1 [(2, 5)]).
Proof.
  split; [vm_compute; reflexivity|]. split; [vm_compute; reflexivity|].
  eexists. split; [vm_compute; reflexivity|]. split; vm_compute; reflexivity.
Qed.

(** A message that is no object, and text that is no JSON: nothing
    happens. *)
Example garbage_ignored :
  @process_incoming_routing_message Sample.sample_runtime 0 "oops" Sample.ls_linked
  = Some (Returned Sample.ls_linked [])
  /\ @process_incoming_routing_message Sample.sample_runtime 0 "7" Sample.ls_linked
     = Some (Returned Sample.ls_linked []).
Proof. split; vm_compute; reflexivity. Qed.

End LS_Facts.

(** ** Both nodes *)

(** C6.  Asked for the next hop toward an identifier, either node
    answers with itself for its own identifier, with the stored next hop
    (path-vector) or first hop (link-state) when it has a route, and
    with -1 otherwise, in whatever state it is; it does not raise. *)
Theorem C6_next_hop {R : Runtime} :
  (forall (st : DV.node) (dest : Z),
      DV.get_next_hop (VInt dest) st
      = Ok (if dest =? DV.id st then DV.id st
            else match dict_get dest (DV.routes st) with
                 | Some r => DV.next r
                 | None => -1
                 end))
  /\ (forall st : DV.node, DV.get_next_hop (VInt (DV.id st)) st = Ok (DV.id st))
  /\ (forall (st : LS.node) (dest : Z),
        LS.get_next_hop (VInt dest) st
        = if dest =? LS.id st then LS.id st
          else match dict_get dest (LS.routing_table st) with
               | Some hop => hop
               | None => -1
               end)
  /\ (forall st : LS.node, LS.get_next_hop (VInt (LS.id st)) st = LS.id st).
Proof.
  split; [|split; [|split]].
  - intros st dest. unfold DV.get_next_hop. simpl.
    destruct (dest =? DV.id st); [reflexivity|].
    destruct (dict_get dest (DV.routes st)); reflexivity.
  - intros st. unfold DV.get_next_hop. simpl. rewrite Z.eqb_refl. reflexivity.
  - intros st dest. unfold LS.get_next_hop. simpl.
    destruct (dest =? LS.id st); [reflexivity|].
    destruct (dict_get dest (LS.routing_table st)); reflexivity.
  - intros st. unfold LS.get_next_hop. simpl. rewrite Z.eqb_refl. reflexivity.
Qed.

(** C8.  Recomputing from the state a recomputation left gives that
    state again.  A path-vector node then reports no change, so nothing
    is broadcast (no link cost being NaN, which is not equal to itself);
    a link-state node's recomputation returns, given fuel enough, and
    sends nothing by itself. *)
Theorem C8_idempotent_recomputation {R : Runtime} :
  (forall st : DV.node,
      fst (DV._recompute_routes (fst (DV._recompute_routes st)))
      = fst (DV._recompute_routes st))
  /\ (forall st : DV.node,
        (forall n w, In (n, w) (DV.neighbor_lat st) -> (w =? w)%float = true) ->
        DV._recompute_routes (fst (DV._recompute_routes st))
        = (fst (DV._recompute_routes st), false)
        /\ DV.recompute_and_broadcast (fst (DV._recompute_routes st))
           = Returned (fst (DV._recompute_routes st)) [])
  /\ (forall st : LS.node,
        exists fuel0, forall fuel, (fuel0 <= fuel)%nat ->
          exists st1, LS._recompute_routes fuel st = Some st1
                      /\ LS._recompute_routes fuel st1 = Some st1).
Proof.
  split; [intros st; reflexivity|]. split; [intros st; apply DV_Facts.recompute_twice|].
  intros st. destruct (LS_Facts.recompute_terminates st) as [fuel0 H].
  exists fuel0. intros fuel Hle. destruct (H fuel Hle) as [st1 H1].
  exists st1. split; [exact H1|]. eapply LS_Facts.recompute_idempotent, H1.
Qed.

Lemma C8_idempotent_recomputation_witness :
  DV._recompute_routes (fst (DV._recompute_routes Sample.dv_after_line_advert))
  = (fst (DV._recompute_routes Sample.dv_after_line_advert), false)
  /\ @DV.recompute_and_broadcast Sample.sample_runtime
       (fst (DV._recompute_routes Sample.dv_after_line_advert))
     = Returned (fst (DV._recompute_routes Sample.dv_after_line_advert)) []
  /\ LS._recompute_routes 100 Sample.ls_after_seq5 = Some Sample.ls_after_seq5.
Proof.
  destruct (@C8_idempotent_recomputation Sample.sample_runtime) as [_ [H _]].
  destruct (H Sample.dv_after_line_advert) as [H1 H2].
  - intros n w Hin. vm_compute in Hin. destruct Hin as [[= <- <-]|[]]. reflexivity.
  - split; [exact H1|]. split; [exact H2|]. vm_compute. reflexivity.
Defined.

(** * Further properties *)

(** ** Dictionaries *)

Section More_Dict_Facts.
Context {V : Type}.
Implicit Types (d : dict V) (k : Z) (v : V).

Lemma In_dict_pop d k k' v' : In (k', v') (dict_pop k d) -> k' <> k /\ In (k', v') d.
Proof.
  induction d as [|[k0 v0] d IH]; simpl; [tauto|].
  destruct (k =? k0) eqn:E.
  - intros H. destruct (IH H). tauto.
  - apply Z.eqb_neq in E. intros [H|H].
    + injection H as -> ->. split; [congruence|left; reflexivity].
    + destruct (IH H). tauto.
Qed.

Lemma dict_get_pop d k k' :
  dict_get k' (dict_pop k d) = if k' =? k then None else dict_get k' d.
Proof.
  induction d as [|[k0 v0] d IH]; simpl.
  - destruct (k' =? k); reflexivity.
  - destruct (k =? k0) eqn:E.
    + apply Z.eqb_eq in E. subst k0. rewrite IH.
      destruct (k' =? k); reflexivity.
    + simpl. rewrite IH. destruct (k' =? k0) eqn:E'; [|reflexivity].
      apply Z.eqb_eq in E'. subst k0.
      rewrite Z.eqb_sym, E. reflexivity.
Qed.

Lemma dict_pop_NoDup d k : NoDup (dict_keys d) -> NoDup (dict_keys (dict_pop k d)).
Proof.
  induction d as [|[k0 v0] d IH]; simpl; [auto|].
  intros H. inversion H as [|? ? Hnot Hnd]; subst.
  destruct (k =? k0); [auto|]. simpl. constructor; [|auto].
  intros Hin. apply Hnot. unfold dict_keys in Hin. apply in_map_iff in Hin.
  destruct Hin as [[k1 v1] [Hk Hin]]. simpl in Hk. subst k1.
  apply In_dict_pop in Hin. destruct Hin as [_ Hin].
  apply (in_map fst) in Hin. exact Hin.
Qed.

Lemma dict_mem_pop d k k' :
  dict_mem k' (dict_pop k d) = negb (k' =? k) && dict_mem k' d.
Proof.
  unfold dict_mem. rewrite dict_get_pop. destruct (k' =? k); reflexivity.
Qed.

Lemma dict_merge_keys (a b : dict V) :
  NoDup (dict_keys a) -> NoDup (dict_keys (dict_merge a b)).
Proof.
  unfold dict_merge. revert a. induction b as [|[k v] b IH]; intros a H; simpl; [exact H|].
  apply IH, dict_set_NoDup, H.
Qed.

(** Assigning the items of a dictionary, in order, to an empty one
    gives the dictionary back. *)
Lemma dict_set_all (l acc : dict V) :
  NoDup (dict_keys (acc ++ l)) ->
  fold_left (fun a kv => dict_set (fst kv) (snd kv) a) l acc = acc ++ l.
Proof.
  revert acc. induction l as [|[k v] l IH]; intros acc H; simpl.
  - rewrite app_nil_r. reflexivity.
  - assert (dict_set k v acc = acc ++ [(k, v)]) as E.
    { assert (~ In k (dict_keys acc)) as Hk.
      { unfold dict_keys in H. rewrite map_app in H. simpl in H.
        apply NoDup_remove_2 in H. intros Hin. apply H. apply in_or_app. left. exact Hin. }
      clear -Hk. induction acc as [|[k0 v0] acc IHa]; simpl; [reflexivity|].
      destruct (k =? k0) eqn:E.
      - apply Z.eqb_eq in E. subst. exfalso. apply Hk. left. reflexivity.
      - rewrite IHa; [reflexivity|]. intros Hin. apply Hk. right. exact Hin. }
    rewrite E. rewrite IH.
    + rewrite <- app_assoc. reflexivity.
    + rewrite <- app_assoc. exact H.
Qed.

End More_Dict_Facts.

(** ** Path-vector node: the states it goes through *)

Module DV_More.
Import Distance_Vector_Node DV_Notions DV_Invariants DV_Facts.

Section Steps.
Context {R : Runtime}.

Lemma link_cases (neighbor latency : value) (st : node) :
  (exists e, link_has_been_updated neighbor latency st = Raised e st)
  \/ exists n w,
       py_int neighbor = Ok n /\ py_float latency = Ok w
       /\ link_has_been_updated neighbor latency st
          = recompute_and_broadcast
              (if (w =? -1)%float then link_deleted n st else link_set n w st).
Proof.
  unfold link_has_been_updated.
  destruct (py_int neighbor) as [n|e]; [|left; eauto].
  destruct (py_float latency) as [w|e]; [|left; eauto].
  right. exists n, w. split; [reflexivity|]. split; [reflexivity|].
  destruct (w =? -1)%float; reflexivity.
Qed.

Lemma message_cases (m : string) (t : Z) (st : node) :
  state_of (process_incoming_routing_message m t st) = st
  /\ sent_of (process_incoming_routing_message m t st) = []
  \/ exists origin parsed,
       well_formed m origin parsed
       /\ dict_mem origin (neighbor_lat st) = true
       /\ process_incoming_routing_message m t st
          = recompute_and_broadcast (accept t st origin parsed).
Proof.
  unfold process_incoming_routing_message.
  destruct (json_loads m) as [[| | | | | |msg]|] eqn:E1; try (left; split; reflexivity).
  destruct (eq_str (items_get "type" msg) "DV_PATH") eqn:E2; cbn [negb];
    [|left; split; reflexivity].
  destruct (o <- getitem (VDict msg) "origin" ;; py_int o) as [origin|e] eqn:E3;
    [|left; split; reflexivity].
  destruct (dict_mem origin (neighbor_lat st)) eqn:E4; cbn [negb];
    [|left; split; reflexivity].
  destruct (default (items_get "routes" msg) (VDict [])) as [| | | | | |raw] eqn:E5;
    try (left; split; reflexivity).
  destruct (parse_routes origin raw []) as [parsed|e] eqn:E6; [|left; split; reflexivity].
  right. exists origin, parsed. split; [exists msg, raw; auto|].
  split; [exact E4|reflexivity].
Qed.

Lemma parse_entry_checked (origin : Z) (acc parsed : dict advert) (item : string * value) :
  parse_entry origin acc item = Ok parsed ->
  (forall d e, dict_get d acc = Some e -> exists rest, adv_path e = origin :: rest) ->
  forall d e, dict_get d parsed = Some e -> exists rest, adv_path e = origin :: rest.
Proof.
  unfold parse_entry. destruct item as [k x].
  destruct (py_int (VStr k)) as [d0|]; cbn [bind]; [|discriminate].
  destruct (getitem x "cost") as [cv|]; cbn [bind]; [|discriminate].
  destruct (py_float cv) as [c|]; cbn [bind]; [|discriminate].
  destruct (getitem x "path") as [p|]; cbn [bind]; [|discriminate].
  destruct p as [| | | | |xs|]; try (intros [= <-] H; exact H).
  destruct (int_list xs) as [[|h l]|]; cbn [bind].
  - intros [= <-] H. exact H.
  - destruct (h =? origin) eqn:E; intros [= <-] H; [|exact H].
    apply Z.eqb_eq in E. subst h. intros d e. rewrite dict_get_set.
    destruct (d =? d0); [|apply H]. intros [= <-]. simpl. eauto.
  - discriminate.
Qed.

Lemma parse_routes_checked (origin : Z) (raw : list (string * value))
    (acc parsed : dict advert) :
  parse_routes origin raw acc = Ok parsed ->
  (forall d e, dict_get d acc = Some e -> exists rest, adv_path e = origin :: rest) ->
  forall d e, dict_get d parsed = Some e -> exists rest, adv_path e = origin :: rest.
Proof.
  revert acc. induction raw as [|item raw IH]; intros acc; simpl.
  - intros [= <-] H. exact H.
  - destruct (parse_entry origin acc item) as [acc'|] eqn:E; cbn [bind]; [|discriminate].
    intros H Hacc. eapply IH; [exact H|]. eapply parse_entry_checked; eassumption.
Qed.

Lemma well_formed_parsed (m : string) (origin : Z) (parsed : dict advert) :
  well_formed m origin parsed ->
  NoDup (dict_keys parsed)
  /\ forall d e, dict_get d parsed = Some e -> exists rest, adv_path e = origin :: rest.
Proof.
  intros [msg [raw [_ [_ [_ [_ H]]]]]]. split.
  - eapply parse_routes_keys; [exact H|constructor].
  - eapply parse_routes_checked; [exact H|]. intros d e [=].
Qed.

Lemma sound_recompute (st : node) :
  keys_unique st -> adverts_checked st ->
  sound (state_of (recompute_and_broadcast st)).
Proof.
  intros H1 H2. rewrite recompute_state. repeat split; try apply H1; try apply H2.
Qed.

Lemma sound_link_deleted (n : Z) (st : node) :
  keys_unique st -> adverts_checked st ->
  keys_unique (link_deleted n st) /\ adverts_checked (link_deleted n st).
Proof.
  intros [K1 [K2 K3]] [A1 [A2 A3]]. split.
  - repeat split; simpl.
    + apply dict_pop_NoDup, K1.
    + apply dict_pop_NoDup, K2.
    + intros x adv Hin. apply In_dict_pop in Hin. destruct Hin as [_ Hin]. eauto.
  - repeat split; simpl.
    + intros x. rewrite !dict_mem_pop. destruct (x =? n); simpl; [discriminate|apply A1].
    + intros x. rewrite !dict_mem_pop, A2. reflexivity.
    + intros x adv d e. rewrite dict_get_pop. destruct (x =? n); [discriminate|apply A3].
Qed.

Lemma sound_link_set (n : Z) (w : float) (st : node) :
  keys_unique st -> adverts_checked st ->
  keys_unique (link_set n w st) /\ adverts_checked (link_set n w st).
Proof.
  intros [K1 [K2 K3]] [A1 [A2 A3]]. split.
  - repeat split; simpl; [apply dict_set_NoDup, K1|exact K2|exact K3].
  - repeat split; simpl; [|exact A2|exact A3].
    intros x Hx. rewrite LS_Facts.dict_mem_set, (A1 x Hx). apply orb_true_r.
Qed.

Lemma sound_accept (t : Z) (st : node) (origin : Z) (parsed : dict advert) :
  keys_unique st -> adverts_checked st ->
  dict_mem origin (neighbor_lat st) = true ->
  NoDup (dict_keys parsed) ->
  (forall d e, dict_get d parsed = Some e -> exists rest, adv_path e = origin :: rest) ->
  keys_unique (accept t st origin parsed) /\ adverts_checked (accept t st origin parsed).
Proof.
  intros [K1 [K2 K3]] [A1 [A2 A3]] Hn Hnd Hp.
  assert (NoDup (dict_keys (default (dict_get origin (neighbor_routes st)) []))) as Hold.
  { destruct (dict_get origin (neighbor_routes st)) as [old|] eqn:E; [|constructor].
    simpl. eapply K3, dict_get_In, E. }
  assert (NoDup (dict_keys (stored_routes t st origin parsed))
          /\ forall d e, dict_get d (stored_routes t st origin parsed) = Some e ->
                         exists rest, adv_path e = origin :: rest) as [S1 S2].
  { unfold stored_routes.
    destruct ((t =? default (dict_get origin (neighbor_last_update st)) (-1))
              && (List.length parsed
                  <? List.length (default (dict_get origin (neighbor_routes st)) []))%nat);
      [|split; assumption].
    split; [apply dict_merge_keys, Hold|].
    intros d e. rewrite dict_merge_get by exact Hnd.
    destruct (dict_get d parsed) as [e'|] eqn:E; [intros [= <-]; eauto|].
    destruct (dict_get origin (neighbor_routes st)) as [old|] eqn:E'; [|discriminate].
    simpl. intros H. eapply A3; eassumption. }
  split.
  - repeat split; simpl; [exact K1|apply dict_set_NoDup, K2|].
    intros x adv Hin. apply LS_Facts.In_dict_set in Hin.
    destruct Hin as [[= -> ->]|Hin]; [exact S1|eauto].
  - repeat split; simpl.
    + intros x. rewrite LS_Facts.dict_mem_set. destruct (x =? origin) eqn:E; simpl; [|apply A1].
      apply Z.eqb_eq in E. subst x. intros _. exact Hn.
    + intros x. rewrite !LS_Facts.dict_mem_set, A2. reflexivity.
    + intros x adv d e. rewrite dict_get_set. destruct (x =? origin) eqn:E; [|apply A3].
      apply Z.eqb_eq in E. subst x. intros [= <-]. apply S2.
Qed.

Lemma new_table_nil (i : Z) : new_table i [] [] = [(i, self_route i)].
Proof.
  unfold new_table, direct_routes, candidates. simpl. unfold set_add. simpl.
  unfold select. rewrite Z.eqb_refl. reflexivity.
Qed.

Lemma reachable_sound (st : node) : reachable st -> sound st.
Proof.
  induction 1 as [i|st nb lat _ IH|st m t _ IH].
  - repeat split; simpl; try constructor; try discriminate.
    + intros n adv [].
    + unfold up_to_date. simpl. rewrite new_table_nil. reflexivity.
  - destruct IH as [K [A U]].
    destruct (link_cases nb lat st) as [[e H]|[n [w [_ [_ H]]]]];
      [rewrite H; exact (conj K (conj A U))|].
    rewrite H. destruct (w =? -1)%float.
    + destruct (sound_link_deleted n st K A). apply sound_recompute; assumption.
    + destruct (sound_link_set n w st K A). apply sound_recompute; assumption.
  - destruct IH as [K [A U]].
    destruct (message_cases m t st) as [[H _]|[origin [parsed [Hwf [Hn H]]]]].
    + rewrite H. exact (conj K (conj A U)).
    + rewrite H. destruct (well_formed_parsed _ _ _ Hwf) as [Hnd Hp].
      destruct (sound_accept t st origin parsed K A Hn Hnd Hp).
      apply sound_recompute; assumption.
Qed.

(** *** What the table holds *)

Lemma dict_get_snoc {V : Type} (d : dict V) (k n : Z) (v : V) :
  dict_get k (d ++ [(n, v)])
  = match dict_get k d with
    | Some x => Some x
    | None => if k =? n then Some v else None
    end.
Proof.
  induction d as [|[k0 v0] d IH]; simpl; [reflexivity|].
  destruct (k =? k0); [reflexivity|exact IH].
Qed.

(** The entry the direct links give a destination. *)
Lemma direct_routes_at (self : Z) (nl : dict float) (d : Z) :
  NoDup (dict_keys nl) ->
  dict_get d (direct_routes self nl)
  = match dict_get d nl with
    | Some w => Some (mk_route w d [self; d])
    | None => if d =? self then Some (self_route self) else None
    end.
Proof.
  induction nl as [|[n w] nl IH] using rev_ind; intros Hnd.
  - unfold direct_routes. simpl. destruct (d =? self) eqn:E; [|reflexivity].
    apply Z.eqb_eq in E. subst. reflexivity.
  - unfold dict_keys in Hnd. rewrite map_app in Hnd. simpl in Hnd.
    assert (~ In n (dict_keys nl)) as Hn.
    { apply NoDup_remove_2 in Hnd. rewrite app_nil_r in Hnd. exact Hnd. }
    apply NoDup_remove_1 in Hnd. rewrite app_nil_r in Hnd.
    rewrite direct_routes_snoc, dict_get_set, dict_get_snoc. simpl.
    destruct (d =? n) eqn:E.
    + apply Z.eqb_eq in E. subst n. apply dict_get_None in Hn. rewrite Hn. reflexivity.
    + rewrite (IH Hnd). destruct (dict_get d nl); reflexivity.
Qed.

Lemma int_list_ints (p : list Z) : int_list (map VInt p) = Ok p.
Proof.
  induction p as [|z p IH]; simpl; [reflexivity|]. rewrite IH. reflexivity.
Qed.

Lemma new_table_paths (self : Z) (nl : dict float) (nr : dict (dict advert))
    (d : Z) (r : route) :
  dict_get d (new_table self nl nr) = Some r -> exists rest, path r = self :: rest.
Proof.
  intros H. destruct (Z.eq_dec d self) as [->|Hd].
  - unfold new_table in H. rewrite select_fold_self in H.
    clear -H. induction nl as [|[n w] nl IH] using rev_ind.
    + unfold direct_routes in H. simpl in H. rewrite Z.eqb_refl in H.
      injection H as <-. simpl. eauto.
    + rewrite direct_routes_snoc, dict_get_set in H. simpl in H.
      destruct (self =? n); [injection H as <-; simpl; eauto|auto].
  - destruct (new_table_loop_free self nl nr d r Hd H) as [p [Hp _]]. eauto.
Qed.

Lemma parse_own_table (origin : Z) (l : dict route) (acc : dict advert) :
  Forall (fun d => int_of_str (py_str d) = Some d) (dict_keys l) ->
  (forall d r, In (d, r) l -> exists rest, path r = origin :: rest) ->
  parse_routes origin (map (fun dr => (py_str (fst dr), route_payload (snd dr))) l) acc
  = Ok (fold_left (fun a kv => dict_set (fst kv) (snd kv) a)
                  (map (fun dr => (fst dr, mk_advert (cost (snd dr)) (path (snd dr)))) l)
                  acc).
Proof.
  revert acc. induction l as [|[d r] l IH]; intros acc Hk Hp; simpl; [reflexivity|].
  inversion Hk as [|? ? Hd Hk']; subst.
  destruct (Hp d r (or_introl eq_refl)) as [rest Hr].
  assert (parse_entry origin acc (py_str d, route_payload r)
          = Ok (dict_set d (mk_advert (cost r) (path r)) acc)) as E.
  { unfold parse_entry. cbn [py_int]. rewrite Hd. unfold route_payload, getitem.
    cbn [bind items_get]. simpl String.eqb. cbn [bind py_float].
    rewrite int_list_ints. cbn [bind]. rewrite Hr. rewrite Z.eqb_refl. reflexivity. }
  change (x <- parse_entry origin acc (py_str d, route_payload r) ;;
          parse_routes origin
            (map (fun dr => (py_str (fst dr), route_payload (snd dr))) l) x
          = Ok (fold_left (fun a kv => dict_set (fst kv) (snd kv) a)
                  (map (fun dr => (fst dr, mk_advert (cost (snd dr)) (path (snd dr)))) l)
                  (dict_set d (mk_advert (cost r) (path r)) acc))).
  rewrite E. cbn [bind].
  apply IH; [exact Hk'|]. intros d' r' Hin. apply (Hp d' r'). right. exact Hin.
Qed.

(** A text that parses, from a sender that is no neighbour. *)
Lemma stranger_ignored (m : string) (t : Z) (st : node) (origin : Z) (parsed : dict advert) :
  well_formed m origin parsed ->
  dict_mem origin (neighbor_lat st) = false ->
  process_incoming_routing_message m t st = Returned st [].
Proof.
  intros [msg [raw [H1 [H2 [H3 _]]]]] Hn. unfold process_incoming_routing_message.
  rewrite H1, H2, H3, Hn. reflexivity.
Qed.

End Steps.

Lemma sample_loop_reachable :
  @reachable Sample.sample_runtime Sample.dv_after_loop_advert.
Proof.
  exact (@reach_message Sample.sample_runtime Sample.dv_linked
           (Sample.sample_dumps Sample.advert_loop) 10
           (@reach_link Sample.sample_runtime (__init__ 1) (VInt 2) (VInt 5)
              (@reach_init Sample.sample_runtime 1))).
Qed.

(** X1.  The route table of a reachable node is the one a recomputation
    builds from its link costs and stored advertisements: a further
    recomputation leaves the node as it is, and, no link cost being NaN,
    reports no change and broadcasts nothing. *)
Theorem table_always_current {R : Runtime} (st : node) :
  reachable st ->
  routes st = new_table (id st) (neighbor_lat st) (neighbor_routes st)
  /\ fst (_recompute_routes st) = st
  /\ ((forall n w, In (n, w) (neighbor_lat st) -> (w =? w)%float = true) ->
      recompute_and_broadcast st = Returned st []).
Proof.
  intros H. destruct (reachable_sound st H) as [_ [_ U]]. unfold up_to_date in U.
  assert (fst (_recompute_routes st) = st) as E.
  { unfold _recompute_routes, set_routes. simpl. rewrite <- U. destruct st; reflexivity. }
  split; [exact U|]. split; [exact E|].
  intros Hnl. unfold recompute_and_broadcast.
  rewrite (surjective_pairing (_recompute_routes st)), E.
  unfold _recompute_routes. cbn [snd]. rewrite U, (table_eqb_refl _ _ _ Hnl).
  reflexivity.
Qed.

Lemma table_always_current_witness :
  routes Sample.dv_after_loop_advert
  = new_table 1 [(2, 5%float)]
      [(2, [(2, mk_advert 0 [2]); (3, mk_advert 4 [2; 1; 3]); (4, mk_advert 7 [2; 4])])]
  /\ fst (_recompute_routes Sample.dv_after_loop_advert) = Sample.dv_after_loop_advert.
Proof.
  destruct (@table_always_current Sample.sample_runtime _ sample_loop_reachable)
    as [H1 [H2 _]].
  split; [|exact H2]. rewrite H1. vm_compute. reflexivity.
Defined.

(** X2.  In a reachable node, an advertisement is stored only under a
    current neighbour, each one with the time it was accepted, and
    every path in it starts at that neighbour. *)
Theorem adverts_only_from_neighbours {R : Runtime} (st : node) :
  reachable st ->
  (forall n, dict_mem n (neighbor_routes st) = true ->
             dict_mem n (neighbor_lat st) = true)
  /\ (forall n, dict_mem n (neighbor_last_update st) = dict_mem n (neighbor_routes st))
  /\ (forall n adv d e, dict_get n (neighbor_routes st) = Some adv ->
                        dict_get d adv = Some e ->
                        exists rest, adv_path e = n :: rest).
Proof.
  intros H. destruct (reachable_sound st H) as [_ [A _]]. exact A.
Qed.

Lemma adverts_only_from_neighbours_witness :
  dict_mem 2 (neighbor_lat Sample.dv_after_loop_advert) = true
  /\ dict_mem 2 (neighbor_last_update Sample.dv_after_loop_advert) = true
  /\ exists rest, [2; 1; 3] = 2 :: rest.
Proof.
  destruct (@adverts_only_from_neighbours Sample.sample_runtime _ sample_loop_reachable)
    as [H1 [H2 H3]].
  split; [apply H1; vm_compute; reflexivity|].
  split; [rewrite H2; vm_compute; reflexivity|].
  apply (H3 2 [(2, mk_advert 0 [2]); (3, mk_advert 4 [2; 1; 3]); (4, mk_advert 7 [2; 4])]
            3 (mk_advert 4 [2; 1; 3])); vm_compute; reflexivity.
Defined.

(** X3.  Every route of a reachable node to another node is the direct
    link to that node, or the stored advertisement of a current
    neighbour extended by the link to it, of finite cost and with a
    path the node is not on; either way the next hop is a current
    neighbour and the path runs from the node over that next hop. *)
Theorem route_provenance {R : Runtime} (st : node) (d : Z) (r : route) :
  reachable st -> d <> id st -> dict_get d (routes st) = Some r ->
  ((exists w, dict_get d (neighbor_lat st) = Some w /\ r = mk_route w d [id st; d])
   \/ (exists w adv e,
         dict_get (next r) (neighbor_lat st) = Some w
         /\ dict_get (next r) (neighbor_routes st) = Some adv
         /\ dict_get d adv = Some e
         /\ ~ In (id st) (adv_path e)
         /\ r = mk_route (w + adv_cost e) (next r) (id st :: adv_path e)
         /\ (cost r <? INF)%float = true))
  /\ dict_mem (next r) (neighbor_lat st) = true
  /\ exists rest, path r = id st :: next r :: rest.
Proof.
  intros H Hd Hr. destruct (reachable_sound st H) as [[K1 _] [[_ [_ A3]] U]].
  unfold up_to_date in U. rewrite U, (new_table_spec _ _ _ _ Hd) in Hr.
  apply selected_cases in Hr. destruct Hr as [Hr | [[[n w] [Hin Hc]] Hfin]].
  - destruct (direct_routes_get _ _ _ _ Hd Hr) as [w [Hin ->]].
    apply (In_dict_get _ _ _ K1) in Hin. cbn [next path]. unfold dict_mem. rewrite Hin.
    split; [left; eauto|]. split; [reflexivity|eauto].
  - apply challenger_inv in Hc. cbn [fst snd] in Hc.
    destruct Hc as [adv [e [Ha [He [Hno ->]]]]].
    apply (In_dict_get _ _ _ K1) in Hin. cbn [next path]. unfold dict_mem. rewrite Hin.
    split; [right; exists w, adv, e; repeat split; assumption|].
    split; [reflexivity|].
    destruct (A3 n adv d e Ha He) as [rest ->]. eauto.
Qed.

Lemma route_provenance_witness :
  dict_mem 2 (neighbor_lat Sample.dv_after_loop_advert) = true
  /\ exists rest, [1; 2; 4] = 1 :: 2 :: rest.
Proof.
  refine (proj2 (@route_provenance Sample.sample_runtime Sample.dv_after_loop_advert 4
                   (mk_route 12 2 [1; 2; 4]) sample_loop_reachable _ _)).
  - vm_compute. discriminate.
  - vm_compute. reflexivity.
Defined.

(** X4.  A reachable node has a route to each of its neighbours: the direct
    link, or a route whose key (cost, path length, next hop) is less
    than the direct link's. *)
Theorem neighbours_always_routed {R : Runtime} (st : node) (n : Z) (w : float) :
  reachable st -> n <> id st -> dict_get n (neighbor_lat st) = Some w ->
  exists r, dict_get n (routes st) = Some r
            /\ (r = mk_route w n [id st; n]
                \/ key_lt (route_key r) (w, 2%nat, n) = true).
Proof.
  intros H Hn Hw. destruct (reachable_sound st H) as [[K1 _] [_ U]].
  unfold up_to_date in U. rewrite U, (new_table_spec _ _ _ _ Hn).
  rewrite (direct_routes_at _ _ _ K1), Hw. unfold selected. cbn [default].
  destruct (cost _ <? INF)%float; [|eauto].
  eexists. split; [reflexivity|].
  apply (best_route_le_start (id st) n (neighbor_routes st) (neighbor_lat st)
           (mk_route w n [id st; n])).
Qed.

Lemma neighbours_always_routed_witness :
  exists r, dict_get 2 (routes Sample.dv_after_loop_advert) = Some r
            /\ (r = mk_route 5 2 [1; 2] \/ key_lt (route_key r) (5%float, 2%nat, 2) = true).
Proof.
  apply (@neighbours_always_routed Sample.sample_runtime Sample.dv_after_loop_advert 2 5
           sample_loop_reachable).
  - vm_compute. discriminate.
  - vm_compute. reflexivity.
Defined.

(** X5.  The table of a reachable node always has an entry for the node
    itself: the route of cost zero to itself, unless the node was given
    a link to itself, whose cost then takes that entry. *)
Theorem own_entry {R : Runtime} (st : node) :
  reachable st ->
  dict_get (id st) (routes st)
  = match dict_get (id st) (neighbor_lat st) with
    | Some w => Some (mk_route w (id st) [id st; id st])
    | None => Some (self_route (id st))
    end.
Proof.
  intros H. destruct (reachable_sound st H) as [[K1 _] [_ U]].
  unfold up_to_date in U. rewrite U. unfold new_table.
  rewrite select_fold_self, (direct_routes_at _ _ _ K1), Z.eqb_refl. reflexivity.
Qed.

Lemma own_entry_witness :
  dict_get 1 (routes Sample.dv_after_loop_advert) = Some (self_route 1).
Proof.
  exact (@own_entry Sample.sample_runtime Sample.dv_after_loop_advert
           sample_loop_reachable).
Defined.

(** X6.  Taking a link down (latency -1) forgets the neighbour: its link
    cost, its advertisement and the time of it are gone, no route to
    another node leaves through it, and an advertisement it sends
    afterwards is ignored. *)
Theorem link_deletion {R : Runtime} (neighbor latency : value) (st : node)
    (n : Z) (w : float) :
  py_int neighbor = Ok n -> py_float latency = Ok w -> (w =? -1)%float = true ->
  exists st' sent,
    link_has_been_updated neighbor latency st = Returned st' sent
    /\ dict_get n (neighbor_lat st') = None
    /\ dict_get n (neighbor_routes st') = None
    /\ dict_get n (neighbor_last_update st') = None
    /\ (forall d r, d <> id st' -> dict_get d (routes st') = Some r -> next r <> n)
    /\ (forall m t parsed, well_formed m n parsed ->
          process_incoming_routing_message m t st' = Returned st' []).
Proof.
  intros Hn Hw Hdel.
  destruct (link_cases neighbor latency st) as [[e He] | [n' [w' [Hn' [Hw' Hl]]]]].
  { unfold link_has_been_updated in He. rewrite Hn, Hw in He.
    unfold recompute_and_broadcast in He.
    destruct (_recompute_routes _) in He. destruct (w =? -1)%float; discriminate. }
  rewrite Hn in Hn'. injection Hn' as <-. rewrite Hw in Hw'. injection Hw' as <-.
  rewrite Hdel in Hl. rewrite Hl. unfold recompute_and_broadcast.
  rewrite (surjective_pairing (_recompute_routes (link_deleted n st))).
  eexists. eexists. split; [reflexivity|].
  unfold _recompute_routes, link_deleted. cbn [fst id neighbor_lat neighbor_routes
    neighbor_last_update routes set_routes].
  assert (dict_get n (dict_pop n (neighbor_lat st)) = None) as Hgone
    by apply dict_get_pop_eq.
  split; [exact Hgone|]. split; [apply dict_get_pop_eq|]. split; [apply dict_get_pop_eq|].
  split.
  - intros d r Hd Hr. rewrite (new_table_spec _ _ _ _ Hd) in Hr.
    apply selected_cases in Hr. destruct Hr as [Hr | [[[n1 w1] [Hin Hc]] _]].
    + destruct (direct_routes_get _ _ _ _ Hd Hr) as [w1 [Hin ->]]. cbn [next].
      intros ->. apply dict_get_None in Hgone. apply Hgone.
      apply (in_map fst) in Hin. exact Hin.
    + apply challenger_inv in Hc. destruct Hc as [adv [e [_ [_ [_ ->]]]]]. cbn [next fst].
      intros ->. apply dict_get_None in Hgone. apply Hgone.
      apply (in_map fst) in Hin. exact Hin.
  - intros m t parsed Hwf. apply (stranger_ignored m t _ n parsed Hwf).
    unfold dict_mem, set_routes. cbn [neighbor_lat]. rewrite Hgone. reflexivity.
Qed.

Lemma link_deletion_witness :
  exists st' sent,
    @link_has_been_updated Sample.sample_runtime (VInt 2) (VInt (-1))
      Sample.dv_after_loop_advert = Returned st' sent
    /\ dict_get 2 (neighbor_lat st') = None
    /\ dict_get 2 (neighbor_routes st') = None
    /\ dict_get 2 (neighbor_last_update st') = None
    /\ (forall d r, d <> id st' -> dict_get d (routes st') = Some r -> next r <> 2)
    /\ (forall m t parsed, @well_formed Sample.sample_runtime m 2 parsed ->
          @process_incoming_routing_message Sample.sample_runtime m t st'
          = Returned st' []).
Proof.
  apply (@link_deletion Sample.sample_runtime (VInt 2) (VInt (-1))
           Sample.dv_after_loop_advert 2 (-1)%float); reflexivity.
Defined.

(** X7.  What a reachable node broadcasts, read back, is a well-formed
    advertisement of the node that carries its whole table, one entry
    for each route with the route's cost and path; a node that has the
    sender as a neighbour accepts it. *)
Theorem broadcast_round_trip {R : Runtime} (st : node) :
  reachable st ->
  json_loads (_broadcast_routes st) = Some (broadcast_payload st) ->
  Forall (fun d => int_of_str (py_str d) = Some d) (dict_keys (routes st)) ->
  well_formed (_broadcast_routes st) (id st) (advertised st)
  /\ forall rcv t, dict_mem (id st) (neighbor_lat rcv) = true ->
       process_incoming_routing_message (_broadcast_routes st) t rcv
       = recompute_and_broadcast (accept t rcv (id st) (advertised st)).
Proof.
  intros H Hl Hk. destruct (reachable_sound st H) as [_ [_ U]]. unfold up_to_date in U.
  assert (well_formed (_broadcast_routes st) (id st) (advertised st)) as Hwf.
  { exists (Sample.items_of (broadcast_payload st)).
    exists (map (fun dr => (py_str (fst dr), route_payload (snd dr))) (routes st)).
    split; [exact Hl|]. split; [reflexivity|]. split; [reflexivity|].
    split; [reflexivity|].
    rewrite parse_own_table.
    - unfold advertised. rewrite dict_set_all; [reflexivity|].
      cbn [app]. unfold dict_keys. rewrite map_map. cbn [fst].
      rewrite U. apply new_table_keys.
    - exact Hk.
    - intros d r Hin. rewrite U in Hin.
      apply (new_table_paths (id st) (neighbor_lat st) (neighbor_routes st) d).
      apply In_dict_get; [apply new_table_keys|exact Hin]. }
  split; [exact Hwf|]. intros rcv t Hn. apply message_accepted; assumption.
Qed.

Lemma sample_sender_reachable :
  @reachable Sample_Broadcast.broadcast_runtime Sample_Broadcast.sender.
Proof.
  exact (@reach_link Sample_Broadcast.broadcast_runtime (__init__ 2) (VInt 1) (VInt 5)
           (@reach_init Sample_Broadcast.broadcast_runtime 2)).
Qed.

Lemma broadcast_round_trip_witness :
  @process_incoming_routing_message Sample_Broadcast.broadcast_runtime
    (@_broadcast_routes Sample_Broadcast.broadcast_runtime Sample_Broadcast.sender)
    7 Sample.dv_linked
  = @recompute_and_broadcast Sample_Broadcast.broadcast_runtime
      (accept 7 Sample.dv_linked 2 (advertised Sample_Broadcast.sender)).
Proof.
  refine (proj2 (@broadcast_round_trip Sample_Broadcast.broadcast_runtime
                   Sample_Broadcast.sender sample_sender_reachable _ _)
                Sample.dv_linked 7 _).
  - vm_compute. reflexivity.
  - vm_compute. repeat constructor.
  - vm_compute. reflexivity.
Defined.

End DV_More.

(** ** Link-state node: the search *)

Module LS_Search.
Import Link_State_Node LS_Notions LS_Graph LS_Facts.

Lemma walk_via_walk (adj : dict (dict Z)) (src h t l : Z) :
  walk_via adj src h t l -> walk adj src t l.
Proof.
  induction 1 as [w He|u v w l _ IH He].
  - replace w with (0 + w) by lia. exact (walk_step adj src src h w 0 (walk_here adj src) He).
  - exact (walk_step adj src u v w l IH He).
Qed.

Lemma walk_via_first (adj : dict (dict Z)) (src h t l : Z) :
  walk_via adj src h t l -> exists w, edge adj src h w.
Proof. induction 1; eauto. Qed.

Lemma walk_leaves (adj : dict (dict Z)) (src t l : Z) :
  walk adj src t l -> t = src \/ dict_mem src adj = true.
Proof.
  induction 1 as [|u v w l _ [-> | IH] [es [He _]]]; auto.
  right. unfold dict_mem. rewrite He. reflexivity.
Qed.

Lemma edge_nonneg (adj : dict (dict Z)) (u v w : Z) :
  edges_nonneg adj -> edge adj u v w -> 0 <= w.
Proof.
  intros Hnn [es [He Hin]]. apply dict_get_In in He. exact (Hnn u es v w He Hin).
Qed.

Lemma In_remove_one (pq : list (Z * Z)) (x m : Z * Z) :
  In x pq -> x <> m -> In x (remove_one m pq).
Proof.
  induction pq as [|y pq IH]; simpl; [tauto|]. intros [-> | Hin] Hne.
  - destruct (tuple_eqb m x) eqn:E; [|left; reflexivity].
    exfalso. apply Hne. unfold tuple_eqb in E. apply andb_prop in E.
    destruct E as [E1 E2]. apply Z.eqb_eq in E1, E2. destruct x, m. simpl in *. congruence.
  - destruct (tuple_eqb m y); [exact Hin|right; auto].
Qed.

(** One edge followed. *)
Lemma relax_keeps (adj : dict (dict Z)) (src u d : Z) (done : dict Z)
    (s : search_state) (v w : Z) :
  edges_nonneg adj -> edge adj u v w ->
  relax_inv adj src u d done s ->
  relax_inv adj src u d ((v, w) :: done) (relax src u d s (v, w)).
Proof.
  intros Hnn He [[T1 [T2 [T3 [T4 T5]]]] [Hu [Hq Hd]]].
  destruct s as [[dist fh] pq]. cbn [fst snd] in *.
  pose proof (edge_nonneg _ _ _ _ Hnn He) as Hw.
  destruct (T2 u d Hu) as [Hd0 Hwu].
  unfold relax. destruct (improves (d + w) (dict_get v dist)) eqn:Ei.
  - (* the distance of [v] goes down to [d + w] *)
    assert (v <> u) as Hvu.
    { intros ->. rewrite Hu in Ei. simpl in Ei. apply Z.ltb_lt in Ei. lia. }
    assert (v <> src) as Hvs.
    { intros ->. rewrite T1 in Ei. simpl in Ei. apply Z.ltb_lt in Ei. lia. }
    assert (forall k x, dict_get k dist = Some x ->
                        exists x', dict_get k (dict_set v (d + w) dist) = Some x' /\ x' <= x)
      as Hmono.
    { intros k x Hk. rewrite dict_get_set. destruct (k =? v) eqn:E.
      - apply Z.eqb_eq in E. subst k. rewrite Hk in Ei. simpl in Ei.
        apply Z.ltb_lt in Ei. exists (d + w). split; [reflexivity|lia].
      - exists x. split; [exact Hk|lia]. }
    unfold relax_inv, tables_inv. cbn [fst snd].
    refine (conj (conj _ (conj _ (conj _ (conj _ _)))) (conj _ (conj _ _))).
    + rewrite dict_get_set. destruct (src =? v) eqn:E; [|exact T1].
      apply Z.eqb_eq in E. congruence.
    + intros v0 x H. rewrite dict_get_set in H.
      destruct (v0 =? v) eqn:E; [|exact (T2 _ _ H)].
      apply Z.eqb_eq in E. subst v0. injection H as <-.
      split; [lia|exact (walk_step adj src u v w d Hwu He)].
    + intros v0 h Hh. rewrite dict_get_set in Hh. rewrite dict_get_set.
      destruct (v0 =? v) eqn:E; [|exact (T3 v0 h Hh)].
      apply Z.eqb_eq in E. subst v0. exists (d + w). split; [reflexivity|].
      injection Hh as <-. destruct (u =? src) eqn:Es.
      * apply Z.eqb_eq in Es. subst u. rewrite T1 in Hu. injection Hu as <-.
        apply via_first. exact He.
      * apply Z.eqb_neq in Es.
        assert (dict_mem u fh = true) as Hm.
        { apply T4; [exact Es|]. unfold dict_mem. rewrite Hu. reflexivity. }
        unfold dict_mem in Hm. destruct (dict_get u fh) as [h|] eqn:Eh; [|discriminate].
        cbn [default]. destruct (T3 u h Eh) as [x [Hx Hvia]].
        rewrite Hu in Hx. injection Hx as <-.
        exact (via_step adj src h u v w d Hvia He).
    + intros v0 Hv0 Hm. rewrite dict_mem_set in *.
      destruct (v0 =? v); [reflexivity|]. simpl in *. exact (T4 v0 Hv0 Hm).
    + rewrite dict_get_set. destruct (src =? v) eqn:E; [|exact T5].
      apply Z.eqb_eq in E. congruence.
    + rewrite dict_get_set. destruct (u =? v) eqn:E; [|exact Hu].
      apply Z.eqb_eq in E. congruence.
    + intros u' du Hu' Hdu. rewrite dict_get_set in Hdu.
      destruct (u' =? v) eqn:E.
      * apply Z.eqb_eq in E. subst u'. injection Hdu as <-. left. left. reflexivity.
      * destruct (Hq u' du Hu' Hdu) as [Hin | Hrel]; [left; right; exact Hin|].
        right. intros v1 w1 He1. destruct (Hrel v1 w1 He1) as [dv [Hdv Hle]].
        destruct (Hmono v1 dv Hdv) as [x' [Hx' Hle']]. exists x'. split; [exact Hx'|lia].
    + intros v1 w1 [Heq | Hin].
      * injection Heq as <- <-. exists (d + w). rewrite dict_get_set, Z.eqb_refl.
        split; [reflexivity|lia].
      * destruct (Hd v1 w1 Hin) as [dv [Hdv Hle]].
        destruct (Hmono v1 dv Hdv) as [x' [Hx' Hle']]. exists x'. split; [exact Hx'|lia].
  - (* no change *)
    unfold relax_inv, tables_inv. cbn [fst snd].
    split; [exact (conj T1 (conj T2 (conj T3 (conj T4 T5))))|].
    split; [exact Hu|]. split; [exact Hq|].
    intros v1 w1 [Heq | Hin]; [|exact (Hd v1 w1 Hin)].
    injection Heq as <- <-. unfold improves in Ei.
    destruct (dict_get v dist) as [c|]; [|discriminate].
    apply Z.ltb_ge in Ei. exists c. split; [reflexivity|lia].
Qed.

Lemma relax_fold_keeps (adj : dict (dict Z)) (src u d : Z) (es done : dict Z)
    (s : search_state) :
  edges_nonneg adj -> (forall v w, In (v, w) es -> edge adj u v w) ->
  relax_inv adj src u d done s ->
  relax_inv adj src u d (rev es ++ done) (fold_left (relax src u d) es s).
Proof.
  intros Hnn. revert done s. induction es as [|[v w] es IH]; intros done s He Hs.
  - exact Hs.
  - simpl. rewrite <- app_assoc. simpl. apply IH.
    + intros v1 w1 Hin. apply He. right. exact Hin.
    + apply relax_keeps; [exact Hnn|apply He; left; reflexivity|exact Hs].
Qed.

(** One turn of [while pq]. *)
Lemma step_keeps (adj : dict (dict Z)) (src : Z) (s s' : search_state) :
  edges_nonneg adj -> search_inv adj src s -> step adj src s = Some s' ->
  search_inv adj src s'.
Proof.
  intros Hnn [T Hq] Hs. destruct s as [[dist fh] pq]. cbn [fst snd] in *.
  unfold step in Hs. destruct (heappop pq) as [[[d u] pq']|] eqn:Ep; [|discriminate].
  assert (pq' = remove_one (d, u) pq) as Hpq'.
  { unfold heappop in Ep. destruct pq; [discriminate|]. injection Ep as Hm <-.
    rewrite Hm. reflexivity. }
  destruct (outdated d (dict_get u dist)) eqn:Eo.
  - injection Hs as <-. split; [exact T|]. cbn [fst snd].
    intros u' du Hu'. destruct (Hq u' du Hu') as [Hin | Hrel]; [|right; exact Hrel].
    left. rewrite Hpq'. apply In_remove_one; [exact Hin|].
    intros E. injection E as -> ->. rewrite Hu' in Eo. simpl in Eo.
    rewrite Z.eqb_refl in Eo. discriminate.
  - injection Hs as <-.
    assert (dict_get u dist = Some d) as Hu.
    { unfold outdated in Eo. destruct (dict_get u dist) as [c|]; [|discriminate].
      apply negb_false_iff, Z.eqb_eq in Eo. congruence. }
    assert (relax_inv adj src u d [] (dist, fh, pq')) as Hinv.
    { split; [exact T|]. split; [exact Hu|]. cbn [fst snd]. split; [|intros v w []].
      intros u' du Hne Hu'. destruct (Hq u' du Hu') as [Hin | Hrel]; [|right; exact Hrel].
      left. rewrite Hpq'. apply In_remove_one; [exact Hin|]. congruence. }
    apply (relax_fold_keeps adj src u d (default (dict_get u adj) []) [] _ Hnn) in Hinv.
    + destruct Hinv as [T' [Hu' [Hq' Hd']]]. split; [exact T'|].
      intros u' du Hdu. destruct (Z.eq_dec u' u) as [-> | Hne]; [|exact (Hq' u' du Hne Hdu)].
      right. rewrite Hu' in Hdu. injection Hdu as <-.
      intros v w [es [He Hin]]. apply Hd'. rewrite He. cbn [default].
      rewrite app_nil_r. apply in_rev in Hin. exact Hin.
    + intros v w Hin. destruct (dict_get u adj) as [es|] eqn:He; [|destruct Hin].
      exists es. split; [exact He|exact Hin].
Qed.

Lemma search_keeps (adj : dict (dict Z)) (src : Z) (fuel : nat) (s : search_state)
    (dist fh : dict Z) :
  edges_nonneg adj -> search_inv adj src s -> search fuel adj src s = Some (dist, fh) ->
  tables_inv adj src dist fh
  /\ forall u du, dict_get u dist = Some du -> relaxed adj dist u du.
Proof.
  intros Hnn. revert s. induction fuel as [|fuel IH]; intros s Hs Hr; [discriminate|].
  simpl in Hr. destruct (step adj src s) as [s'|] eqn:Es.
  - exact (IH s' (step_keeps _ _ _ _ Hnn Hs Es) Hr).
  - injection Hr as <- <-. destruct Hs as [T Hq]. split; [exact T|].
    intros u du Hu. destruct (Hq u du Hu) as [Hin | Hrel]; [|exact Hrel].
    destruct s as [[dist fh] pq]. unfold step in Es. cbn [snd] in Hin.
    destruct pq; [destruct Hin|]. simpl in Es.
    destruct (heap_min p pq) as [d0 u0]. destruct (outdated d0 (dict_get u0 dist)); discriminate.
Qed.

Lemma start_inv (adj : dict (dict Z)) (src : Z) :
  search_inv adj src ([(src, 0)], [], [(0, src)]).
Proof.
  unfold search_inv, tables_inv. cbn [fst snd].
  assert (forall v x, dict_get v [(src, 0)] = Some x -> v = src /\ x = 0) as Hone.
  { intros v x H. simpl in H. destruct (v =? src) eqn:E; [|discriminate].
    apply Z.eqb_eq in E. injection H as <-. auto. }
  refine (conj (conj _ (conj _ (conj _ (conj _ _)))) _).
  - simpl. rewrite Z.eqb_refl. reflexivity.
  - intros v x H. apply Hone in H. destruct H as [-> ->]. split; [lia|apply walk_here].
  - intros v h H. discriminate.
  - intros v Hv Hm. unfold dict_mem in Hm. simpl in Hm.
    apply Z.eqb_neq in Hv. rewrite Hv in Hm. discriminate.
  - reflexivity.
  - intros u du H. apply Hone in H. destruct H as [-> ->]. left. left. reflexivity.
Qed.

(** The least length of a walk, once every edge has been followed. *)
Lemma relaxed_least (adj : dict (dict Z)) (src : Z) (dist : dict Z) (t l : Z) :
  dict_get src dist = Some 0 ->
  (forall u du, dict_get u dist = Some du -> relaxed adj dist u du) ->
  walk adj src t l -> exists x, dict_get t dist = Some x /\ x <= l.
Proof.
  intros H0 Hrel. induction 1 as [|u v w l _ [x [Hx Hle]] He].
  - exists 0. split; [exact H0|lia].
  - destruct (Hrel u x Hx v w He) as [dv [Hdv Hle']]. exists dv. split; [exact Hdv|lia].
Qed.

End LS_Search.

(** ** Link-state node: graph, tables and database *)

Module LS_More.
Import Link_State_Node LS_Notions LS_Graph LS_States LS_Facts LS_Search.

(** *** The merged graph *)

Lemma adj_get_setdefault (u : Z) (adj : dict (dict Z)) (a b : Z) :
  adj_get (setdefault u adj) a b = adj_get adj a b.
Proof.
  unfold setdefault, dict_mem. destruct (dict_get u adj) eqn:E; [reflexivity|].
  unfold adj_get. rewrite dict_get_set. destruct (a =? u) eqn:Ea; [|reflexivity].
  apply Z.eqb_eq in Ea. subst a. rewrite E. reflexivity.
Qed.

Lemma adj_get_set_row (adj : dict (dict Z)) (u v w a b : Z) :
  adj_get (dict_set u (dict_set v w (default (dict_get u adj) [])) adj) a b
  = if (a =? u) && (b =? v) then Some w else adj_get adj a b.
Proof.
  unfold adj_get. rewrite dict_get_set. destruct (a =? u) eqn:Ea; [|reflexivity].
  apply Z.eqb_eq in Ea. subst a. rewrite dict_get_set. simpl.
  destruct (b =? v); [reflexivity|]. destruct (dict_get u adj); reflexivity.
Qed.

Lemma adj_get_add_edge (adj : dict (dict Z)) (u v w a b : Z) :
  adj_get (add_edge u v w adj) a b
  = if ((a =? u) && (b =? v)) || ((a =? v) && (b =? u)) then Some w
    else adj_get adj a b.
Proof.
  unfold add_edge. rewrite adj_get_set_row, adj_get_set_row, !adj_get_setdefault.
  destruct ((a =? v) && (b =? u)); [rewrite orb_true_r; reflexivity|].
  rewrite orb_false_r. reflexivity.
Qed.

Lemma dict_mem_setdefault (adj : dict (dict Z)) (u a : Z) :
  dict_mem a (setdefault u adj) = (a =? u) || dict_mem a adj.
Proof.
  unfold setdefault. destruct (dict_mem u adj) eqn:E; [|apply dict_mem_set].
  destruct (a =? u) eqn:Ea; [|reflexivity].
  apply Z.eqb_eq in Ea. subst a. simpl. exact E.
Qed.

Lemma dict_mem_add_edge (adj : dict (dict Z)) (u v w a : Z) :
  dict_mem a (add_edge u v w adj) = (a =? u) || (a =? v) || dict_mem a adj.
Proof.
  unfold add_edge. rewrite !dict_mem_set, !dict_mem_setdefault.
  destruct (a =? u), (a =? v), (dict_mem a adj); reflexivity.
Qed.

Lemma rows_add_edge (adj : dict (dict Z)) (u v w : Z) :
  (forall a es, dict_get a adj = Some es -> NoDup (dict_keys es)) ->
  forall a es, dict_get a (add_edge u v w adj) = Some es -> NoDup (dict_keys es).
Proof.
  intros Hrows.
  assert (forall x adj0,
             (forall a es, dict_get a adj0 = Some es -> NoDup (dict_keys es)) ->
             forall a es, dict_get a (setdefault x adj0) = Some es -> NoDup (dict_keys es))
    as Hsd.
  { intros x adj0 H0 a es. unfold setdefault. destruct (dict_mem x adj0); [apply H0|].
    rewrite dict_get_set. destruct (a =? x); [|apply H0].
    intros E. injection E as <-. constructor. }
  assert (forall x y adj0,
             (forall a es, dict_get a adj0 = Some es -> NoDup (dict_keys es)) ->
             forall a es,
               dict_get a (dict_set x (dict_set y w (default (dict_get x adj0) [])) adj0)
               = Some es -> NoDup (dict_keys es))
    as Hrow.
  { intros x y adj0 H0 a es. rewrite dict_get_set. destruct (a =? x); [|apply H0].
    intros E. injection E as <-. apply dict_set_NoDup.
    destruct (dict_get x adj0) as [row|] eqn:Ex; [exact (H0 x row Ex)|constructor]. }
  unfold add_edge. apply Hrow, Hrow, Hsd, Hsd, Hrows.
Qed.

Lemma add_report_keeps (seen : list (Z * Z * Z)) (adj : dict (dict Z)) (r : Z * Z * Z) :
  adj_inv seen adj -> adj_inv (seen ++ [r]) (add_report adj r).
Proof.
  intros [I1 [I2 [I3 [I4 I5]]]]. destruct r as [[u v] w]. unfold add_report.
  destruct (0 <=? w) eqn:Ew.
  - apply Z.leb_le in Ew. refine (conj _ (conj _ (conj _ (conj _ _)))).
    + apply rows_add_edge. exact I1.
    + intros a b. rewrite !adj_get_add_edge, (I2 a b).
      destruct (a =? u), (b =? v), (a =? v), (b =? u); reflexivity.
    + intros a Ha. rewrite dict_mem_add_edge in Ha.
      destruct (a =? u) eqn:E1.
      * exists v, w. rewrite adj_get_add_edge, E1, Z.eqb_refl. reflexivity.
      * destruct (a =? v) eqn:E2.
        -- exists u, w. rewrite adj_get_add_edge, E2, Z.eqb_refl.
           rewrite orb_true_r. reflexivity.
        -- simpl in Ha. destruct (I3 a Ha) as [b [x Hx]].
           exists b, x. rewrite adj_get_add_edge, E1, E2. simpl. exact Hx.
    + intros a b x Hx. rewrite adj_get_add_edge in Hx.
      destruct ((a =? u) && (b =? v)) eqn:E1.
      * apply andb_prop in E1. destruct E1 as [Ea Eb]. apply Z.eqb_eq in Ea, Eb.
        subst a b. simpl in Hx. injection Hx as <-.
        split; [exact Ew|]. left. apply in_or_app. right. left. reflexivity.
      * destruct ((a =? v) && (b =? u)) eqn:E2.
        -- apply andb_prop in E2. destruct E2 as [Ea Eb]. apply Z.eqb_eq in Ea, Eb.
           subst a b. simpl in Hx. injection Hx as <-.
           split; [exact Ew|]. right. apply in_or_app. right. left. reflexivity.
        -- simpl in Hx. destruct (I4 a b x Hx) as [H0 [H1 | H1]].
           ++ split; [exact H0|]. left. apply in_or_app. left. exact H1.
           ++ split; [exact H0|]. right. apply in_or_app. left. exact H1.
    + intros a b x Hin Hx. rewrite adj_get_add_edge.
      destruct (((a =? u) && (b =? v)) || ((a =? v) && (b =? u))) eqn:E; [eauto|].
      apply in_app_or in Hin. destruct Hin as [Hin | [Heq | []]]; [exact (I5 a b x Hin Hx)|].
      injection Heq as <- <- <-. rewrite !Z.eqb_refl in E. discriminate.
  - apply Z.leb_gt in Ew. refine (conj I1 (conj I2 (conj I3 (conj _ _)))).
    + intros a b x Hx. destruct (I4 a b x Hx) as [H0 [H1 | H1]].
      * split; [exact H0|]. left. apply in_or_app. left. exact H1.
      * split; [exact H0|]. right. apply in_or_app. left. exact H1.
    + intros a b x Hin Hx. apply in_app_or in Hin.
      destruct Hin as [Hin | [Heq | []]]; [exact (I5 a b x Hin Hx)|].
      injection Heq as <- <- <-. lia.
Qed.

Lemma add_reports_keep (rs seen : list (Z * Z * Z)) (adj : dict (dict Z)) :
  adj_inv seen adj -> adj_inv (seen ++ rs) (fold_left add_report rs adj).
Proof.
  revert seen adj. induction rs as [|r rs IH]; intros seen adj H; simpl.
  - rewrite app_nil_r. exact H.
  - replace (seen ++ r :: rs) with ((seen ++ [r]) ++ rs) by (rewrite <- app_assoc; reflexivity).
    apply IH, add_report_keeps, H.
Qed.

Lemma build_reports (db : dict lsa) (adj : dict (dict Z)) :
  fold_left add_record db adj = fold_left add_report (reports db) adj.
Proof.
  revert adj. induction db as [|[o rec] db IH]; intros adj; [reflexivity|].
  unfold reports. simpl. rewrite fold_left_app. rewrite IH. f_equal.
  unfold add_record. cbn [fst snd]. generalize (lsa_neighbors rec) as ns. clear.
  intros ns. revert adj. induction ns as [|[v w] ns IH]; intros adj; [reflexivity|].
  simpl. apply IH.
Qed.

Lemma build_inv (st : node) :
  adj_inv (reports (lsdb st)) (_build_merged_adjacency st).
Proof.
  unfold _build_merged_adjacency. rewrite build_reports.
  apply (add_reports_keep (reports (lsdb st)) [] []).
  refine (conj _ (conj _ (conj _ (conj _ _)))); try discriminate.
  - reflexivity.
  - intros a b w [].
Qed.

Lemma In_reports (db : dict lsa) (u v w : Z) :
  In (u, v, w) (reports db)
  <-> exists rec, In (u, rec) db /\ In (v, w) (lsa_neighbors rec).
Proof.
  unfold reports. rewrite in_flat_map. split.
  - intros [[o rec] [Hin Hm]]. apply in_map_iff in Hm. destruct Hm as [[v' w'] [E Hm]].
    simpl in E. injection E as <- <- <-. eauto.
  - intros [rec [Hin Hm]]. exists (u, rec). split; [exact Hin|].
    apply in_map_iff. exists (v, w). split; [reflexivity|exact Hm].
Qed.

Lemma edge_adj_get (adj : dict (dict Z)) (u v w : Z) :
  (forall a es, dict_get a adj = Some es -> NoDup (dict_keys es)) ->
  edge adj u v w <-> adj_get adj u v = Some w.
Proof.
  intros Hrows. unfold edge, adj_get. split.
  - intros [es [He Hin]]. rewrite He. apply In_dict_get; [exact (Hrows u es He)|exact Hin].
  - destruct (dict_get u adj) as [es|]; [|discriminate].
    intros H. exists es. split; [reflexivity|apply dict_get_In, H].
Qed.

(** X9.  The graph [_build_merged_adjacency] returns is undirected, has no
    negative weight and no node without an edge; each of its edges was
    reported, with that weight, by the record of one of its ends, and
    every non-negative neighbour entry of a record is an edge of it,
    whatever weight another entry may have given it since. *)
Theorem merged_adjacency_undirected (st : node) :
  let adj := _build_merged_adjacency st in
  (forall u v w, edge adj u v w ->
     edge adj v u w /\ 0 <= w
     /\ exists o rec, In (o, rec) (lsdb st)
                      /\ ((o = u /\ In (v, w) (lsa_neighbors rec))
                          \/ (o = v /\ In (u, w) (lsa_neighbors rec))))
  /\ (forall o rec v w, In (o, rec) (lsdb st) -> In (v, w) (lsa_neighbors rec) -> 0 <= w ->
        exists w', edge adj o v w')
  /\ (forall u, dict_mem u adj = true -> exists v w, edge adj u v w).
Proof.
  intros adj. destruct (build_inv st) as [I1 [I2 [I3 [I4 I5]]]]. fold adj in I1, I2, I3, I4, I5.
  split; [|split].
  - intros u v w He. apply (edge_adj_get adj u v w I1) in He.
    split; [apply (edge_adj_get adj v u w I1); rewrite I2; exact He|].
    destruct (I4 u v w He) as [H0 H1]. split; [exact H0|].
    destruct H1 as [H1 | H1]; apply In_reports in H1; destruct H1 as [rec [Hin Hm]].
    + exists u, rec. split; [exact Hin|]. left. auto.
    + exists v, rec. split; [exact Hin|]. right. auto.
  - intros o rec v w Hin Hm Hw.
    destruct (I5 o v w) as [w' Hw']; [apply In_reports; eauto|exact Hw|].
    exists w'. apply (edge_adj_get adj o v w' I1). exact Hw'.
  - intros u Hu. destruct (I3 u Hu) as [v [w Hw]]. exists v, w.
    apply (edge_adj_get adj u v w I1). exact Hw.
Qed.

(** *** What a recomputation leaves *)

Lemma recompute_tables (fuel : nat) (st st' : node) :
  _recompute_routes fuel st = Some st' ->
  (dict_mem (id st) (_build_merged_adjacency st) = false
   /\ dist st' = [] /\ routing_table st' = [])
  \/ (dict_mem (id st) (_build_merged_adjacency st) = true
      /\ tables_inv (_build_merged_adjacency st) (id st) (dist st') (routing_table st')
      /\ forall u du, dict_get u (dist st') = Some du ->
                      relaxed (_build_merged_adjacency st) (dist st') u du).
Proof.
  unfold _recompute_routes.
  destruct (dict_mem (id st) (_build_merged_adjacency st)) eqn:Em; cbn [negb].
  - destruct (search fuel _ _ _) as [[dist fh]|] eqn:Es; [|discriminate].
    intros E. injection E as <-. right. split; [reflexivity|].
    exact (search_keeps _ _ _ _ _ _ (edges_nonneg_build st) (start_inv _ _) Es).
  - intros E. injection E as <-. left. auto.
Qed.

(** X10.  A recomputation ends, and then [dist] holds, for each node a
    walk of the merged graph leads to from this node, the least length
    of such a walk, and nothing for any other node. *)
Theorem recompute_shortest_distances (st : node) :
  let adj := _build_merged_adjacency st in
  exists fuel0, forall fuel, (fuel0 <= fuel)%nat ->
    exists st',
      _recompute_routes fuel st = Some st'
      /\ (forall t x, dict_get t (dist st') = Some x ->
            walk adj (id st) t x /\ forall l, walk adj (id st) t l -> x <= l)
      /\ (forall t l, walk adj (id st) t l -> t <> id st -> dict_mem t (dist st') = true)
      /\ dict_get (id st) (dist st') = (if dict_mem (id st) adj then Some 0 else None).
Proof.
  intros adj. destruct (recompute_terminates st) as [fuel0 Hend]. exists fuel0.
  intros fuel Hle. destruct (Hend fuel Hle) as [st' H]. exists st'. split; [exact H|].
  destruct (recompute_tables fuel st st' H) as [[Em [Hd _]] | [Em [T Hrel]]];
    fold adj in Em |- *; rewrite Em.
  - rewrite Hd. split; [discriminate|]. split; [|reflexivity].
    intros t l Hw Ht. destruct (walk_leaves _ _ _ _ Hw) as [E | E]; [contradiction|].
    fold adj in Hw. congruence.
  - fold adj in T, Hrel. destruct T as [T1 [T2 _]]. split; [|split; [|exact T1]].
    + intros t x Hx. split; [exact (proj2 (T2 t x Hx))|].
      intros l Hw. destruct (relaxed_least adj (id st) (dist st') t l T1 Hrel Hw) as [x' [Hx' Hle']].
      rewrite Hx in Hx'. injection Hx' as <-. exact Hle'.
    + intros t l Hw _.
      destruct (relaxed_least adj (id st) (dist st') t l T1 Hrel Hw) as [x' [Hx' _]].
      unfold dict_mem. rewrite Hx'. reflexivity.
Qed.

(** X11.  A recomputation ends, and then [routing_table] has an entry
    for just the nodes other than this one that [dist] has; the entry
    is a neighbour of this node in the merged graph, the first node
    after it on a walk to the destination of the length [dist] gives. *)
Theorem recompute_first_hops (st : node) :
  let adj := _build_merged_adjacency st in
  exists fuel0, forall fuel, (fuel0 <= fuel)%nat ->
    exists st',
      _recompute_routes fuel st = Some st'
      /\ (forall t h, dict_get t (routing_table st') = Some h ->
            t <> id st
            /\ (exists w, edge adj (id st) h w)
            /\ exists x, dict_get t (dist st') = Some x /\ walk_via adj (id st) h t x)
      /\ (forall t, t <> id st ->
            dict_mem t (routing_table st') = dict_mem t (dist st')).
Proof.
  intros adj. destruct (recompute_terminates st) as [fuel0 Hend]. exists fuel0.
  intros fuel Hle. destruct (Hend fuel Hle) as [st' H]. exists st'. split; [exact H|].
  destruct (recompute_tables fuel st st' H) as [[Em [Hd Hr]] | [Em [T _]]].
  - rewrite Hd, Hr. split; [discriminate|reflexivity].
  - fold adj in T. destruct T as [T1 [T2 [T3 [T4 T5]]]]. split.
    + intros t h Hh. destruct (T3 t h Hh) as [x [Hx Hvia]].
      split; [intros ->; congruence|].
      split; [exact (walk_via_first _ _ _ _ _ Hvia)|eauto].
    + intros t Ht. destruct (dict_mem t (dist st')) eqn:Ed; [exact (T4 t Ht Ed)|].
      unfold dict_mem in *. destruct (dict_get t (routing_table st')) as [h|] eqn:Eh;
        [|reflexivity].
      destruct (T3 t h Eh) as [x [Hx _]]. rewrite Hx in Ed. discriminate.
Qed.

(** *** The states a node goes through *)

Lemma recompute_more_fuel (fuel fuel' : nat) (st st' : node) :
  (fuel <= fuel')%nat -> _recompute_routes fuel st = Some st' ->
  _recompute_routes fuel' st = Some st'.
Proof.
  intros Hle. unfold _recompute_routes.
  destruct (negb (dict_mem (id st) (_build_merged_adjacency st))); [auto|].
  destruct (search fuel _ _ _) as [r|] eqn:E; [|discriminate].
  rewrite (search_more_fuel _ _ _ _ _ _ Hle E). auto.
Qed.

Section States.
Context {R : Runtime}.

Lemma originate_settled (fuel : nat) (st : node) (o : outcome node) :
  NoDup (dict_keys (neighbor_lat st)) -> 0 <= seq st ->
  _originate_and_flood_lsa fuel st = Some o -> settled (state_of o).
Proof.
  intros Hnd Hseq. unfold _originate_and_flood_lsa.
  destruct (_recompute_routes fuel _) as [st2|] eqn:E; [|discriminate].
  intros [= <-]. cbn [state_of].
  destruct (recompute_keeps _ _ _ E) as [H1 [H2 [H3 H4]]]. cbn [id neighbor_lat lsdb seq] in *.
  unfold settled. rewrite H1, H2, H3, H4, dict_get_set_eq.
  split; [reflexivity|]. split; [lia|]. split; [exact Hnd|].
  exists fuel. exact (recompute_idempotent _ _ _ E).
Qed.

Lemma link_settled (fuel : nat) (neighbor latency : value) (st : node) (o : outcome node) :
  settled st -> link_has_been_updated fuel neighbor latency st = Some o ->
  settled (state_of o).
Proof.
  intros Hs. pose proof Hs as [_ [Hseq [Hnd _]]]. unfold link_has_been_updated.
  destruct (py_int neighbor) as [n|e]; [|intros [= <-]; exact Hs].
  destruct (is_minus_one latency).
  - apply originate_settled; [apply dict_pop_NoDup, Hnd|exact Hseq].
  - destruct (py_int latency) as [w|e]; [|intros [= <-]; exact Hs].
    apply originate_settled; [apply dict_set_NoDup, Hnd|exact Hseq].
Qed.

Lemma message_settled (fuel : nat) (m : string) (st : node) (o : outcome node) :
  settled st -> process_incoming_routing_message fuel m st = Some o ->
  settled (state_of o).
Proof.
  intros Hs Ho.
  destruct (process_cases fuel m st) as [[E _] | [origin [s1 [ns [_ [Hne [_ E]]]]]]];
    rewrite E in Ho.
  - injection Ho as <-. exact Hs.
  - destruct (_recompute_routes fuel _) as [st'|] eqn:Er; [|discriminate].
    injection Ho as <-. cbn [state_of].
    destruct (recompute_keeps _ _ _ Er) as [H1 [H2 [H3 H4]]].
    cbn [id neighbor_lat lsdb seq install] in *.
    destruct Hs as [S1 [S2 [S3 _]]]. unfold settled. rewrite H1, H2, H3, H4.
    split; [rewrite dict_get_set_neq by congruence; exact S1|].
    split; [exact S2|]. split; [exact S3|].
    exists fuel. exact (recompute_idempotent _ _ _ Er).
Qed.

Lemma reachable_settled (st : node) : reachable st -> settled st.
Proof.
  induction 1 as [i|st fuel neighbor latency o _ IH Ho|st fuel m o _ IH Ho].
  - unfold settled, __init__. cbn [id lsdb seq neighbor_lat]. simpl dict_get.
    rewrite Z.eqb_refl. split; [reflexivity|]. split; [lia|]. split; [constructor|].
    exists 0%nat. reflexivity.
  - exact (link_settled _ _ _ _ _ IH Ho).
  - exact (message_settled _ _ _ _ IH Ho).
Qed.

End States.

Lemma sample_seq5_reachable :
  @reachable Sample.sample_runtime Sample.ls_after_seq5.
Proof.
  refine (@ls_message Sample.sample_runtime Sample.ls_linked 100
            (Sample.sample_dumps Sample.lsa_2_seq5)
            (Returned Sample.ls_after_seq5 [Sample.sample_dumps Sample.lsa_2_seq5])
            (@ls_link Sample.sample_runtime (__init__ 1) 100 (VInt 2) (VInt 5)
               (Returned Sample.ls_linked _) (@ls_init Sample.sample_runtime 1) _) _).
  - vm_compute. reflexivity.
  - vm_compute. reflexivity.
Qed.

(** X12.  The record a reachable node keeps of itself in its database always
    carries its present sequence number and its present link costs. *)
Theorem own_record_current {R : Runtime} (st : node) :
  reachable st ->
  dict_get (id st) (lsdb st) = Some (mk_lsa (seq st) (neighbor_lat st))
  /\ 0 <= seq st.
Proof.
  intros H. destruct (reachable_settled st H) as [H1 [H2 _]]. auto.
Qed.

Lemma own_record_current_witness :
  dict_get 1 (lsdb Sample.ls_after_seq5) = Some (mk_lsa 1 [(2, 5)]) /\ 0 <= 1.
Proof.
  exact (@own_record_current Sample.sample_runtime Sample.ls_after_seq5
           sample_seq5_reachable).
Defined.

(** X13.  The tables of a reachable node are those a recomputation over its
    database gives: run again, with fuel enough, it returns the node as
    it is. *)
Theorem tables_always_current {R : Runtime} (st : node) :
  reachable st ->
  exists fuel0, forall fuel, (fuel0 <= fuel)%nat -> _recompute_routes fuel st = Some st.
Proof.
  intros H. destruct (reachable_settled st H) as [_ [_ [_ [fuel0 H0]]]].
  exists fuel0. intros fuel Hle. exact (recompute_more_fuel _ _ _ _ Hle H0).
Qed.

Lemma tables_always_current_witness :
  exists fuel0, forall fuel, (fuel0 <= fuel)%nat ->
    _recompute_routes fuel Sample.ls_after_seq5 = Some Sample.ls_after_seq5.
Proof.
  exact (@tables_always_current Sample.sample_runtime Sample.ls_after_seq5
           sample_seq5_reachable).
Defined.

(** X14.  For a destination other than itself a reachable node answers -1
    when no walk of the merged graph leads there, and otherwise a
    neighbour of the node in that graph that starts a walk of least
    length to the destination. *)
Theorem next_hop_on_shortest_walk {R : Runtime} (st : node) (dest : Z) :
  reachable st -> dest <> id st ->
  let adj := _build_merged_adjacency st in
  let hop := get_next_hop (VInt dest) st in
  (hop = -1 /\ dict_get dest (dist st) = None /\ forall l, ~ walk adj (id st) dest l)
  \/ (exists x w,
        dict_get dest (dist st) = Some x
        /\ edge adj (id st) hop w
        /\ walk_via adj (id st) hop dest x
        /\ forall l, walk adj (id st) dest l -> x <= l).
Proof.
  intros H Hd adj hop. destruct (reachable_settled st H) as [_ [_ [_ [fuel Hf]]]].
  assert (hop = default (dict_get dest (routing_table st)) (-1)) as Hhop.
  { unfold hop, get_next_hop. cbn [py_int]. apply Z.eqb_neq in Hd. rewrite Hd. reflexivity. }
  destruct (recompute_tables fuel st st Hf) as [[Em [Ed Er]] | [_ [T Hrel]]].
  - fold adj in Em. left. rewrite Hhop, Er, Ed. split; [reflexivity|]. split; [reflexivity|].
    intros l Hw. destruct (walk_leaves _ _ _ _ Hw) as [E | E]; [contradiction|congruence].
  - fold adj in T, Hrel. destruct T as [T1 [T2 [T3 [T4 _]]]].
    destruct (dict_get dest (dist st)) as [x|] eqn:Ex.
    + right. assert (dict_mem dest (routing_table st) = true) as Hm.
      { apply T4; [exact Hd|]. unfold dict_mem. rewrite Ex. reflexivity. }
      unfold dict_mem in Hm.
      destruct (dict_get dest (routing_table st)) as [h|] eqn:Eh; [|discriminate].
      cbn [default] in Hhop. rewrite Hhop.
      destruct (T3 dest h Eh) as [x' [Hx' Hvia]]. rewrite Ex in Hx'. injection Hx' as <-.
      destruct (walk_via_first _ _ _ _ _ Hvia) as [w Hw].
      exists x, w. split; [reflexivity|]. split; [exact Hw|]. split; [exact Hvia|].
      intros l Hl. destruct (relaxed_least adj (id st) (dist st) dest l T1 Hrel Hl)
        as [x' [Hx' Hle]].
      rewrite Ex in Hx'. injection Hx' as <-. exact Hle.
    + left. assert (dict_get dest (routing_table st) = None) as Eh.
      { destruct (dict_get dest (routing_table st)) as [h|] eqn:Eh; [|reflexivity].
        destruct (T3 dest h Eh) as [x [Hx _]]. congruence. }
      rewrite Hhop, Eh. split; [reflexivity|]. split; [reflexivity|].
      intros l Hl. destruct (relaxed_least adj (id st) (dist st) dest l T1 Hrel Hl)
        as [x [Hx _]].
      congruence.
Qed.

Lemma next_hop_on_shortest_walk_witness :
  exists x w,
    dict_get 3 (dist Sample.ls_after_seq5) = Some x
    /\ edge (_build_merged_adjacency Sample.ls_after_seq5) 1 2 w
    /\ walk_via (_build_merged_adjacency Sample.ls_after_seq5) 1 2 3 x
    /\ forall l, walk (_build_merged_adjacency Sample.ls_after_seq5) 1 3 l -> x <= l.
Proof.
  destruct (@next_hop_on_shortest_walk Sample.sample_runtime Sample.ls_after_seq5 3
              sample_seq5_reachable) as [[_ [E _]] | H].
  - discriminate.
  - vm_compute in E. discriminate.
  - exact H.
Defined.

(** *** The database over time *)

Section Database.
Context {R : Runtime}.

Lemma originate_lsdb (fuel : nat) (st : node) (o : outcome node) :
  _originate_and_flood_lsa fuel st = Some o ->
  lsdb (state_of o)
  = dict_set (id st) (mk_lsa (seq st + 1) (neighbor_lat st)) (lsdb st).
Proof.
  unfold _originate_and_flood_lsa.
  destruct (_recompute_routes fuel _) as [st2|] eqn:E; [|discriminate].
  intros [= <-]. cbn [state_of].
  destruct (recompute_keeps _ _ _ E) as [_ [_ [H3 _]]]. exact H3.
Qed.

Lemma set_own_record (st : node) (nl nl' : dict Z) (origin : Z) (rec : lsa) :
  dict_get (id st) (lsdb st) = Some (mk_lsa (seq st) nl) ->
  dict_get origin (lsdb st) = Some rec ->
  exists rec',
    dict_get origin (dict_set (id st) (mk_lsa (seq st + 1) nl') (lsdb st)) = Some rec'
    /\ (rec' = rec \/ lsa_seq rec < lsa_seq rec').
Proof.
  intros Hown Hrec. rewrite dict_get_set. destruct (origin =? id st) eqn:E.
  - apply Z.eqb_eq in E. subst origin. rewrite Hown in Hrec. injection Hrec as <-.
    eexists. split; [reflexivity|]. right. simpl. lia.
  - exists rec. auto.
Qed.

Lemma advert_installed (fuel : nat) (m : string) (rcv : node) (origin s : Z) (ns : dict Z) :
  advert_of m origin s ns -> origin <> id rcv ->
  stale s (dict_get origin (lsdb rcv)) = false ->
  process_incoming_routing_message fuel m rcv
  = match _recompute_routes fuel (install rcv origin s ns) with
    | Some rcv' => Some (Returned rcv' [m])
    | None => None
    end.
Proof.
  intros Ha Hne Hst.
  destruct (process_cases fuel m rcv) as [[_ E] | [o1 [s1 [ns1 [Ha1 [_ [_ E]]]]]]].
  - destruct (E origin s ns Ha) as [E1 | E1]; [contradiction|congruence].
  - destruct (advert_of_unique _ _ _ _ _ _ _ Ha Ha1) as [-> [-> ->]]. exact E.
Qed.

Lemma own_advert_ignored (fuel : nat) (m : string) (st : node) (s : Z) (ns : dict Z) :
  advert_of m (id st) s ns ->
  process_incoming_routing_message fuel m st = Some (Returned st []).
Proof.
  intros Ha.
  destruct (process_cases fuel m st) as [[E _] | [o1 [s1 [ns1 [Ha1 [Hne _]]]]]]; [exact E|].
  destruct (advert_of_unique _ _ _ _ _ _ _ Ha Ha1) as [E _]. congruence.
Qed.

Lemma kept_costs_keys (nl : dict Z) :
  NoDup (dict_keys nl) -> NoDup (dict_keys (kept_costs nl)).
Proof.
  induction nl as [|[k v] nl IH]; simpl; [auto|]. intros H.
  inversion H as [|? ? Hnot Hnd]; subst. destruct (0 <=? v); [|auto].
  simpl. constructor; [|auto]. intros Hin. apply Hnot.
  unfold dict_keys, kept_costs in Hin. apply in_map_iff in Hin.
  destruct Hin as [[k1 v1] [Hk Hin]]. simpl in Hk. subst k1.
  apply filter_In in Hin. destruct Hin as [Hin _].
  apply (in_map fst) in Hin. exact Hin.
Qed.

Lemma parse_own_costs (nl acc : dict Z) :
  Forall (fun k => int_of_str (py_str k) = Some k) (dict_keys nl) ->
  fold_left parse_neighbor (map (fun kv => (py_str (fst kv), VInt (snd kv))) nl) acc
  = fold_left (fun a kv => dict_set (fst kv) (snd kv) a) (kept_costs nl) acc.
Proof.
  revert acc. induction nl as [|[k v] nl IH]; intros acc Hk; [reflexivity|].
  inversion Hk as [|? ? Hd Hk']; subst. cbn [map fold_left fst snd kept_costs filter].
  assert (parse_neighbor acc (py_str k, VInt v)
          = if 0 <=? v then dict_set k v acc else acc) as E.
  { unfold parse_neighbor. cbn [fst snd py_int]. rewrite Hd. reflexivity. }
  rewrite E. destruct (0 <=? v); cbn [fold_left fst snd]; apply IH, Hk'.
Qed.

End Database.

(** X15.  No call of an entry point takes a record out of the database of a
    reachable node, and a record is replaced only by one with a
    greater sequence number. *)
Theorem database_only_grows {R : Runtime} (fuel : nat) (st : node) (o : outcome node) :
  reachable st ->
  (exists neighbor latency, link_has_been_updated fuel neighbor latency st = Some o)
  \/ (exists m, process_incoming_routing_message fuel m st = Some o) ->
  forall origin rec,
    dict_get origin (lsdb st) = Some rec ->
    exists rec', dict_get origin (lsdb (state_of o)) = Some rec'
                 /\ (rec' = rec \/ lsa_seq rec < lsa_seq rec').
Proof.
  intros H Ho origin rec Hrec. destruct (reachable_settled st H) as [Hown _].
  destruct Ho as [[neighbor [latency Ho]] | [m Ho]].
  - unfold link_has_been_updated in Ho.
    destruct (py_int neighbor) as [n|e]; [|injection Ho as <-; eauto].
    destruct (is_minus_one latency).
    + rewrite (originate_lsdb _ _ _ Ho).
      exact (set_own_record st (neighbor_lat st) _ origin rec Hown Hrec).
    + destruct (py_int latency) as [w|e]; [|injection Ho as <-; eauto].
      rewrite (originate_lsdb _ _ _ Ho).
      exact (set_own_record st (neighbor_lat st) _ origin rec Hown Hrec).
  - destruct (process_cases fuel m st) as [[E _] | [o1 [s1 [ns [_ [_ [Hst E]]]]]]];
      rewrite E in Ho.
    + injection Ho as <-. eauto.
    + destruct (_recompute_routes fuel _) as [st'|] eqn:Er; [|discriminate].
      injection Ho as <-. cbn [state_of].
      destruct (recompute_keeps _ _ _ Er) as [_ [_ [H3 _]]]. rewrite H3.
      cbn [lsdb install]. rewrite dict_get_set. destruct (origin =? o1) eqn:Eo.
      * apply Z.eqb_eq in Eo. subst o1. rewrite Hrec in Hst. simpl in Hst.
        apply Z.leb_gt in Hst. eexists. split; [reflexivity|]. right. exact Hst.
      * eauto.
Qed.

Lemma database_only_grows_witness :
  exists rec', dict_get 2 (lsdb Sample.ls_after_seq5) = Some rec'
               /\ (rec' = mk_lsa 5 [(1, 5); (3, 5)] \/ 5 < lsa_seq rec').
Proof.
  refine (@database_only_grows Sample.sample_runtime 100 Sample.ls_after_seq5
            (Returned Sample.ls_after_seq5 []) sample_seq5_reachable
            (or_intror (ex_intro _ (Sample.sample_dumps Sample.lsa_2_seq3) _))
            2 (mk_lsa 5 [(1, 5); (3, 5)]) _).
  - vm_compute. reflexivity.
  - vm_compute. reflexivity.
Defined.

(** X16.  The advertisement a node floods, read back, is an
    advertisement of that node with its new sequence number and its
    link costs that are not negative; the node itself ignores it, and
    another node that has no record of the sender as recent installs
    just that and floods the text on. *)
Theorem originated_lsa_read_back {R : Runtime} (st : node) :
  NoDup (dict_keys (neighbor_lat st)) ->
  Forall (fun k => int_of_str (py_str k) = Some k) (dict_keys (neighbor_lat st)) ->
  json_loads (json_dumps (lsa_payload st (seq st + 1)))
  = Some (lsa_payload st (seq st + 1)) ->
  let m := json_dumps (lsa_payload st (seq st + 1)) in
  advert_of m (id st) (seq st + 1) (kept_costs (neighbor_lat st))
  /\ (exists fuel0, forall fuel, (fuel0 <= fuel)%nat ->
        exists st',
          _originate_and_flood_lsa fuel st = Some (Returned st' [m])
          /\ forall fuel',
               process_incoming_routing_message fuel' m st' = Some (Returned st' []))
  /\ (forall fuel' rcv,
        id rcv <> id st ->
        stale (seq st + 1) (dict_get (id st) (lsdb rcv)) = false ->
        process_incoming_routing_message fuel' m rcv
        = match _recompute_routes fuel'
                  (install rcv (id st) (seq st + 1) (kept_costs (neighbor_lat st))) with
          | Some rcv' => Some (Returned rcv' [m])
          | None => None
          end).
Proof.
  intros Hnd Hk Hl m.
  assert (advert_of m (id st) (seq st + 1) (kept_costs (neighbor_lat st))) as Ha.
  { exists (Sample.items_of (lsa_payload st (seq st + 1))).
    split; [exact Hl|]. split; [reflexivity|]. split; [reflexivity|].
    cbn [lsa_payload Sample.items_of]. simpl items_get. cbn [default parse_neighbors].
    rewrite (parse_own_costs _ [] Hk), dict_set_all; [reflexivity|].
    cbn [app]. apply kept_costs_keys, Hnd. }
  split; [exact Ha|]. split.
  - unfold _originate_and_flood_lsa. set (st1 := mk_node _ _ _ _ _ _).
    destruct (recompute_terminates st1) as [fuel0 Hend]. exists fuel0.
    intros fuel Hle. destruct (Hend fuel Hle) as [st2 Er]. rewrite Er.
    exists st2. split; [reflexivity|]. intros fuel'.
    destruct (recompute_keeps _ _ _ Er) as [H1 _]. unfold st1 in H1. cbn [id] in H1.
    apply (own_advert_ignored fuel' m st2 (seq st + 1) (kept_costs (neighbor_lat st))).
    rewrite H1. exact Ha.
  - intros fuel' rcv Hne Hst.
    apply advert_installed; [exact Ha|congruence|exact Hst].
Qed.

Lemma originated_lsa_read_back_witness :
  @advert_of Sample.sample_runtime (Sample.sample_dumps Sample.lsa_2_seq5) 2 5
    [(1, 5); (3, 5)].
Proof.
  refine (proj1 (@originated_lsa_read_back Sample.sample_runtime Sample_Flood.ls_sender
                   _ _ _)).
  - vm_compute. repeat constructor; simpl; intuition discriminate.
  - vm_compute. repeat constructor.
  - vm_compute. reflexivity.
Defined.

(** X17.  Taking a link down takes the neighbour out of the node's own
    link costs; while the neighbour's record in the database still
    lists the node at a cost that is not negative, the merged graph
    keeps the edge and the node keeps a distance and a next hop for
    the neighbour. *)
Theorem deleted_link_still_routed {R : Runtime} (neighbor latency : value)
    (st : node) (n w : Z) (rec : lsa) :
  py_int neighbor = Ok n -> is_minus_one latency = true -> n <> id st ->
  dict_get n (lsdb st) = Some rec -> In (id st, w) (lsa_neighbors rec) -> 0 <= w ->
  exists fuel0, forall fuel, (fuel0 <= fuel)%nat ->
    exists st' sent,
      link_has_been_updated fuel neighbor latency st = Some (Returned st' sent)
      /\ dict_get n (neighbor_lat st') = None
      /\ (exists w', edge (_build_merged_adjacency st') (id st') n w')
      /\ dict_mem n (dist st') = true
      /\ dict_mem n (routing_table st') = true.
Proof.
  intros Hn Hm Hne Hrec Hin Hw. unfold link_has_been_updated.
  rewrite Hn, Hm. unfold _originate_and_flood_lsa.
  set (st1 := mk_node _ _ _ _ _ _).
  destruct (recompute_terminates st1) as [fuel0 Hend]. exists fuel0.
  intros fuel Hle. destruct (Hend fuel Hle) as [st2 Er]. rewrite Er.
  eexists. eexists. split; [reflexivity|].
  destruct (recompute_keeps _ _ _ Er) as [H1 [H2 [H3 _]]].
  unfold st1 in H1, H2, H3. cbn [id neighbor_lat lsdb set_neighbor_lat] in H1, H2, H3.
  pose proof (recompute_idempotent _ _ _ Er) as Er2.
  assert (n <> id st2) as Hne2 by congruence.
  assert (exists w', edge (_build_merged_adjacency st2) (id st2) n w') as [w' He].
  { destruct (build_inv st2) as [I1 [I2 [_ [_ I5]]]].
    destruct (I5 n (id st2) w) as [w' Hw']; [|exact Hw|].
    - apply In_reports. exists rec. split; [|rewrite H1; exact Hin].
      rewrite H3. apply dict_get_In. rewrite dict_get_set_neq by exact Hne. exact Hrec.
    - exists w'. apply (edge_adj_get _ _ _ _ I1). rewrite I2. exact Hw'. }
  split; [rewrite H2; apply dict_get_pop_eq|]. split; [eauto|].
  destruct (recompute_tables fuel st2 st2 Er2) as [[Em _] | [_ [T Hrel]]].
  - destruct He as [es [He _]]. unfold dict_mem in Em. rewrite He in Em. discriminate.
  - destruct T as [T1 [_ [_ [T4 _]]]].
    assert (dict_mem n (dist st2) = true) as Hd.
    { destruct (relaxed_least _ (id st2) (dist st2) n (0 + w') T1 Hrel
                  (walk_step _ _ _ _ _ _ (walk_here _ _) He)) as [x [Hx _]].
      unfold dict_mem. rewrite Hx. reflexivity. }
    split; [exact Hd|exact (T4 n Hne2 Hd)].
Qed.

Lemma deleted_link_still_routed_witness :
  exists fuel0, forall fuel, (fuel0 <= fuel)%nat ->
    exists st' sent,
      @link_has_been_updated Sample.sample_runtime fuel (VInt 2) (VInt (-1))
        Sample.ls_after_seq5 = Some (Returned st' sent)
      /\ dict_get 2 (neighbor_lat st') = None
      /\ (exists w', edge (_build_merged_adjacency st') (id st') 2 w')
      /\ dict_mem 2 (dist st') = true
      /\ dict_mem 2 (routing_table st') = true.
Proof.
  apply (@deleted_link_still_routed Sample.sample_runtime (VInt 2) (VInt (-1))
           Sample.ls_after_seq5 2 5 (mk_lsa 5 [(1, 5); (3, 5)])).
  - reflexivity.
  - reflexivity.
  - vm_compute. discriminate.
  - vm_compute. reflexivity.
  - vm_compute. left. reflexivity.
  - lia.
Defined.

End LS_More.

(** ** Integer costs *)

Module LS_Costs.
Import Link_State_Node LS_Notions LS_Graph LS_States LS_Facts LS_Search LS_More.




Section Parsing.
Context {R : Runtime}.




End Parsing.

End LS_Costs.


